(** * trading-server: price manipulation, order intake and settlement

    A shallow embedding of [src/priceHandler.ts] and [src/server.ts] (in
    their several revisions) and the properties of the specification that
    concern them.

    Conventions of the embedding.

    - In the handlers a JavaScript number is an exact rational ([Q]):
      binary64 rounding, [NaN] and the infinities are left out there, and
      a division whose divisor is zero, which in JavaScript yields [NaN]
      or an infinity, has no rational value and is the fault [None] of
      [Js.div].
    - [Map<string, number>] is [gmap string Q].
    - The Prisma store is a record of tables; [prisma.$transaction] applies
      a list of writes, all or none.
    - What a function awaits from outside the process (the HTTP price
      fetch, [Math.random]) is an argument of its embedding.

    [Binary64] repeats the manipulation block and the rule at expiry on
    binary64 numbers, every operation the IEEE 754 one that JavaScript
    performs: the case rule of the block is proved there, for every
    binary64 input, and the sample values are checked as JavaScript
    computes them.

    [Interleaved] splits the [/api/orders] handler at the [await] between
    its balance test and its transaction, where another handler may run. *)

From Stdlib Require Import QArith Lqa Floats.
From stdpp Require Import gmap strings list.

Set Warnings "-inexact-float".

Open Scope Q_scope.

(** ** JavaScript values *)

Module Js.

(** [!!x] for a number: zero is falsy. *)
Definition truthy (x : Q) : bool := negb (Qeq_bool x 0).

(** [!!s] for a string: the empty string is falsy. *)
Definition truthy_str (s : string) : bool := negb (String.eqb s "").

(** [!!v] for a value that may be [undefined] or [null]. *)
Definition truthy_opt {A} (t : A → bool) (v : option A) : bool :=
  match v with Some a => t a | None => false end.

(** [a > b] and [a < b]. *)
Definition gt (a b : Q) : bool := negb (Qle_bool a b).
Definition lt (a b : Q) : bool := gt b a.

(** [a / b]; no rational value when [b] is zero. *)
Definition div (a b : Q) : option Q :=
  if Qeq_bool b 0 then None else Some (a / b).

(** [a || b] on numbers that may be absent. *)
Definition or (a b : option Q) : option Q :=
  if truthy_opt truthy a then a else b.

End Js.

(** ** The store

    [prisma.user], [prisma.order] and [prisma.symbol].  Rows are keyed as the
    code looks them up: users by [id], symbols by name, orders by the [id]
    the store gives them, here their position in the table. *)

Module Store.

Record User := mkUser { balance : Q }.

Record Order := mkOrder {
  id : nat;
  userId : nat;
  symbolId : nat;
  amount : Q;
  direction : string;
  entryPrice : Q;
  manipulatedEntryPrice : Q;
  duration : Q;
  expiresAt : Q;
  payout : Q;
  exitPrice : option Q;
  manipulatedExitPrice : option Q;
  outcome : option string;
  profitLoss : option Q
}.

Record Symbol := mkSymbol {
  sym_id : nat;
  sym_manipulatedPrice : option Q;
  sym_currentPrice : option Q
}.

(** The [data] of [prisma.order.create] in [/api/orders]. *)
Record OrderData := mkOrderData {
  d_userId : nat;
  d_symbolId : nat;
  d_amount : Q;
  d_direction : string;
  d_entryPrice : Q;
  d_manipulatedEntryPrice : Q;
  d_duration : Q;
  d_expiresAt : Q;
  d_payout : Q
}.

(** The writes that the handlers send to the store. *)
Inductive Mutation :=
| OrderCreate (data : OrderData)
| OrderUpdate (oid : nat) (exit manipulatedExit : Q) (out : string) (pl : Q)
| UserDecrement (uid : nat) (by_ : Q)
| UserIncrement (uid : nat) (by_ : Q)
| UserUpdateNothing (uid : nat)
| SymbolUpdate (name : string) (manipulated : Q) (current : option Q).

(** [journal] lists the committed writes, oldest first.  The code keeps no
    such list; the model keeps it to count writes. *)
Record Db := mkDb {
  users : gmap nat User;
  orders : list Order;
  symbols : gmap string Symbol;
  journal : list Mutation
}.

Inductive Row := ROrder (o : Order) | RUser (u : User) | RSymbol (s : Symbol).

Definition newOrder (oid : nat) (d : OrderData) : Order :=
  {| id := oid; userId := d_userId d; symbolId := d_symbolId d;
     amount := d_amount d; direction := d_direction d;
     entryPrice := d_entryPrice d;
     manipulatedEntryPrice := d_manipulatedEntryPrice d;
     duration := d_duration d; expiresAt := d_expiresAt d;
     payout := d_payout d;
     exitPrice := None; manipulatedExitPrice := None;
     outcome := None; profitLoss := None |}.

Definition settled (o : Order) (exit manipulatedExit : Q) (out : string)
  (pl : Q) : Order :=
  {| id := id o; userId := userId o; symbolId := symbolId o;
     amount := amount o; direction := direction o;
     entryPrice := entryPrice o;
     manipulatedEntryPrice := manipulatedEntryPrice o;
     duration := duration o; expiresAt := expiresAt o; payout := payout o;
     exitPrice := Some exit; manipulatedExitPrice := Some manipulatedExit;
     outcome := Some out; profitLoss := Some pl |}.

Definition withUsers (db : Db) (us : gmap nat User) : Db :=
  {| users := us; orders := orders db; symbols := symbols db;
     journal := journal db |}.

Definition withOrders (db : Db) (os : list Order) : Db :=
  {| users := users db; orders := os; symbols := symbols db;
     journal := journal db |}.

Definition withSymbols (db : Db) (ss : gmap string Symbol) : Db :=
  {| users := users db; orders := orders db; symbols := ss;
     journal := journal db |}.

Definition logged (w : Mutation) (db : Db) : Db :=
  {| users := users db; orders := orders db; symbols := symbols db;
     journal := journal db ++ [w] |}.

(** One write.  [update] of a row that does not exist throws: [None]. *)
Definition write (w : Mutation) (db : Db) : option (Row * Db) :=
  match w with
  | OrderCreate d =>
      let o := newOrder (length (orders db)) d in
      Some (ROrder o, logged w (withOrders db (orders db ++ [o])))
  | OrderUpdate oid exit mexit out pl =>
      o ← orders db !! oid;
      let o' := settled o exit mexit out pl in
      Some (ROrder o', logged w (withOrders db (<[oid := o']> (orders db))))
  | UserDecrement uid by_ =>
      u ← users db !! uid;
      let u' := mkUser (balance u - by_) in
      Some (RUser u', logged w (withUsers db (<[uid := u']> (users db))))
  | UserIncrement uid by_ =>
      u ← users db !! uid;
      let u' := mkUser (balance u + by_) in
      Some (RUser u', logged w (withUsers db (<[uid := u']> (users db))))
  | UserUpdateNothing uid =>
      u ← users db !! uid;
      Some (RUser u, logged w db)
  | SymbolUpdate name manipulated current =>
      s ← symbols db !! name;
      let s' := mkSymbol (sym_id s) (Some manipulated)
                  (match current with Some c => Some c
                                    | None => sym_currentPrice s end) in
      Some (RSymbol s', logged w (withSymbols db (<[name := s']> (symbols db))))
  end.

(** [prisma.$transaction([w1; ...; wn])]: the writes in order; if one throws
    nothing is committed. *)
Fixpoint transaction (ws : list Mutation) (db : Db) : option (list Row * Db) :=
  match ws with
  | [] => Some ([], db)
  | w :: ws' =>
      '(r, db1) ← write w db;
      '(rs, db2) ← transaction ws' db1;
      Some (r :: rs, db2)
  end.

(** Readers of the journal: the writes of an outcome to order [oid], and
    the credits to user [uid]. *)
Definition isOutcomeWrite (oid : nat) (w : Mutation) : bool :=
  match w with OrderUpdate i _ _ _ _ => Nat.eqb i oid | _ => false end.

Definition isCredit (uid : nat) (w : Mutation) : bool :=
  match w with UserIncrement i _ => Nat.eqb i uid | _ => false end.

Definition outcomeWrites (oid : nat) (j : list Mutation) : nat :=
  length (List.filter (isOutcomeWrite oid) j).

Definition credits (uid : nat) (j : list Mutation) : nat :=
  length (List.filter (isCredit uid) j).

(** [prisma.order.groupBy({ by: ["direction"], where: { symbolId, outcome:
    null }, _sum: { amount: true } })]: one group for each direction that
    occurs among the open orders of the symbol, with the sum of their
    amounts. *)
Definition isOpen (sid : nat) (o : Order) : bool :=
  Nat.eqb (symbolId o) sid &&
  match outcome o with None => true | Some _ => false end.

Definition sumAmount (os : list Order) : Q :=
  foldr (λ o acc, amount o + acc) 0 os.

Definition groupByDirection (os : list Order) : list (string * Q) :=
  (λ d, (d, sumAmount (List.filter (λ o, String.eqb (direction o) d) os)))
    <$> remove_dups (direction <$> os).

End Store.

(** ** [src/priceHandler.ts]

    Four revisions.  [PriceHandler] fetches the raw price over HTTP;
    [PriceHandlerRetry] does so with retries and falls back to the stored
    price; [PriceHandlerFeed] and [PriceHandlerJitter] read the cache that the
    Binance feed fills.  [getOrderTotals] is the same in all of them. *)

Module PriceHandler.
Import Store.

Record Totals := mkTotals { upValue : Q; downValue : Q }.

(** [orders.find((o) => o.direction === dir)?._sum.amount || 0] *)
Definition sumOf (dir : string) (groups : list (string * Q)) : Q :=
  match List.find (λ g, String.eqb g.1 dir) groups with
  | Some g => if Js.truthy g.2 then g.2 else 0
  | None => 0
  end.

Definition getOrderTotals (symbolId : nat) (db : Db) : Totals :=
  let orders :=
    groupByDirection (List.filter (isOpen symbolId) (orders db)) in
  {| upValue := sumOf "up" orders; downValue := sumOf "down" orders |}.

(** The manipulation block of [adjustPrice], lines 52-65:
<<
  let manipulatedPrice = binancePrice;
  const totalValue = upValue + downValue;
  if (totalValue > 0) {
    const upRatio = upValue / totalValue;
    const downRatio = downValue / totalValue;
    if (upRatio > 0.6) manipulatedPrice *= 0.998;
    else if (downRatio > 0.6) manipulatedPrice *= 1.002;
  }
>>
    [PriceHandlerRetry] and [PriceHandlerFeed] have the same block. *)
Definition manipulatedPrice (binancePrice upValue downValue : Q) : option Q :=
  let totalValue := upValue + downValue in
  if Js.gt totalValue 0 then
    upRatio ← Js.div upValue totalValue;
    downRatio ← Js.div downValue totalValue;
    if Js.gt upRatio 0.6 then Some (binancePrice * 0.998)
    else if Js.gt downRatio 0.6 then Some (binancePrice * 1.002)
    else Some binancePrice
  else Some binancePrice.

(** [adjustPrice(symbol)]; [fetched] is what [fetchBinancePrice(symbol)]
    resolves to.  The result is [None] when an exception leaves the
    function, which has no [try] of its own. *)
Definition adjustPrice (symbol : string) (fetched : option Q) (db : Db)
  : option (option Q * Db) :=
  match symbols db !! symbol with
  | None => Some (None, db)
  | Some symbolData =>
      match fetched with
      | None => Some (None, db)
      | Some binancePrice =>
          if negb (Js.truthy binancePrice) then Some (None, db)
          else
            let t := getOrderTotals (sym_id symbolData) db in
            p ← manipulatedPrice binancePrice (upValue t) (downValue t);
            '(_, db') ← write (SymbolUpdate symbol p None) db;
            Some (Some p, db')
      end
  end.

End PriceHandler.

Module PriceHandlerRetry.
Import Store.

(** As [PriceHandler.adjustPrice], inside [try { } catch { return null }],
    with the last stored price when the fetch fails. *)
Definition adjustPrice (symbol : string) (fetched : option Q) (db : Db)
  : option Q * Db :=
  match symbols db !! symbol with
  | None => (None, db)
  | Some symbolData =>
      if negb (Js.truthy_opt Js.truthy fetched)
      then (sym_manipulatedPrice symbolData, db)
      else
        default (None, db)
          (binancePrice ← fetched;
           let t := PriceHandler.getOrderTotals (sym_id symbolData) db in
           p ← PriceHandler.manipulatedPrice binancePrice
                 (PriceHandler.upValue t) (PriceHandler.downValue t);
           '(_, db') ← write (SymbolUpdate symbol p (Some binancePrice)) db;
           Some (Some p, db'))
  end.

End PriceHandlerRetry.

(** The Binance feed, the same in [PriceHandlerFeed] and
    [PriceHandlerJitter]. *)

Module Feed.

(** A parsed frame: event type [e], event time [E], symbol [s] and last
    price [c] (after [parseFloat]). *)
Record Message := mkMessage { e : string; E : Z; s : string; c : Q }.

(** [binanceWs.on("message", ...)]; [None] is a frame [JSON.parse] throws
    on, which the handler logs. *)
Definition onMessage (data : option Message) (priceCache : gmap string Q)
  : gmap string Q :=
  match data with
  | None => priceCache
  | Some message =>
      if String.eqb (e message) "24hrTicker"
      then <[s message := c message]> priceCache
      else priceCache
  end.

(** [priceCache.get(symbol) || null] *)
Definition getCurrentPrice (priceCache : gmap string Q) (symbol : string)
  : option Q :=
  Js.or (priceCache !! symbol) None.

End Feed.

Module PriceHandlerFeed.
Import Store.

Definition adjustPrice (priceCache : gmap string Q) (symbol : string)
  (db : Db) : option Q * Db :=
  match symbols db !! symbol with
  | None => (None, db)
  | Some symbolData =>
      match Feed.getCurrentPrice priceCache symbol with
      | None => (sym_manipulatedPrice symbolData, db)
      | Some currentPrice =>
          default (None, db)
            (let t := PriceHandler.getOrderTotals (sym_id symbolData) db in
             p ← PriceHandler.manipulatedPrice currentPrice
                   (PriceHandler.upValue t) (PriceHandler.downValue t);
             '(_, db') ← write (SymbolUpdate symbol p (Some currentPrice)) db;
             Some (Some p, db'))
      end
  end.

End PriceHandlerFeed.

Module PriceHandlerJitter.
Import Store.

(** [Math.random() * 0.0005 + 0.99975], [random] being the number that
    [Math.random()] returns, at least 0 and less than 1. *)
Definition randomFactor (random : Q) : Q := random * 0.0005 + 0.99975.

(** The manipulation block of this revision: the down side is tested first
    and, under the same guard, the price is multiplied by [randomFactor]. *)
Definition manipulatedPrice (random currentPrice upValue downValue : Q)
  : option Q :=
  let totalValue := upValue + downValue in
  if Js.gt totalValue 0 then
    upRatio ← Js.div upValue totalValue;
    downRatio ← Js.div downValue totalValue;
    let biased :=
      if Js.gt downRatio 0.6 then currentPrice * 1.002
      else if Js.gt upRatio 0.6 then currentPrice * 0.998
      else currentPrice in
    Some (biased * randomFactor random)
  else Some currentPrice.

(** [adjustPrice(symbol)]; [random] is the number [Math.random()] returns
    in this call. *)
Definition adjustPrice (random : Q) (priceCache : gmap string Q)
  (symbol : string) (db : Db) : option Q * Db :=
  match Feed.getCurrentPrice priceCache symbol with
  | None => (None, db)
  | Some currentPrice =>
      match symbols db !! symbol with
      | None => (None, db)
      | Some symbolData =>
          default (None, db)
            (let t := PriceHandler.getOrderTotals (sym_id symbolData) db in
             p ← manipulatedPrice random currentPrice
                   (PriceHandler.upValue t) (PriceHandler.downValue t);
             '(_, db') ← write (SymbolUpdate symbol p (Some currentPrice)) db;
             Some (Some p, db'))
      end
  end.

End PriceHandlerJitter.

(** ** [src/server.ts]

    [Server] is the revision that adjusts the price once more at expiry;
    [ServerLive] is the two earlier revisions, which settle at the last
    published price.  The [/api/orders] handler up to the [setTimeout] is
    the same in all three. *)

Module Server.
Import Store.

(** [req.body].  The four fields the handler tests may be absent. *)
Record Body := mkBody {
  b_userId : nat;
  b_symbolId : nat;
  b_symbol : option string;
  b_amount : option Q;
  b_direction : option string;
  b_entryPrice : Q;
  b_duration : option Q
}.

Inductive Response :=
| Status201 (order : Order)
| Status400 (error : string)
| Status500 (error : string).

(** What the [setTimeout] callback closes over. *)
Record Closure := mkClosure {
  c_userId : nat;
  c_symbolId : nat;
  c_symbol : string;
  c_amount : Q;
  c_direction : string;
  c_order : Order
}.

Record Timer := mkTimer { callback : Closure; delay : Q }.

(** The store, the two in-memory maps ([manipulatedPrices] of the server
    and [priceCache] of the price handler) and the armed timers. *)
Record State := mkState {
  db : Db;
  manipulatedPrices : gmap string Q;
  priceCache : gmap string Q;
  timers : list Timer
}.

Definition withDb (st : State) (d : Db) : State :=
  {| db := d; manipulatedPrices := manipulatedPrices st;
     priceCache := priceCache st; timers := timers st |}.

Definition withTimers (st : State) (ts : list Timer) : State :=
  {| db := db st; manipulatedPrices := manipulatedPrices st;
     priceCache := priceCache st; timers := ts |}.

Definition withManipulatedPrices (st : State) (m : gmap string Q) : State :=
  {| db := db st; manipulatedPrices := m;
     priceCache := priceCache st; timers := timers st |}.

Definition withPriceCache (st : State) (m : gmap string Q) : State :=
  {| db := db st; manipulatedPrices := manipulatedPrices st;
     priceCache := m; timers := timers st |}.

(** [!symbol || !amount || !direction || !duration] *)
Definition invalidInput (b : Body) : bool :=
  negb (Js.truthy_opt Js.truthy_str (b_symbol b))
  || negb (Js.truthy_opt Js.truthy (b_amount b))
  || negb (Js.truthy_opt Js.truthy_str (b_direction b))
  || negb (Js.truthy_opt Js.truthy (b_duration b)).

(** [app.post("/api/orders", ...)] at time [now = Date.now()]: the response
    and the state it leaves, the settlement timer armed. *)
Definition postOrder (now : Q) (b : Body) (st : State) : Response * State :=
  if invalidInput b then (Status400 "Invalid input", st)
  else
    match b_symbol b, b_amount b, b_direction b, b_duration b with
    | Some symbol, Some amount, Some direction, Some duration =>
        match users (db st) !! b_userId b with
        | None => (Status400 "Insufficient balance", st)
        | Some dbUser =>
            if Js.lt (balance dbUser) amount
            then (Status400 "Insufficient balance", st)
            else
              let expiresAt := now + duration * 1000 in
              match
                transaction
                  [OrderCreate
                     {| d_userId := b_userId b; d_symbolId := b_symbolId b;
                        d_amount := amount; d_direction := direction;
                        d_entryPrice := b_entryPrice b;
                        d_manipulatedEntryPrice := b_entryPrice b;
                        d_duration := duration; d_expiresAt := expiresAt;
                        d_payout := 0.8 |};
                   UserDecrement (b_userId b) amount]
                  (db st)
              with
              | Some (ROrder order :: _, db') =>
                  (Status201 order,
                   withTimers (withDb st db')
                     (timers st ++
                      [{| callback :=
                            {| c_userId := b_userId b;
                               c_symbolId := b_symbolId b;
                               c_symbol := symbol; c_amount := amount;
                               c_direction := direction; c_order := order |};
                          delay := duration * 1000 |}]))
              | _ => (Status500 "Server Error", st)
              end
        end
    | _, _, _, _ => (Status400 "Invalid input", st)
    end.

(** The order and the state that an accepted request leaves, written out. *)
Definition accepted (now : Q) (b : Body) (st : State) (symbol : string)
  (amount : Q) (direction : string) (duration : Q) (u : User)
  : Order * State :=
  let data :=
    mkOrderData (b_userId b) (b_symbolId b) amount direction
      (b_entryPrice b) (b_entryPrice b) duration (now + duration * 1000)
      0.8 in
  let order := newOrder (length (orders (db st))) data in
  (order,
   {| db :=
        {| users :=
             <[b_userId b := mkUser (balance u - amount)]> (users (db st));
           orders := orders (db st) ++ [order];
           symbols := symbols (db st);
           journal :=
             journal (db st) ++
             [OrderCreate data; UserDecrement (b_userId b) amount] |};
      manipulatedPrices := manipulatedPrices st;
      priceCache := priceCache st;
      timers :=
        timers st ++
        [mkTimer
           (mkClosure (b_userId b) (b_symbolId b) symbol amount direction
              order)
           (duration * 1000)] |}).

(** [isWin] of the callback. *)
Definition isWin (direction : string) (finalPrice entry : Q) : bool :=
  if String.eqb direction "up" then Js.gt finalPrice entry
  else Js.lt finalPrice entry.

(** [profitLoss] of the callback. *)
Definition profitLoss (win : bool) (amount : Q) : Q :=
  if win then amount * 0.8 else - amount.

(** The two writes of the settlement transaction. *)
Definition settlementWrites (k : Closure) (finalPrice : Q) : list Mutation :=
  let win := isWin (c_direction k) finalPrice
               (manipulatedEntryPrice (c_order k)) in
  let pl := profitLoss win (c_amount k) in
  [OrderUpdate (id (c_order k)) finalPrice finalPrice
     (if win then "win" else "loss") pl;
   if win then UserIncrement (c_userId k) (c_amount k + pl)
   else UserUpdateNothing (c_userId k)].

(** From [const isWin] to the end of the [try]; a transaction that throws
    is caught and logged. *)
Definition resolveTrade (k : Closure) (finalPrice : Q) (d : Db) : Db :=
  match transaction (settlementWrites k finalPrice) d with
  | Some (_, d') => d'
  | None => d
  end.

(** The last-second manipulation:
<<
  if (upValue > downValue) finalPrice *= 0.998;
  else if (downValue > upValue) finalPrice *= 1.002;
>> *)
Definition lastSecond (finalPrice upValue downValue : Q) : Q :=
  if Js.gt upValue downValue then finalPrice * 0.998
  else if Js.gt downValue upValue then finalPrice * 1.002
  else finalPrice.

(** [manipulatedPrices.get(symbol) || getCurrentPrice(symbol)] *)
Definition readPrice (st : State) (symbol : string) : option Q :=
  Js.or (manipulatedPrices st !! symbol)
    (Feed.getCurrentPrice (priceCache st) symbol).

(** The price that settles the trade, when there is one. *)
Definition finalPrice (k : Closure) (st : State) : option Q :=
  match readPrice st (c_symbol k) with
  | None => None
  | Some p =>
      if negb (Js.truthy p) then None
      else
        let t := PriceHandler.getOrderTotals (c_symbolId k) (db st) in
        Some (lastSecond p (PriceHandler.upValue t) (PriceHandler.downValue t))
  end.

(** The [setTimeout] callback. *)
Definition settle (k : Closure) (st : State) : State :=
  match finalPrice k st with
  | None => st
  | Some p => withDb st (resolveTrade k p (db st))
  end.

(** What happens in the process: a request, a tick of the publishing
    interval of a symbol, a frame of the feed, the [n]-th armed timer
    expiring. *)
Inductive Event :=
| Post (now : Q) (b : Body)
| Interval (symbol : string)
| Frame (data : option Feed.Message)
| Expire (n : nat).

(** The body of the [setInterval] callback, with the [adjustPrice] of the
    feed revision of the price handler, which exports the three functions
    this server imports. *)
Definition publish (symbol : string) (st : State) : State :=
  let '(p, d) := PriceHandlerFeed.adjustPrice (priceCache st) symbol (db st) in
  let st' := withDb st d in
  match p with
  | Some manipulatedPrice =>
      if Js.truthy manipulatedPrice
      then withManipulatedPrices st'
             (<[symbol := manipulatedPrice]> (manipulatedPrices st'))
      else st'
  | None => st'
  end.

(** One event.  A handler runs to its end before the next event: the
    interleaving of two handlers at an [await] is not modelled here (for
    the handler of a request it is in [Interleaved]).  A timer may expire
    at any moment after it was armed. *)
Definition step (st : State) (ev : Event) : State :=
  match ev with
  | Post now b => (postOrder now b st).2
  | Interval symbol => publish symbol st
  | Frame data => withPriceCache st (Feed.onMessage data (priceCache st))
  | Expire n =>
      match timers st !! n with
      | None => st
      | Some t => settle (callback t) (withTimers st (delete n (timers st)))
      end
  end.

Definition run (evs : list Event) (st : State) : State := foldl step st evs.

(** The armed timers that settle order [oid]. *)
Definition settles (oid : nat) (t : Timer) : bool :=
  Nat.eqb (id (c_order (callback t))) oid.

Definition armedFor (oid : nat) (ts : list Timer) : nat :=
  length (List.filter (settles oid) ts).

(** An order id is new in [st] when the store of [d0] did not have it. *)
Definition newIn (d0 : Db) (st : State) (oid : nat) : nat :=
  if bool_decide (length (orders d0) ≤ oid ∧ oid < length (orders (db st)))%nat
  then 1%nat else 0%nat.

(** The invariant of a run that started on the store [d0]: an order has at
    most one of an armed timer and an outcome written in this run, and only
    if it was created in this run. *)
Definition onceInv (d0 : Db) (st : State) : Prop :=
  (length (orders d0) ≤ length (orders (db st)))%nat ∧
  ∀ oid,
    (armedFor oid (timers st) + outcomeWrites oid (journal (db st))
     ≤ outcomeWrites oid (journal d0) + newIn d0 st oid)%nat.

(** A process that has just started. *)
Definition start (d : Db) : State :=
  {| db := d; manipulatedPrices := ∅; priceCache := ∅; timers := [] |}.

End Server.

Module ServerLive.
Import Store.

(** The callback of the earlier revisions: the last published price, as it
    is. *)
Definition settle (k : Server.Closure) (st : Server.State) : Server.State :=
  match Server.manipulatedPrices st !! Server.c_symbol k with
  | None => st
  | Some realTimePrice =>
      if negb (Js.truthy realTimePrice) then st
      else Server.withDb st
             (Server.resolveTrade k realTimePrice (Server.db st))
  end.

End ServerLive.

(** ** The manipulation block on binary64 numbers *)

Module Binary64.
Local Open Scope float_scope.

(** The block of [PriceHandler.manipulatedPrice], every operation the
    IEEE 754 one that JavaScript performs. *)
Definition manipulatedPrice (binancePrice upValue downValue : float)
  : float :=
  let totalValue := upValue + downValue in
  if 0 <? totalValue then
    let upRatio := upValue / totalValue in
    let downRatio := downValue / totalValue in
    if 0.6 <? upRatio then binancePrice * 0.998
    else if 0.6 <? downRatio then binancePrice * 1.002
    else binancePrice
  else binancePrice.

(** The last-second manipulation of [Server.lastSecond], likewise. *)
Definition lastSecond (finalPrice upValue downValue : float) : float :=
  if downValue <? upValue then finalPrice * 0.998
  else if upValue <? downValue then finalPrice * 1.002
  else finalPrice.

(** A binary64 number, as the standard's datum, that is neither [NaN] nor
    below zero: a zero of either sign, a positive number or [+Infinity]. *)
Definition notBelowZero (x : spec_float) : Prop :=
  match x with
  | S754_nan => False
  | S754_zero _ => True
  | S754_infinity s | S754_finite s _ _ => s = false
  end.

End Binary64.

(** ** The algorithm of the specification

    [PriceManipulator.publish] as section 4.4 of the specification words
    it, to compare the code with. *)

Module Spec.

Definition publish (rawPrice upAmount downAmount : Q) : Q :=
  if Qeq_bool (upAmount + downAmount) 0 then rawPrice
  else
    let upRatio := upAmount / (upAmount + downAmount) in
    let downRatio := 1 - upRatio in
    if Js.gt upRatio 0.6 then rawPrice * 0.998
    else if Js.gt downRatio 0.6 then rawPrice * 1.002
    else rawPrice.

End Spec.

(** ** What a run of [adjustPrice] may write *)

Module Footprint.
Import Store.


End Footprint.

(** ** Sample data *)

Module Sample.
Import Store.

Definition btc : Symbol :=
  {| sym_id := 1; sym_manipulatedPrice := None; sym_currentPrice := None |}.

(** An open order of user 1 on symbol 1, entered at 100. *)
Definition openOrder (oid : nat) (direction : string) (amount : Q) : Order :=
  newOrder oid
    {| d_userId := 1; d_symbolId := 1; d_amount := amount;
       d_direction := direction; d_entryPrice := 100;
       d_manipulatedEntryPrice := 100; d_duration := 60;
       d_expiresAt := 60000; d_payout := 0.8 |}.

(** One user with a balance of 1000, one symbol, no order. *)
Definition emptyDb : Db :=
  {| users := {[ 1%nat := mkUser 1000 ]}; orders := [];
     symbols := {[ "BTCUSDT"%string := btc ]}; journal := [] |}.

(** The same with 55 staked up and 45 staked down. *)
Definition splitDb : Db :=
  withOrders emptyDb [openOrder 0 "up" 55; openOrder 1 "down" 45].

(** The same with 70 staked up and 30 staked down. *)
Definition upDb : Db :=
  withOrders emptyDb [openOrder 0 "up" 70; openOrder 1 "down" 30].

Definition body (amount : Q) (direction : string) : Server.Body :=
  {| Server.b_userId := 1; Server.b_symbolId := 1;
     Server.b_symbol := Some "BTCUSDT"%string;
     Server.b_amount := Some amount;
     Server.b_direction := Some direction;
     Server.b_entryPrice := 100; Server.b_duration := Some 60 |}.

(** The closure that [/api/orders] arms for an order of user 1 on
    BTCUSDT. *)
Definition closure (o : Order) : Server.Closure :=
  {| Server.c_userId := 1; Server.c_symbolId := 1;
     Server.c_symbol := "BTCUSDT"; Server.c_amount := amount o;
     Server.c_direction := direction o; Server.c_order := o |}.

(** A process on the store [d] with a raw price of [price] in the cache and
    nothing published yet. *)
Definition state (d : Db) (price : Q) : Server.State :=
  {| Server.db := d; Server.manipulatedPrices := ∅;
     Server.priceCache := {[ "BTCUSDT"%string := price ]};
     Server.timers := [] |}.

Definition ticker (time : Z) (price : Q) : Feed.Message :=
  {| Feed.e := "24hrTicker"; Feed.E := time; Feed.s := "BTCUSDT";
     Feed.c := price |}.

End Sample.

(** ** [fetchBinancePrice] with retries

    The revision of the price handler that fetches over HTTP with a
    timeout.  [axios n] is what the request of attempt [n] gives: the price
    after [parseFloat], or [None] when [axios.get] throws.  The result is
    the price, or [None] for [null], with the milliseconds spent in
    [delay]. *)

Module Fetch.

Definition MAX_RETRIES : nat := 3.
Definition RETRY_DELAY : N := 1000.

(** The recursion of [fetchBinancePrice], on the retries that are left:
    [retryCount < MAX_RETRIES] is [left = S _]. *)
Fixpoint attempt (left : nat) (axios : nat → option Q) (retryCount : nat)
  : option Q * N :=
  match axios retryCount with
  | Some price => (Some price, 0%N)
  | None =>
      match left with
      | O => (None, 0%N)
      | S left' =>
          let '(price, waited) := attempt left' axios (S retryCount) in
          (price, (RETRY_DELAY + waited)%N)
      end
  end.

Definition fetchBinancePrice (axios : nat → option Q) (retryCount : nat)
  : option Q * N :=
  attempt (MAX_RETRIES - retryCount) axios retryCount.

End Fetch.

(** ** The connection to the Binance feed

    The revision of the price handler with reconnection: the module state
    ([reconnectAttempts], [activeSymbols], whether the socket is open,
    whether the ping interval runs) and the handlers of the socket.
    [sent] and [scheduled] list the frames sent and the reconnection delays
    passed to [setTimeout], oldest first; the code keeps neither list. *)

Module FeedConnection.

Definition RECONNECT_DELAY : N := 5000.
Definition MAX_RECONNECT_ATTEMPTS : nat := 5.
Definition PING_INTERVAL : N := 30000.

(** [s.toLowerCase()] and [s.toUpperCase()] on the letters of ASCII; other
    bytes are left as they are. *)
Definition lowerAscii (a : Ascii.ascii) : Ascii.ascii :=
  let n := Ascii.nat_of_ascii a in
  if Nat.leb 65 n && Nat.leb n 90 then Ascii.ascii_of_nat (n + 32) else a.

Definition upperAscii (a : Ascii.ascii) : Ascii.ascii :=
  let n := Ascii.nat_of_ascii a in
  if Nat.leb 97 n && Nat.leb n 122 then Ascii.ascii_of_nat (n - 32) else a.

Fixpoint mapString (f : Ascii.ascii → Ascii.ascii) (s : string) : string :=
  match s with
  | EmptyString => EmptyString
  | String a s' => String (f a) (mapString f s')
  end.

Definition toLowerCase : string → string := mapString lowerAscii.
Definition toUpperCase : string → string := mapString upperAscii.

(** [{ method: "SUBSCRIBE", params, id }] *)
Record Subscribe := mkSubscribe { params : list string; sub_id : N }.

(** [`${symbol.toLowerCase()}@ticker`] *)
Definition stream (symbol : string) : string :=
  (toLowerCase symbol ++ "@ticker")%string.

Record Conn := mkConn {
  isOpen : bool;
  reconnectAttempts : nat;
  activeSymbols : list string;
  pinging : bool;
  priceCache : gmap string Q;
  sent : list Subscribe;
  scheduled : list N
}.

(** [initBinanceWebSocket()]: the old socket is terminated and a new one
    is created, not open yet. *)
Definition initBinanceWebSocket (c : Conn) : Conn :=
  {| isOpen := false; reconnectAttempts := reconnectAttempts c;
     activeSymbols := activeSymbols c; pinging := pinging c;
     priceCache := priceCache c; sent := sent c;
     scheduled := scheduled c |}.

(** [binanceWs.on("open", ...)] at time [now]. *)
Definition onOpen (now : N) (c : Conn) : Conn :=
  {| isOpen := true; reconnectAttempts := 0;
     activeSymbols := activeSymbols c; pinging := true;
     priceCache := priceCache c;
     sent :=
       (if Nat.ltb 0 (length (activeSymbols c))
        then sent c ++ [mkSubscribe (stream <$> activeSymbols c) now]
        else sent c);
     scheduled := scheduled c |}.

(** [handleReconnect()] *)
Definition handleReconnect (c : Conn) : Conn :=
  if Nat.leb MAX_RECONNECT_ATTEMPTS (reconnectAttempts c) then c
  else
    let delay := (RECONNECT_DELAY * 2 ^ N.of_nat (reconnectAttempts c))%N in
    {| isOpen := isOpen c; reconnectAttempts := S (reconnectAttempts c);
       activeSymbols := activeSymbols c; pinging := pinging c;
       priceCache := priceCache c; sent := sent c;
       scheduled := scheduled c ++ [delay] |}.

(** [binanceWs.on("close", ...)]: the ping interval is cleared, then
    [handleReconnect()]. *)
Definition onClose (c : Conn) : Conn :=
  handleReconnect
    {| isOpen := false; reconnectAttempts := reconnectAttempts c;
       activeSymbols := activeSymbols c; pinging := false;
       priceCache := priceCache c; sent := sent c;
       scheduled := scheduled c |}.

(** [binanceWs.on("error", ...)]: the socket is terminated; the handler
    schedules nothing itself. *)
Definition onError (c : Conn) : Conn :=
  {| isOpen := false; reconnectAttempts := reconnectAttempts c;
     activeSymbols := activeSymbols c; pinging := pinging c;
     priceCache := priceCache c; sent := sent c;
     scheduled := scheduled c |}.

(** [subscribeToSymbol(symbol)] at time [now]. *)
Definition subscribeToSymbol (symbol : string) (now : N) (c : Conn)
  : Conn :=
  if bool_decide (symbol ∈ activeSymbols c) then c
  else
    {| isOpen := isOpen c; reconnectAttempts := reconnectAttempts c;
       activeSymbols := activeSymbols c ++ [symbol]; pinging := pinging c;
       priceCache := priceCache c;
       sent :=
         (if isOpen c then sent c ++ [mkSubscribe [stream symbol] now]
          else sent c);
       scheduled := scheduled c |}.

(** [binanceWs.on("message", ...)] *)
Definition onMessage (data : option Feed.Message) (c : Conn) : Conn :=
  {| isOpen := isOpen c; reconnectAttempts := reconnectAttempts c;
     activeSymbols := activeSymbols c; pinging := pinging c;
     priceCache := Feed.onMessage data (priceCache c); sent := sent c;
     scheduled := scheduled c |}.

(** What reaches the module: the events of the socket, a reconnection
    timer that fires, a call of [subscribeToSymbol]. *)
Inductive Event :=
| Opened (now : N)
| Closed
| Errored
| Message (data : option Feed.Message)
| Reconnect
| SubscribeTo (symbol : string) (now : N).

Definition step (c : Conn) (ev : Event) : Conn :=
  match ev with
  | Opened now => onOpen now c
  | Closed => onClose c
  | Errored => onError c
  | Message data => onMessage data c
  | Reconnect => initBinanceWebSocket c
  | SubscribeTo symbol now => subscribeToSymbol symbol now c
  end.

Definition run (evs : list Event) (c : Conn) : Conn := foldl step c evs.

(** The module as it is loaded, [initBinanceWebSocket()] called once. *)
Definition loaded : Conn :=
  {| isOpen := false; reconnectAttempts := 0; activeSymbols := [];
     pinging := false; priceCache := ∅; sent := []; scheduled := [] |}.

Definition isOpened (ev : Event) : bool :=
  match ev with Opened _ => true | _ => false end.

Definition isClosed (ev : Event) : bool :=
  match ev with Closed => true | _ => false end.

End FeedConnection.

(** ** The WebSocket server of [src/server.ts]

    [wss.on("connection", ...)] with the interval it starts and the close
    handler it registers.  A socket is a number, and connects once.
    [clients] is the [Map<string, Set<WebSocket>>], a set being the list of
    its members in the order they were added.  [intervals] lists the
    intervals that run, each with the id [setInterval] returned and the
    symbol its callback closes over; [listeners] gives, for a socket with a
    close handler, the symbol and the interval id the handler closes over.
    [outbox] lists what was sent to the sockets, oldest first. *)

Module Hub.
Import Store.

(** [JSON.stringify({ symbol, price })], sent to socket [to]. *)
Record Update := mkUpdate { to : nat; u_symbol : string; u_price : Q }.

Record State := mkState {
  server : Server.State;
  clients : gmap string (list nat);
  listeners : gmap nat (string * nat);
  intervals : list (nat * string);
  nextInterval : nat;
  opened : list nat;
  closedByServer : list nat;
  outbox : list Update
}.

(** [set.add(ws)] and [set.delete(ws)] *)
Definition setAdd (ws : nat) (set : list nat) : list nat :=
  if bool_decide (ws ∈ set) then set else set ++ [ws].

Definition setDelete (ws : nat) (set : list nat) : list nat :=
  List.filter (λ x, negb (Nat.eqb x ws)) set.

(** [clearInterval(intervalId)] *)
Definition clearInterval (iid : nat) (running : list (nat * string))
  : list (nat * string) :=
  List.filter (λ i, negb (Nat.eqb i.1 iid)) running.

(** The connection handler; [param] is [params.get("symbol")]. *)
Definition onConnection (ws : nat) (param : option string) (h : State)
  : State :=
  let symbol := FeedConnection.toUpperCase <$> param in
  match symbol with
  | Some symbol =>
      if Js.truthy_str symbol then
        {| server := server h;
           clients :=
             <[symbol := setAdd ws (default [] (clients h !! symbol))]>
               (clients h);
           listeners := <[ws := (symbol, nextInterval h)]> (listeners h);
           intervals := intervals h ++ [(nextInterval h, symbol)];
           nextInterval := S (nextInterval h);
           opened := opened h ++ [ws];
           closedByServer := closedByServer h;
           outbox := outbox h |}
      else
        {| server := server h; clients := clients h;
           listeners := listeners h; intervals := intervals h;
           nextInterval := nextInterval h; opened := opened h;
           closedByServer := closedByServer h ++ [ws];
           outbox := outbox h |}
  | None =>
      {| server := server h; clients := clients h;
         listeners := listeners h; intervals := intervals h;
         nextInterval := nextInterval h; opened := opened h;
         closedByServer := closedByServer h ++ [ws];
         outbox := outbox h |}
  end.

(** [ws.on("close", ...)], for a socket that has the handler. *)
Definition onSocketClose (ws : nat) (h : State) : State :=
  match listeners h !! ws with
  | None => h
  | Some (symbol, intervalId) =>
      let clients' :=
        match clients h !! symbol with
        | Some set => <[symbol := setDelete ws set]> (clients h)
        | None => clients h
        end in
      {| server := server h;
         clients := clients';
         listeners := delete ws (listeners h);
         intervals :=
           (match clients' !! symbol with
            | Some set =>
                if Nat.eqb (length set) 0
                then clearInterval intervalId (intervals h)
                else intervals h
            | None => intervals h
            end);
         nextInterval := nextInterval h;
         opened := setDelete ws (opened h);
         closedByServer := closedByServer h;
         outbox := outbox h |}
  end.

(** The callback of the interval of [symbol]: the price is adjusted and
    published, and sent to the clients of the symbol that are open. *)
Definition onInterval (symbol : string) (h : State) : State :=
  let '(p, _) :=
    PriceHandlerFeed.adjustPrice (Server.priceCache (server h)) symbol
      (Server.db (server h)) in
  {| server := Server.publish symbol (server h);
     clients := clients h; listeners := listeners h;
     intervals := intervals h; nextInterval := nextInterval h;
     opened := opened h; closedByServer := closedByServer h;
     outbox :=
       (match p with
        | Some manipulatedPrice =>
            if Js.truthy manipulatedPrice
            then outbox h ++
                 ((λ client, mkUpdate client symbol manipulatedPrice) <$>
                  List.filter (λ client, bool_decide (client ∈ opened h))
                    (default [] (clients h !! symbol)))
            else outbox h
        | None => outbox h
        end) |}.

Inductive Event :=
| Connect (ws : nat) (param : option string)
| Disconnect (ws : nat)
| Tick (intervalId : nat).

Definition step (h : State) (ev : Event) : State :=
  match ev with
  | Connect ws param => onConnection ws param h
  | Disconnect ws => onSocketClose ws h
  | Tick intervalId =>
      match List.find (λ i, Nat.eqb i.1 intervalId) (intervals h) with
      | Some (_, symbol) => onInterval symbol h
      | None => h
      end
  end.

Definition run (evs : list Event) (h : State) : State := foldl step h evs.

(** The server as it starts listening. *)
Definition listening (st : Server.State) : State :=
  {| server := st; clients := ∅; listeners := ∅; intervals := [];
     nextInterval := 0; opened := []; closedByServer := []; outbox := [] |}.

End Hub.

(** ** Exposure, as a sum

    The stake that is open on one side of a symbol, written as one sum, to
    state what [getOrderTotals] returns. *)

Module Exposure.
Import Store.

Definition onSide (sid : nat) (side : string) (o : Order) : bool :=
  isOpen sid o && String.eqb (direction o) side.

Definition staked (sid : nat) (side : string) (os : list Order) : Q :=
  sumAmount (List.filter (onSide sid side) os).

End Exposure.

(** ** What a run keeps

    Predicates on the states of a run, to state what no event changes. *)

Module Invariants.
Import Store Server.

(** Two rows with the same terms: they differ at most in the four fields
    that settlement writes. *)
Definition sameTerms (o o' : Order) : Prop :=
  id o' = id o ∧ userId o' = userId o ∧ symbolId o' = symbolId o ∧
  amount o' = amount o ∧ direction o' = direction o ∧
  entryPrice o' = entryPrice o ∧
  manipulatedEntryPrice o' = manipulatedEntryPrice o ∧
  duration o' = duration o ∧ expiresAt o' = expiresAt o ∧
  payout o' = payout o.

(** Every order of [st] is still there in [st'], with the same terms, and
    with an outcome if it had one. *)
Definition keepsOrders (st st' : State) : Prop :=
  ∀ i o, orders (db st) !! i = Some o →
         ∃ o', orders (db st') !! i = Some o' ∧ sameTerms o o' ∧
               (is_Some (outcome o) → is_Some (outcome o')).

(** The users of [st] and of [st'] are the same ones. *)
Definition sameUsers (st st' : State) : Prop :=
  ∀ uid, is_Some (users (db st') !! uid) ↔ is_Some (users (db st) !! uid).

(** A timer whose closure agrees with the store: the order it settles is
    stored under its id with the terms, the amount, the direction and the
    user of the closure and a payout of 0.8, and the user exists. *)
Definition armedWell (st : State) (t : Timer) : Prop :=
  ∃ o, orders (db st) !! id (c_order (callback t)) = Some o ∧
       sameTerms (c_order (callback t)) o ∧
       c_amount (callback t) = amount o ∧
       c_direction (callback t) = direction o ∧
       c_userId (callback t) = userId o ∧
       c_symbolId (callback t) = symbolId o ∧
       payout o = 0.8 ∧
       is_Some (users (db st) !! c_userId (callback t)).

Definition consistent (st : State) : Prop := Forall (armedWell st) (timers st).

(** The order that a timer settles. *)
Definition settledBy (t : Timer) : nat := id (c_order (callback t)).

(** No two armed timers settle the same order, and an order with an armed
    timer is stored and has no outcome yet. *)
Definition armedOnce (st : State) : Prop :=
  NoDup (settledBy <$> timers st) ∧
  ∀ t, t ∈ timers st →
       (settledBy t < length (orders (db st)))%nat ∧
       ∀ o, orders (db st) !! settledBy t = Some o → outcome o = None.

(** No balance and no armed stake is negative. *)
Definition solvent (st : State) : Prop :=
  (∀ uid u, users (db st) !! uid = Some u → 0 <= balance u) ∧
  Forall (λ t, 0 <= c_amount (callback t)) (timers st).

(** The request, if the event is one, does not stake a negative amount. *)
Definition stakesNonNegative (ev : Event) : Prop :=
  match ev with
  | Post _ b => match b_amount b with Some a => 0 <= a | None => True end
  | _ => True
  end.

End Invariants.

(** ** [/api/orders] at its [await]s

    The handler of a request suspends at [await prisma.user.findUnique] and
    at [await prisma.$transaction].  The user is read at the first; the two
    tests that follow run on the row that was read; the transaction is
    applied at the second, to the store as it is then.  Between the two
    any other handler may run. *)

Module Interleaved.
Import Store Server.

(** A handler suspended at the [await] of its transaction: its request
    has passed the tests.  [s_now] is the [Date.now()] of that handler. *)
Record Suspended := mkSuspended { s_now : Q; s_body : Body }.

Record State := mkState {
  server : Server.State;
  suspended : list Suspended
}.

(** From the start of the handler to its second [await]: the answer when
    the request is turned down, else the handler is suspended. *)
Definition findUser (now : Q) (b : Body) (h : State)
  : option Response * State :=
  if invalidInput b then (Some (Status400 "Invalid input"), h)
  else
    match b_amount b with
    | Some amount =>
        match users (db (server h)) !! b_userId b with
        | None => (Some (Status400 "Insufficient balance"), h)
        | Some dbUser =>
            if Js.lt (balance dbUser) amount
            then (Some (Status400 "Insufficient balance"), h)
            else (None,
                  {| server := server h;
                     suspended := suspended h ++ [mkSuspended now b] |})
        end
    | None => (Some (Status400 "Invalid input"), h)
    end.

(** From the transaction to the end of the handler, on the store as it is
    when the transaction is applied: the order is created, the balance is
    decremented, the timer is armed.  The balance is not read again. *)
Definition transact (s : Suspended) (st : Server.State)
  : Response * Server.State :=
  let b := s_body s in
  match b_symbol b, b_amount b, b_direction b, b_duration b with
  | Some symbol, Some amount, Some direction, Some duration =>
      let expiresAt := s_now s + duration * 1000 in
      match
        transaction
          [OrderCreate
             {| d_userId := b_userId b; d_symbolId := b_symbolId b;
                d_amount := amount; d_direction := direction;
                d_entryPrice := b_entryPrice b;
                d_manipulatedEntryPrice := b_entryPrice b;
                d_duration := duration; d_expiresAt := expiresAt;
                d_payout := 0.8 |};
           UserDecrement (b_userId b) amount]
          (db st)
      with
      | Some (ROrder order :: _, db') =>
          (Status201 order,
           withTimers (withDb st db')
             (timers st ++
              [{| callback :=
                    {| c_userId := b_userId b;
                       c_symbolId := b_symbolId b;
                       c_symbol := symbol; c_amount := amount;
                       c_direction := direction; c_order := order |};
                  delay := duration * 1000 |}]))
      | _ => (Status500 "Server Error", st)
      end
  | _, _, _, _ => (Status400 "Invalid input", st)
  end.

(** A request arrives and its handler runs to its second [await]; the
    [n]-th suspended handler resumes with its transaction; or another
    handler runs, as one step of [Server.step]. *)
Inductive Event :=
| Arrive (now : Q) (b : Body)
| Resume (n : nat)
| Other (ev : Server.Event).

Definition step (h : State) (ev : Event) : State :=
  match ev with
  | Arrive now b => (findUser now b h).2
  | Resume n =>
      match suspended h !! n with
      | None => h
      | Some s =>
          {| server := (transact s (server h)).2;
             suspended := delete n (suspended h) |}
      end
  | Other ev =>
      {| server := Server.step (server h) ev; suspended := suspended h |}
  end.

Definition run (evs : list Event) (h : State) : State := foldl step h evs.

(** No handler is suspended. *)
Definition idle (st : Server.State) : State :=
  {| server := st; suspended := [] |}.

(** The schedule that runs the handler of each request to its end before
    anything else happens. *)
Definition serial (evs : list Server.Event) : list Event :=
  evs ≫= λ ev,
    match ev with
    | Post now b => [Arrive now b; Resume 0]
    | _ => [Other ev]
    end.

End Interleaved.

(** * Properties *)

(** ** Comparisons, truthiness and division *)

Module JsFacts.

Lemma gt_spec a b : Js.gt a b = true ↔ b < a.
Proof.
  unfold Js.gt. rewrite negb_true_iff, <- not_true_iff_false, Qle_bool_iff.
  split; [apply Qnot_le_lt | apply Qlt_not_le].
Qed.

Lemma gt_false a b : Js.gt a b = false ↔ a <= b.
Proof. unfold Js.gt. rewrite negb_false_iff. apply Qle_bool_iff. Qed.

Lemma lt_spec a b : Js.lt a b = true ↔ a < b.
Proof. apply gt_spec. Qed.

Lemma lt_false a b : Js.lt a b = false ↔ b <= a.
Proof. apply gt_false. Qed.

Lemma truthy_spec x : Js.truthy x = true ↔ ¬ x == 0.
Proof.
  unfold Js.truthy.
  rewrite negb_true_iff, <- not_true_iff_false, Qeq_bool_iff. tauto.
Qed.

Lemma truthy_false x : Js.truthy x = false ↔ x == 0.
Proof. unfold Js.truthy. rewrite negb_false_iff. apply Qeq_bool_iff. Qed.

Lemma div_nonzero a b : ¬ b == 0 → Js.div a b = Some (a / b).
Proof.
  intros Hb. unfold Js.div. destruct (Qeq_bool b 0) eqn:Eb; [|done].
  apply Qeq_bool_iff in Eb. contradiction.
Qed.

Lemma div_positive a b : 0 < b → Js.div a b = Some (a / b).
Proof. intros Hb. apply div_nonzero. lra. Qed.

Lemma or_Some_truthy a b p : Js.or a b = Some p → b = None ∨
  (∃ q, b = Some q ∧ Js.truthy q = true) → Js.truthy p = true.
Proof.
  unfold Js.or. destruct a as [x|]; simpl.
  - destruct (Js.truthy x) eqn:Ex; intros H Hb.
    + by simplify_eq.
    + destruct Hb as [->|(q & -> & Hq)]; by simplify_eq.
  - intros H [->|(q & -> & Hq)]; by simplify_eq.
Qed.

End JsFacts.

(** ** The manipulation block *)

Module PriceHandlerFacts.
Import PriceHandler.

(** Under the guard the block is decided by the two ratios. *)
Lemma manipulatedPrice_guarded raw up down :
  0 < up + down →
  manipulatedPrice raw up down =
    Some (if Js.gt (up / (up + down)) 0.6 then raw * 0.998
          else if Js.gt (down / (up + down)) 0.6 then raw * 1.002
          else raw).
Proof.
  intros Ht. unfold manipulatedPrice.
  apply JsFacts.gt_spec in Ht as Hg. rewrite Hg.
  rewrite !JsFacts.div_positive by done. simpl.
  by repeat case_match.
Qed.

Lemma manipulatedPrice_unguarded raw up down :
  up + down <= 0 → manipulatedPrice raw up down = Some raw.
Proof.
  intros Ht. unfold manipulatedPrice.
  apply JsFacts.gt_false in Ht. by rewrite Ht.
Qed.

Lemma jitter_guarded rnd raw up down :
  0 < up + down →
  PriceHandlerJitter.manipulatedPrice rnd raw up down =
    Some ((if Js.gt (down / (up + down)) 0.6 then raw * 1.002
           else if Js.gt (up / (up + down)) 0.6 then raw * 0.998
           else raw) * PriceHandlerJitter.randomFactor rnd).
Proof.
  intros Ht. unfold PriceHandlerJitter.manipulatedPrice.
  apply JsFacts.gt_spec in Ht as Hg. rewrite Hg.
  by rewrite !JsFacts.div_positive.
Qed.

Lemma jitter_unguarded rnd raw up down :
  up + down <= 0 →
  PriceHandlerJitter.manipulatedPrice rnd raw up down = Some raw.
Proof.
  intros Ht. unfold PriceHandlerJitter.manipulatedPrice.
  apply JsFacts.gt_false in Ht. by rewrite Ht.
Qed.





Lemma manipulatedPrice_total raw up down :
  ∃ p, manipulatedPrice raw up down = Some p.
Proof.
  destruct (Qlt_le_dec 0 (up + down)).
  - rewrite manipulatedPrice_guarded by done. by eexists.
  - rewrite manipulatedPrice_unguarded by done. by eexists.
Qed.

Lemma jitter_total rnd raw up down :
  ∃ p, PriceHandlerJitter.manipulatedPrice rnd raw up down = Some p.
Proof.
  destruct (Qlt_le_dec 0 (up + down)).
  - rewrite jitter_guarded by done. by eexists.
  - rewrite jitter_unguarded by done. by eexists.
Qed.

(** [adjustPrice] of [src/priceHandler.ts] never leaves by an exception. *)
Lemma adjustPrice_returns symbol fetched (d : Store.Db) :
  is_Some (adjustPrice symbol fetched d).
Proof.
  unfold adjustPrice.
  destruct (Store.symbols d !! symbol) as [sd|] eqn:Es; [|done].
  destruct fetched as [bp|]; [|done].
  destruct (negb (Js.truthy bp)); [done|].
  destruct (manipulatedPrice_total bp
              (upValue (getOrderTotals (Store.sym_id sd) d))
              (downValue (getOrderTotals (Store.sym_id sd) d))) as [p ->].
  simpl. by rewrite Es.
Qed.

(** In the revisions that wrap [adjustPrice] in a [try], a known symbol
    with a price at hand gets the price of the block: the [catch] is not
    reached through the division. *)
Lemma adjustPrice_retry_priced symbol bp (d : Store.Db) sd :
  Store.symbols d !! symbol = Some sd → Js.truthy bp = true →
  ∃ p, (PriceHandlerRetry.adjustPrice symbol (Some bp) d).1 = Some p.
Proof.
  intros Es Hb. unfold PriceHandlerRetry.adjustPrice. rewrite Es.
  set (t := getOrderTotals (Store.sym_id sd) d).
  cbn [Js.truthy_opt]. rewrite Hb. cbn [negb mbind option_bind].
  destruct (manipulatedPrice_total bp (upValue t) (downValue t)) as [p ->].
  simpl. rewrite Es. simpl. by exists p.
Qed.

Lemma adjustPrice_feed_priced (priceCache : gmap string Q) symbol cp
  (d : Store.Db) sd :
  Store.symbols d !! symbol = Some sd →
  Feed.getCurrentPrice priceCache symbol = Some cp →
  ∃ p, (PriceHandlerFeed.adjustPrice priceCache symbol d).1 = Some p.
Proof.
  intros Es Hc. unfold PriceHandlerFeed.adjustPrice. rewrite Es, Hc.
  set (t := getOrderTotals (Store.sym_id sd) d).
  destruct (manipulatedPrice_total cp (upValue t) (downValue t)) as [p ->].
  simpl. rewrite Es. simpl. by exists p.
Qed.

Lemma adjustPrice_jitter_priced rnd (priceCache : gmap string Q) symbol cp
  (d : Store.Db) sd :
  Store.symbols d !! symbol = Some sd →
  Feed.getCurrentPrice priceCache symbol = Some cp →
  ∃ p, (PriceHandlerJitter.adjustPrice rnd priceCache symbol d).1 = Some p.
Proof.
  intros Es Hc. unfold PriceHandlerJitter.adjustPrice. rewrite Hc, Es.
  set (t := getOrderTotals (Store.sym_id sd) d).
  destruct (jitter_total rnd cp (upValue t) (downValue t)) as [p ->].
  simpl. rewrite Es. simpl. by exists p.
Qed.

(** C10.  In every revision the two ratios are computed only when
    [totalValue > 0] holds, where both divisions have a value; when it does
    not hold the price is returned as it is without a division.  So the
    block has a result for all exposure totals, the non-negative ones among
    them: [adjustPrice] without a [try] never leaves by an exception, and
    in the revisions with a [try] the [catch] is not reached through the
    division. *)
Theorem ratios_guarded (price upValue downValue random : Q) :
  (Js.gt (upValue + downValue) 0 = true →
     Js.div upValue (upValue + downValue) =
       Some (upValue / (upValue + downValue)) ∧
     Js.div downValue (upValue + downValue) =
       Some (downValue / (upValue + downValue))) ∧
  (Js.gt (upValue + downValue) 0 = false →
     manipulatedPrice price upValue downValue = Some price ∧
     PriceHandlerJitter.manipulatedPrice random price upValue downValue =
       Some price) ∧
  is_Some (manipulatedPrice price upValue downValue) ∧
  is_Some (PriceHandlerJitter.manipulatedPrice random price upValue
             downValue) ∧
  (∀ symbol fetched d, is_Some (adjustPrice symbol fetched d)) ∧
  (∀ symbol (d : Store.Db) sd (priceCache : gmap string Q),
     Store.symbols d !! symbol = Some sd →
     (Js.truthy price = true →
      is_Some (PriceHandlerRetry.adjustPrice symbol (Some price) d).1) ∧
     (Feed.getCurrentPrice priceCache symbol = Some price →
      is_Some (PriceHandlerFeed.adjustPrice priceCache symbol d).1 ∧
      is_Some
        (PriceHandlerJitter.adjustPrice random priceCache symbol d).1)).
Proof.
  split; [|split; [|split; [|split; [|split]]]].
  - intros Hg. apply JsFacts.gt_spec in Hg.
    by rewrite !JsFacts.div_positive.
  - intros Hg. apply JsFacts.gt_false in Hg.
    by rewrite manipulatedPrice_unguarded, jitter_unguarded.
  - destruct (manipulatedPrice_total price upValue downValue) as [p ->].
    by eexists.
  - destruct (jitter_total random price upValue downValue) as [p ->].
    by eexists.
  - apply adjustPrice_returns.
  - intros symbol d sd priceCache Es. split.
    + intros Hb.
      destruct (adjustPrice_retry_priced symbol price d sd Es Hb) as [p ->].
      by eexists.
    + intros Hc. split.
      * destruct (adjustPrice_feed_priced priceCache symbol price d sd Es Hc)
          as [p ->].
        by eexists.
      * destruct (adjustPrice_jitter_priced random priceCache symbol price d
                    sd Es Hc) as [p ->].
        by eexists.
Qed.

Lemma ratios_guarded_witness :
  Js.gt (70 + 30) 0 = true ∧
  Js.div 70 (70 + 30) = Some (70 / (70 + 30)) ∧
  Js.gt (0 + 0) 0 = false ∧
  manipulatedPrice 100 0 0 = Some 100.
Proof.
  destruct (ratios_guarded 100 70 30 0.5) as (Hg & _).
  destruct (ratios_guarded 100 0 0 0.5) as (_ & Hz & _).
  split; [reflexivity|]. split; [apply Hg; reflexivity|].
  split; [reflexivity|]. apply Hz. reflexivity.
Defined.

End PriceHandlerFacts.

(** ** The manipulation block in binary64 *)

Module Binary64Facts.
Import Binary64.

(** Shifting right and rounding to nearest leave a mantissa that is not
    negative so, and with it the rounded sum of two numbers that are not
    below zero. *)
Lemma shr_1_nonneg mrs : (0 ≤ shr_m mrs)%Z → (0 ≤ shr_m (shr_1 mrs))%Z.
Proof.
  destruct mrs as [m r s]. simpl. destruct m as [|[p|p|]|p]; simpl; lia.
Qed.

Lemma iter_pos_nonneg p mrs :
  (0 ≤ shr_m mrs)%Z → (0 ≤ shr_m (SpecFloat.iter_pos shr_1 p mrs))%Z.
Proof.
  revert mrs. induction p as [p IH|p IH|]; intros mrs H; simpl.
  - apply IH, IH. by apply shr_1_nonneg.
  - by apply IH, IH.
  - by apply shr_1_nonneg.
Qed.

Lemma shr_nonneg mrs e n :
  (0 ≤ shr_m mrs)%Z → (0 ≤ shr_m (shr mrs e n).1)%Z.
Proof.
  intros H. unfold shr. destruct n; simpl; [done| |done].
  by apply iter_pos_nonneg.
Qed.

Lemma shr_fexp_nonneg prec emax m e l :
  (0 ≤ m)%Z → (0 ≤ shr_m (shr_fexp prec emax m e l).1)%Z.
Proof.
  intros H. unfold shr_fexp. apply shr_nonneg.
  by destruct l as [|[]].
Qed.

Lemma round_nearest_even_nonneg m l :
  (0 ≤ m)%Z → (0 ≤ round_nearest_even m l)%Z.
Proof.
  intros H. unfold round_nearest_even.
  destruct l as [|[]]; try done; [|lia]. destruct (Z.even m); lia.
Qed.

Lemma binary_round_aux_notBelowZero prec emax m e l :
  (0 ≤ m)%Z → notBelowZero (binary_round_aux prec emax false m e l).
Proof.
  intros H. unfold binary_round_aux.
  pose proof (shr_fexp_nonneg prec emax m e l H) as H1.
  destruct (shr_fexp prec emax m e l) as [mrs' e'].
  pose proof (shr_fexp_nonneg prec emax
                (round_nearest_even (shr_m mrs') (loc_of_shr_record mrs'))
                e' loc_Exact
                (round_nearest_even_nonneg _ _ H1)) as H2.
  destruct (shr_fexp prec emax _ e' loc_Exact) as [mrs'' e''].
  simpl in H2. destruct (shr_m mrs'') as [|q|q]; [done| |lia].
  by destruct (Z.leb e'' _).
Qed.

Lemma SFadd_notBelowZero prec emax x y :
  notBelowZero x → notBelowZero y → notBelowZero (SFadd prec emax x y).
Proof.
  destruct x as [sx|sx| |sx mx ex], y as [sy|sy| |sy my ey];
    simpl; try done; intros Hx Hy; subst; try done.
  - by destruct sx, sy.
  - unfold binary_normalize. simpl. unfold binary_round.
    destruct (shl_align _ _ _) as [mz ez].
    by apply binary_round_aux_notBelowZero.
Qed.

Local Open Scope float_scope.

Lemma leb_zero_notBelowZero (x : float) :
  (0 <=? x) = true → notBelowZero (Prim2SF x).
Proof.
  rewrite FloatAxioms.leb_spec. change (Prim2SF 0) with (S754_zero false).
  unfold SFleb. destruct (Prim2SF x) as [s|s| |s m e]; simpl; try done.
  - by destruct s.
  - by destruct s.
Qed.

(** The guard of the block on totals that are not below zero: their sum
    is above zero unless it is zero. *)
Lemma guard_is_nonzero (upValue downValue : float) :
  (0 <=? upValue) = true → (0 <=? downValue) = true →
  (0 <? upValue + downValue) = negb (upValue + downValue =? 0).
Proof.
  intros Hx%leb_zero_notBelowZero Hy%leb_zero_notBelowZero.
  rewrite FloatAxioms.eqb_spec, FloatAxioms.ltb_spec, FloatAxioms.add_spec.
  change (Prim2SF 0) with (S754_zero false).
  pose proof (SFadd_notBelowZero prec emax _ _ Hx Hy) as H.
  unfold SF64add.
  destruct (SFadd prec emax (Prim2SF upValue) (Prim2SF downValue))
    as [s|s| |s m e]; simpl in H; subst; try done.
Qed.

(** C5.  On binary64 numbers, as the program computes: for exposure totals
    that are not below zero the block returns the raw price itself when the
    totals sum to zero; otherwise the raw price times 0.998 when the up
    ratio [upAmount / (upAmount + downAmount)] exceeds 0.6, else times
    1.002 when the down ratio [downAmount / (upAmount + downAmount)]
    exceeds 0.6, else the raw price itself.  Sum, ratios, comparisons and
    products are the rounded ones of the program.  On (100, 70, 30) it
    returns 99.8, on (100, 30, 70) it returns 100.2 and on (100, 50, 50) it
    returns 100. *)
Theorem publish_cases (rawPrice upAmount downAmount : float) :
  (0 <=? upAmount) = true → (0 <=? downAmount) = true →
  let total := upAmount + downAmount in
  ((total =? 0) = true →
     manipulatedPrice rawPrice upAmount downAmount = rawPrice) ∧
  ((total =? 0) = false → (0.6 <? upAmount / total) = true →
     manipulatedPrice rawPrice upAmount downAmount = rawPrice * 0.998) ∧
  ((total =? 0) = false → (0.6 <? upAmount / total) = false →
     (0.6 <? downAmount / total) = true →
     manipulatedPrice rawPrice upAmount downAmount = rawPrice * 1.002) ∧
  ((total =? 0) = false → (0.6 <? upAmount / total) = false →
     (0.6 <? downAmount / total) = false →
     manipulatedPrice rawPrice upAmount downAmount = rawPrice) ∧
  manipulatedPrice 100 70 30 = 99.8 ∧
  manipulatedPrice 100 30 70 = 100.2 ∧
  manipulatedPrice 100 50 50 = 100.
Proof.
  intros Hu Hd. cbv beta zeta delta [manipulatedPrice].
  rewrite (guard_is_nonzero _ _ Hu Hd).
  split; [|split; [|split; [|split; [|split; [|split]]]]].
  - by intros ->.
  - by intros -> ->.
  - by intros -> -> ->.
  - by intros -> -> ->.
  - reflexivity.
  - reflexivity.
  - reflexivity.
Qed.

Lemma publish_cases_witness :
  (0 <=? 80) = true ∧ (0 <=? 20) = true ∧
  manipulatedPrice 250 80 20 = 250 * 0.998 ∧
  manipulatedPrice 250 0 0 = 250.
Proof.
  assert (Hu : (0 <=? 80) = true) by reflexivity.
  assert (Hd : (0 <=? 20) = true) by reflexivity.
  assert (Hz : (0 <=? 0) = true) by reflexivity.
  split; [exact Hu|]. split; [exact Hd|]. split.
  - destruct (publish_cases 250 80 20 Hu Hd) as (_ & Hup & _).
    apply Hup; reflexivity.
  - destruct (publish_cases 250 0 0 Hz Hz) as (Hzero & _).
    apply Hzero; reflexivity.
Defined.

(** The three sample values of the specification hold bit for bit, each
    decimal constant being the binary64 number nearest to it. *)
Lemma sample_values :
  Binary64.manipulatedPrice 100 70 30 = 99.8 ∧
  Binary64.manipulatedPrice 100 30 70 = 100.2 ∧
  Binary64.manipulatedPrice 100 50 50 = 100 ∧
  Binary64.manipulatedPrice 100 0 0 = 100.
Proof. repeat split; reflexivity. Qed.

(** A side of exactly 60% is not above the threshold in binary64 either. *)
Lemma threshold_is_strict :
  Binary64.manipulatedPrice 100 60 40 = 100 ∧
  Binary64.manipulatedPrice 100 40 60 = 100.
Proof. split; reflexivity. Qed.

(** The ratio that is tested is the rounded one.  The totals nearest to
    1.35 and 0.9 have a ratio that rounds to 0.6000000000000001, above the
    threshold, and the price is moved; totals that overflow in their sum
    have the ratio 0 and the price is left as it is. *)
Lemma ratio_is_rounded :
  1.35 / (1.35 + 0.9) = 0.6000000000000001 ∧
  Binary64.manipulatedPrice 100 1.35 0.9 = 99.8 ∧
  1e308 / (1e308 + 1e308) = 0 ∧
  Binary64.manipulatedPrice 100 1e308 1e308 = 100.
Proof. repeat split; reflexivity. Qed.

(** The rule at expiry on the sample of 55 staked up and 45 staked down,
    where the block leaves the price as it is. *)
Lemma majority_sample :
  Binary64.manipulatedPrice 100 55 45 = 100 ∧
  Binary64.lastSecond 100 55 45 = 99.8.
Proof. split; reflexivity. Qed.

End Binary64Facts.

(** ** The feed cache *)

Module FeedFacts.
Import Feed.

Lemma onMessage_ticker (m : Message) (priceCache : gmap string Q) :
  e m = "24hrTicker"%string →
  onMessage (Some m) priceCache = <[s m := c m]> priceCache.
Proof. intros He. unfold onMessage. by rewrite He. Qed.

(** C6, as the code has it.  A ticker frame replaces the cached price of its
    symbol whatever entry is there and whatever the event times: the cache
    stores no observation time.  Of two ticker frames for one symbol the
    second to arrive is the one the cache holds, and the prices of other
    symbols are not touched. *)
Theorem cache_last_arrival_wins (m1 m2 : Message)
  (priceCache : gmap string Q) :
  e m1 = "24hrTicker"%string → e m2 = "24hrTicker"%string → s m1 = s m2 →
  onMessage (Some m2) priceCache !! s m2 = Some (c m2) ∧
  onMessage (Some m2) (onMessage (Some m1) priceCache) !! s m2 =
    Some (c m2) ∧
  (∀ other, other ≠ s m2 →
     onMessage (Some m2) (onMessage (Some m1) priceCache) !! other =
       priceCache !! other).
Proof.
  intros H1 H2 Hs. rewrite !onMessage_ticker by done.
  split; [|split].
  - by rewrite lookup_insert_eq.
  - by rewrite lookup_insert_eq.
  - intros other Ho. rewrite !lookup_insert_ne; congruence.
Qed.

Lemma cache_last_arrival_wins_witness :
  onMessage (Some (Sample.ticker 3 90))
    (onMessage (Some (Sample.ticker 5 100)) ∅) !! "BTCUSDT"%string =
  Some 90.
Proof.
  exact (proj1 (proj2 (cache_last_arrival_wins
           (Sample.ticker 5 100) (Sample.ticker 3 90) ∅
           eq_refl eq_refl eq_refl))).
Defined.

(** An observation at time 5 and then one at time 3: the cache is not left
    as the first write made it, it holds the price observed at time 3. *)
Lemma stale_frame_overwrites :
  let after5 := onMessage (Some (Sample.ticker 5 100)) ∅ in
  let after3 := onMessage (Some (Sample.ticker 3 90)) after5 in
  after5 !! "BTCUSDT"%string = Some 100 ∧
  after3 !! "BTCUSDT"%string = Some 90 ∧
  after3 ≠ after5 ∧
  getCurrentPrice after3 "BTCUSDT" = Some 90.
Proof.
  cbv zeta. split; [|split; [|split]].
  - reflexivity.
  - reflexivity.
  - intros Heq.
    apply (f_equal (λ m : gmap string Q, m !! "BTCUSDT"%string)) in Heq.
    vm_compute in Heq. discriminate.
  - reflexivity.
Qed.

End FeedFacts.

(** ** [adjustPrice] as a whole *)

Module AdjustPriceFacts.
Import Store PriceHandler.

Lemma getCurrentPrice_truthy (priceCache : gmap string Q) symbol p :
  Feed.getCurrentPrice priceCache symbol = Some p → Js.truthy p = true.
Proof.
  unfold Feed.getCurrentPrice. intros H.
  eapply JsFacts.or_Some_truthy; [exact H | by left].
Qed.


Lemma adjustPrice_store symbol fetched (d d' : Db) r :
  adjustPrice symbol fetched d = Some (r, d') →
  users d' = users d ∧ orders d' = orders d ∧
  (∀ other, other ≠ symbol → symbols d' !! other = symbols d !! other).
Proof.
  unfold adjustPrice.
  destruct (symbols d !! symbol) as [sd|] eqn:Es;
    [|intros; by simplify_eq].
  destruct fetched as [bp|]; [|intros; by simplify_eq].
  destruct (negb (Js.truthy bp)); [intros; by simplify_eq|].
  destruct (manipulatedPrice _ _ _) as [p|]; [|done].
  simpl. rewrite Es. simpl. intros H. simplify_eq. simpl.
  split; [done|]. split; [done|].
  intros other Ho. by rewrite lookup_insert_ne.
Qed.
















End AdjustPriceFacts.

(** ** The settlement callback *)

Module SettleFacts.
Import Store Server.


Lemma readPrice_truthy st symbol p :
  readPrice st symbol = Some p → Js.truthy p = true.
Proof.
  unfold readPrice. intros H. eapply JsFacts.or_Some_truthy; [exact H|].
  destruct (Feed.getCurrentPrice (priceCache st) symbol) as [q|] eqn:E;
    [right|by left].
  exists q. split; [done|]. by eapply AdjustPriceFacts.getCurrentPrice_truthy.
Qed.

Lemma finalPrice_read k st p :
  readPrice st (c_symbol k) = Some p →
  finalPrice k st =
    Some (lastSecond p
            (PriceHandler.upValue
               (PriceHandler.getOrderTotals (c_symbolId k) (db st)))
            (PriceHandler.downValue
               (PriceHandler.getOrderTotals (c_symbolId k) (db st)))).
Proof.
  intros H. unfold finalPrice. rewrite H.
  by rewrite (readPrice_truthy _ _ _ H).
Qed.

Lemma finalPrice_none k st :
  readPrice st (c_symbol k) = None → finalPrice k st = None.
Proof. intros H. unfold finalPrice. by rewrite H. Qed.

(** What [readPrice] returns is the published price when there is one
    that is not zero, and the cached raw price otherwise. *)
Lemma readPrice_sources st symbol p :
  readPrice st symbol = Some p →
  (∀ m, manipulatedPrices st !! symbol = Some m → Js.truthy m = true →
        p = m) ∧
  (Js.truthy_opt Js.truthy (manipulatedPrices st !! symbol) = false →
   Feed.getCurrentPrice (priceCache st) symbol = Some p).
Proof.
  unfold readPrice, Js.or. intros H. split.
  - intros m Hm Ht. rewrite Hm in H. simpl in H. rewrite Ht in H.
    by simplify_eq.
  - intros Hf. by rewrite Hf in H.
Qed.

(** C3, as the code has it.  The price that decides win or loss at expiry
    is not [publish] of the raw price.  It is the price read at expiry (the
    last published price of the symbol, else the cached raw price) times
    0.998 when more is staked up than down, times 1.002 when more is staked
    down than up, and as it is when the stakes are equal, with the exposure
    totals read from the store at that moment: the rule of the simple
    majority, with the multipliers of [publish] and without its threshold
    of 0.6. *)
Theorem settlement_price_rule (k : Closure) (st : State) (p : Q) :
  readPrice st (c_symbol k) = Some p →
  let t := PriceHandler.getOrderTotals (c_symbolId k) (db st) in
  let up := PriceHandler.upValue t in
  let down := PriceHandler.downValue t in
  finalPrice k st = Some (lastSecond p up down) ∧
  (down < up → lastSecond p up down = p * 0.998) ∧
  (up < down → lastSecond p up down = p * 1.002) ∧
  (up == down → lastSecond p up down = p) ∧
  (∀ m, manipulatedPrices st !! c_symbol k = Some m → Js.truthy m = true →
        p = m) ∧
  (Js.truthy_opt Js.truthy (manipulatedPrices st !! c_symbol k) = false →
   Feed.getCurrentPrice (priceCache st) (c_symbol k) = Some p).
Proof.
  intros Hr t up down.
  split; [by apply finalPrice_read|].
  split; [|split; [|split]].
  - intros H. unfold lastSecond.
    by assert (Js.gt up down = true) as -> by (by apply JsFacts.gt_spec).
  - intros H. unfold lastSecond.
    assert (Js.gt up down = false) as -> by (apply JsFacts.gt_false; lra).
    by assert (Js.gt down up = true) as -> by (by apply JsFacts.gt_spec).
  - intros H. unfold lastSecond.
    assert (Js.gt up down = false) as -> by (apply JsFacts.gt_false; lra).
    by assert (Js.gt down up = false) as -> by (apply JsFacts.gt_false; lra).
  - by apply readPrice_sources.
Qed.

Lemma settlement_price_rule_witness :
  let k := Sample.closure (Sample.openOrder 0 "up" 55) in
  let st := Sample.state Sample.splitDb 100 in
  readPrice st (c_symbol k) = Some 100 ∧
  finalPrice k st =
    Some (lastSecond 100
            (PriceHandler.upValue (PriceHandler.getOrderTotals 1 (db st)))
            (PriceHandler.downValue (PriceHandler.getOrderTotals 1 (db st)))).
Proof.
  cbv zeta.
  assert (H : readPrice (Sample.state Sample.splitDb 100)
                (c_symbol (Sample.closure (Sample.openOrder 0 "up" 55))) =
              Some 100) by reflexivity.
  split; [exact H|].
  exact (proj1 (settlement_price_rule _ _ _ H)).
Defined.

(** A raw price of 100 with 55 staked up and 45 down: [publish] leaves the
    price at 100, since no side exceeds 60%, and the price that settles
    the order is 99.8. *)
Lemma expiry_price_is_not_publish :
  let k := Sample.closure (Sample.openOrder 0 "up" 55) in
  let st := Sample.state Sample.splitDb 100 in
  ∃ settlementPrice up down,
    finalPrice k st = Some settlementPrice ∧
    PriceHandler.getOrderTotals (c_symbolId k) (db st) =
      PriceHandler.mkTotals up down ∧
    up == 55 ∧ down == 45 ∧
    settlementPrice == 99.8 ∧
    Spec.publish 100 up down == 100 ∧
    ¬ settlementPrice == Spec.publish 100 up down.
Proof.
  cbv zeta. eexists _, _, _.
  split; [vm_compute; reflexivity|].
  split; [vm_compute; reflexivity|].
  split; [reflexivity|]. split; [reflexivity|].
  split; [reflexivity|]. split; [reflexivity|].
  vm_compute. discriminate.
Qed.

End SettleFacts.

(** ** The settlement transaction *)

Module ResolveFacts.
Import Store Server.

Local Abbreviation won k p :=
  (isWin (c_direction k) p (manipulatedEntryPrice (c_order k))).

(** With the order and the user in the store the transaction commits. *)
Lemma resolveTrade_commits k p (d : Db) o u :
  orders d !! id (c_order k) = Some o →
  users d !! c_userId k = Some u →
  let pl := profitLoss (won k p) (c_amount k) in
  orders (resolveTrade k p d) =
    <[id (c_order k) :=
        settled o p p (if won k p then "win" else "loss") pl]> (orders d) ∧
  users (resolveTrade k p d) =
    (if won k p
     then <[c_userId k := mkUser (balance u + (c_amount k + pl))]> (users d)
     else users d) ∧
  symbols (resolveTrade k p d) = symbols d ∧
  journal (resolveTrade k p d) = journal d ++ settlementWrites k p.
Proof.
  intros Ho Hu pl. unfold resolveTrade, settlementWrites.
  fold pl. cbn [transaction write]. rewrite Ho. simpl.
  destruct (won k p); simpl; rewrite Hu; simpl;
    rewrite <- !(assoc_L (++)); done.
Qed.

(** Without one of them it throws, and nothing is written. *)
Lemma resolveTrade_throws k p (d : Db) :
  orders d !! id (c_order k) = None ∨ users d !! c_userId k = None →
  resolveTrade k p d = d.
Proof.
  intros H. unfold resolveTrade, settlementWrites. cbn [transaction write].
  destruct (orders d !! id (c_order k)) as [o|] eqn:Ho; [|done].
  destruct H as [H|H]; [done|]. simpl.
  destruct (isWin _ _ _); simpl; by rewrite H.
Qed.

Lemma resolveTrade_journal k p (d : Db) :
  journal (resolveTrade k p d) = journal d ∨
  journal (resolveTrade k p d) = journal d ++ settlementWrites k p.
Proof.
  destruct (orders d !! id (c_order k)) as [o|] eqn:Ho;
    [|left; by rewrite resolveTrade_throws by auto].
  destruct (users d !! c_userId k) as [u|] eqn:Hu;
    [|left; by rewrite resolveTrade_throws by auto].
  right. by apply (resolveTrade_commits k p d o u).
Qed.

Lemma resolveTrade_length k p (d : Db) :
  length (orders (resolveTrade k p d)) = length (orders d).
Proof.
  destruct (orders d !! id (c_order k)) as [o|] eqn:Ho;
    [|by rewrite resolveTrade_throws by auto].
  destruct (users d !! c_userId k) as [u|] eqn:Hu;
    [|by rewrite resolveTrade_throws by auto].
  destruct (resolveTrade_commits k p d o u Ho Hu) as (-> & _).
  by rewrite length_insert.
Qed.

Lemma isWin_spec direction p entry :
  isWin direction p entry = true ↔
  (direction = "up"%string ∧ entry < p) ∨
  (direction ≠ "up"%string ∧ p < entry).
Proof.
  unfold isWin. destruct (String.eqb_spec direction "up") as [->|Hne].
  - rewrite JsFacts.gt_spec. split; [by left|]. by intros [[_ H]|[H _]].
  - rewrite JsFacts.lt_spec. split; [by right|]. by intros [[H _]|[_ H]].
Qed.

(** The callback compares the direction with "up" only: any other string
    is settled as down is. *)
Lemma isWin_other_direction direction p entry :
  direction ≠ "up"%string → isWin direction p entry = Js.lt p entry.
Proof.
  intros Hd. unfold isWin.
  destruct (String.eqb_spec direction "up"); [contradiction|done].
Qed.

(** C2, as the code has it.  Take any order and the callback armed for it,
    which carries its amount and its payout ratio of 0.8.  When the
    callback settles the order at settlement price [p]: the outcome is win
    if and only if the direction is up and [p] is above the entry price, or
    the direction is any other string, down among them, and [p] is below
    the entry price, and loss otherwise, a tie included; the profit/loss is
    the amount times the payout ratio on a win and minus the amount on a
    loss; and the balance grows by amount plus profit/loss on a win, with a
    credit in the journal, and is left as it is on a loss, with no credit.
    For the two directions of the data model that is the rule of the
    specification. *)
Theorem settlement_outcome (k : Closure) (st : State) (p : Q) (o : Order)
  (u : User) :
  c_amount k = amount (c_order k) →
  payout (c_order k) = 0.8 →
  finalPrice k st = Some p →
  orders (db st) !! id (c_order k) = Some o →
  users (db st) !! c_userId k = Some u →
  let order := c_order k in
  let entry := manipulatedEntryPrice order in
  let win := (c_direction k = "up"%string ∧ entry < p) ∨
             (c_direction k ≠ "up"%string ∧ p < entry) in
  let st' := settle k st in
  (c_direction k = "up"%string ∨ c_direction k = "down"%string →
   win ↔ (c_direction k = "up"%string ∧ entry < p) ∨
         (c_direction k = "down"%string ∧ p < entry)) ∧
  ∃ o' u',
    orders (db st') !! id order = Some o' ∧
    users (db st') !! c_userId k = Some u' ∧
    exitPrice o' = Some p ∧
    (win →
       outcome o' = Some "win"%string ∧
       Store.profitLoss o' = Some (amount order * payout order) ∧
       balance u' = balance u + (amount order + amount order * payout order) ∧
       credits (c_userId k) (journal (db st')) =
         S (credits (c_userId k) (journal (db st)))) ∧
    (¬ win →
       outcome o' = Some "loss"%string ∧
       Store.profitLoss o' = Some (- amount order) ∧
       balance u' = balance u ∧
       credits (c_userId k) (journal (db st')) =
         credits (c_userId k) (journal (db st))) ∧
    (entry == p → outcome o' = Some "loss"%string).
Proof.
  intros Hamt Hpay Hp Ho Hu order entry win st'.
  split.
  { intros Hd. unfold win.
    destruct Hd as [Hd|Hd]; rewrite Hd;
      (split; intros [[Ha Hb]|[Ha Hb]]);
      try done; try (by left); by right. }
  assert (Hwin : won k p = true ↔ win) by apply isWin_spec.
  destruct (resolveTrade_commits k p (db st) o u Ho Hu)
    as (Hos & Hus & _ & Hj).
  subst st'. unfold settle. rewrite Hp. simpl.
  rewrite Hos, Hj. unfold settlementWrites.
  assert (Hlt : (id order < length (orders (db st)))%nat)
    by (by eapply lookup_lt_Some).
  rewrite list_lookup_insert_eq by done.
  unfold credits. rewrite !List.filter_app, !length_app.
  cbn [List.filter isCredit].
  destruct (won k p) eqn:Ew.
  - rewrite Hus, lookup_insert_eq. eexists _, _.
    split; [done|]. split; [done|]. split; [done|].
    simpl. rewrite Nat.eqb_refl. simpl.
    unfold order. rewrite <- Hamt, Hpay.
    split; [|split].
    + intros _. repeat split; try done. lia.
    + intros Hn. destruct Hn. by apply Hwin.
    + intros Heq. exfalso.
      assert (Hw : win) by (by apply Hwin).
      destruct Hw as [[_ Hw]|[_ Hw]]; lra.
  - rewrite Hus, Hu. eexists _, _.
    split; [done|]. split; [done|]. split; [done|].
    simpl. unfold order. rewrite <- Hamt.
    split; [|split].
    + intros Hw. apply Hwin in Hw. congruence.
    + intros _. repeat split; done.
    + done.
Qed.

Lemma settlement_outcome_witness :
  let order := Sample.openOrder 1 "down" 30 in
  let k := Sample.closure order in
  let st := Sample.state Sample.upDb 100 in
  finalPrice k st = Some (100 * 0.998) ∧
  orders (db st) !! 1%nat = Some order ∧
  users (db st) !! 1%nat = Some (mkUser 1000) ∧
  ∃ o' u',
    orders (db (settle k st)) !! 1%nat = Some o' ∧
    users (db (settle k st)) !! 1%nat = Some u' ∧
    outcome o' = Some "win"%string ∧
    Store.profitLoss o' = Some (30 * 0.8) ∧
    balance u' = 1000 + (30 + 30 * 0.8).
Proof.
  cbv zeta.
  set (order := Sample.openOrder 1 "down" 30).
  set (k := Sample.closure order).
  set (st := Sample.state Sample.upDb 100).
  assert (Hamt : c_amount k = amount (c_order k)) by reflexivity.
  assert (Hpay : payout (c_order k) = 0.8) by reflexivity.
  assert (Hp : finalPrice k st = Some (100 * 0.998))
    by (vm_compute; reflexivity).
  assert (Ho : orders (db st) !! id (c_order k) = Some order) by reflexivity.
  assert (Hu : users (db st) !! c_userId k = Some (mkUser 1000))
    by reflexivity.
  split; [exact Hp|]. split; [exact Ho|]. split; [exact Hu|].
  destruct (settlement_outcome k st (100 * 0.998) order (mkUser 1000)
              Hamt Hpay Hp Ho Hu)
    as (_ & o' & u' & Ho' & Hu' & _ & Hwin & _).
  exists o', u'. split; [exact Ho'|]. split; [exact Hu'|].
  destruct Hwin as (Hout & Hpl & Hbal & _).
  { right. split; [discriminate|reflexivity]. }
  split; [exact Hout|]. split; [exact Hpl|]. exact Hbal.
Defined.

(** An order with the direction "sideways", which intake accepts, entered
    at 100 and settled at 90: the direction is neither up nor down, so
    the rule of the specification gives a loss, and the callback writes a
    win and credits the user 18 for the stake of 10. *)
Lemma sideways_order_wins :
  let evs := [Frame (Some (Sample.ticker 1 90));
              Post 0 (Sample.body 10 "sideways"); Expire 0] in
  ∃ o u p entry,
    orders (db (run evs (start Sample.emptyDb))) !! 0%nat = Some o ∧
    users (db (run evs (start Sample.emptyDb))) !! 1%nat = Some u ∧
    direction o = "sideways"%string ∧
    exitPrice o = Some p ∧ p == 90 ∧
    manipulatedEntryPrice o = entry ∧ entry == 100 ∧
    outcome o = Some "win"%string ∧
    balance u == 1008 ∧
    ¬ ((direction o = "up"%string ∧ entry < p) ∨
       (direction o = "down"%string ∧ p < entry)).
Proof.
  cbv zeta. eexists _, _, _, _.
  split; [vm_compute; reflexivity|].
  split; [vm_compute; reflexivity|].
  split; [reflexivity|].
  split; [reflexivity|]. split; [reflexivity|].
  split; [reflexivity|]. split; [reflexivity|].
  split; [reflexivity|]. split; [reflexivity|].
  intros [[H _]|[H _]]; discriminate.
Qed.

End ResolveFacts.

(** ** Order intake *)

Module IntakeFacts.
Import Store Server.

Lemma truthy_opt_Some {A} (t : A → bool) (v : option A) :
  Js.truthy_opt t v = true → ∃ a, v = Some a ∧ t a = true.
Proof. destruct v as [a|]; [|done]. intros H. by exists a. Qed.

(** A request that passes the first test has its four fields. *)
Lemma valid_fields b :
  invalidInput b = false →
  ∃ symbol amount direction duration,
    b_symbol b = Some symbol ∧ b_amount b = Some amount ∧
    b_direction b = Some direction ∧ b_duration b = Some duration ∧
    Js.truthy_str symbol = true ∧ Js.truthy amount = true ∧
    Js.truthy_str direction = true ∧ Js.truthy duration = true.
Proof.
  unfold invalidInput. rewrite !orb_false_iff, !negb_false_iff.
  intros [[[Hs Ha] Hd] Ht].
  apply truthy_opt_Some in Hs as (symbol & -> & ?).
  apply truthy_opt_Some in Ha as (amount & -> & ?).
  apply truthy_opt_Some in Hd as (direction & -> & ?).
  apply truthy_opt_Some in Ht as (duration & -> & ?).
  by exists symbol, amount, direction, duration.
Qed.

Lemma postOrder_invalid now b st :
  invalidInput b = true → postOrder now b st = (Status400 "Invalid input", st).
Proof. intros H. unfold postOrder. by rewrite H. Qed.

Lemma postOrder_unknown_user now b st :
  invalidInput b = false → users (db st) !! b_userId b = None →
  postOrder now b st = (Status400 "Insufficient balance", st).
Proof.
  intros Hv Hu. unfold postOrder. rewrite Hv.
  destruct (valid_fields b Hv) as (? & ? & ? & ? & -> & -> & -> & -> & _).
  by rewrite Hu.
Qed.

Lemma postOrder_insufficient now b st u amount :
  invalidInput b = false → users (db st) !! b_userId b = Some u →
  b_amount b = Some amount → balance u < amount →
  postOrder now b st = (Status400 "Insufficient balance", st).
Proof.
  intros Hv Hu Ha Hlt. unfold postOrder. rewrite Hv.
  destruct (valid_fields b Hv) as (? & ? & ? & ? & -> & Ha' & -> & -> & _).
  rewrite Ha' in *. simplify_eq. rewrite Hu.
  apply JsFacts.lt_spec in Hlt. by rewrite Hlt.
Qed.

Lemma postOrder_accepts now b st symbol amount direction duration u :
  invalidInput b = false →
  b_symbol b = Some symbol → b_amount b = Some amount →
  b_direction b = Some direction → b_duration b = Some duration →
  users (db st) !! b_userId b = Some u → amount <= balance u →
  postOrder now b st =
    (Status201 (accepted now b st symbol amount direction duration u).1,
     (accepted now b st symbol amount direction duration u).2).
Proof.
  intros Hv Hs Ha Hd Ht Hu Hle. unfold postOrder.
  rewrite Hv, Hs, Ha, Hd, Ht, Hu.
  apply JsFacts.lt_false in Hle. rewrite Hle.
  cbn [transaction write]. simpl. rewrite Hu. simpl.
  unfold accepted, withTimers, withDb, logged, withUsers, withOrders. simpl.
  by rewrite <- !(assoc_L (++)).
Qed.

(** The callback armed for an accepted order carries the amount, the
    direction and the user of that order, whose payout ratio is 0.8 and
    whose outcome is not set. *)
Lemma armed_closure now b st order st' :
  postOrder now b st = (Status201 order, st') →
  ∃ k delay,
    timers st' = timers st ++ [mkTimer k delay] ∧
    c_order k = order ∧ c_amount k = amount order ∧
    c_direction k = direction order ∧ c_userId k = userId order ∧
    c_symbolId k = symbolId order ∧
    payout order = 0.8 ∧ outcome order = None ∧
    id order = length (orders (db st)).
Proof.
  destruct (invalidInput b) eqn:Einv.
  { by rewrite postOrder_invalid. }
  destruct (valid_fields b Einv)
    as (symbol & amount & direction & duration & Hs & Ha & Hd & Ht & _).
  destruct (users (db st) !! b_userId b) as [u|] eqn:Eu.
  2: { by rewrite postOrder_unknown_user. }
  destruct (Qlt_le_dec (balance u) amount) as [Hlt|Hle].
  { by rewrite (postOrder_insufficient now b st u amount). }
  rewrite (postOrder_accepts now b st symbol amount direction duration u)
    by done.
  intros H. simplify_eq. unfold accepted. simpl. by eexists _, _.
Qed.

(** C4, as the code has it.  The handler answers in one of three ways and
    never with a server error.  It rejects with "Invalid input", the state
    unchanged, exactly when symbol, amount, direction or duration is absent
    or falsy (a zero amount or duration, an empty string).  Otherwise it
    rejects with "Insufficient balance", the state unchanged, exactly when
    the user does not exist or the balance is below the amount: one reason
    for both.  Otherwise it accepts, and in one transaction the order is
    created and the balance is debited by the amount; the timer is armed.
    The value of direction and the existence of the symbol are not
    tested. *)
Theorem intake_cases (now : Q) (b : Body) (st : State) :
  match postOrder now b st with
  | (Status400 e, st') =>
      st' = st ∧
      ((e = "Invalid input"%string ∧ invalidInput b = true) ∨
       (e = "Insufficient balance"%string ∧ invalidInput b = false ∧
        (users (db st) !! b_userId b = None ∨
         ∃ u amount, users (db st) !! b_userId b = Some u ∧
                     b_amount b = Some amount ∧ balance u < amount)))
  | (Status201 order, st') =>
      invalidInput b = false ∧
      ∃ symbol amount direction duration u,
        b_symbol b = Some symbol ∧ b_amount b = Some amount ∧
        b_direction b = Some direction ∧ b_duration b = Some duration ∧
        users (db st) !! b_userId b = Some u ∧ amount <= balance u ∧
        order =
          newOrder (length (orders (db st)))
            (mkOrderData (b_userId b) (b_symbolId b) amount direction
               (b_entryPrice b) (b_entryPrice b) duration
               (now + duration * 1000) 0.8) ∧
        orders (db st') = orders (db st) ++ [order] ∧
        users (db st') =
          <[b_userId b := mkUser (balance u - amount)]> (users (db st)) ∧
        journal (db st') =
          journal (db st) ++
          [OrderCreate
             (mkOrderData (b_userId b) (b_symbolId b) amount direction
                (b_entryPrice b) (b_entryPrice b) duration
                (now + duration * 1000) 0.8);
           UserDecrement (b_userId b) amount] ∧
        timers st' =
          timers st ++
          [mkTimer
             (mkClosure (b_userId b) (b_symbolId b) symbol amount direction
                order)
             (duration * 1000)] ∧
        manipulatedPrices st' = manipulatedPrices st ∧
        priceCache st' = priceCache st
  | (Status500 _, _) => False
  end.
Proof.
  destruct (invalidInput b) eqn:Einv.
  { rewrite postOrder_invalid by done. split; [done|]. by left. }
  destruct (valid_fields b Einv)
    as (symbol & amount & direction & duration & Hs & Ha & Hd & Ht & _).
  destruct (users (db st) !! b_userId b) as [u|] eqn:Eu.
  2: { rewrite postOrder_unknown_user by done.
       split; [done|]. right. split; [done|]. split; [done|]. by left. }
  destruct (Qlt_le_dec (balance u) amount) as [Hlt|Hle].
  { rewrite (postOrder_insufficient now b st u amount) by done.
    split; [done|]. right. split; [done|]. split; [done|]. right.
    by exists u, amount. }
  rewrite (postOrder_accepts now b st symbol amount direction duration u)
    by done.
  split; [done|].
  exists symbol, amount, direction, duration, u.
  repeat (split; [done|]). done.
Qed.

(** A request whose direction is "sideways" is accepted: the order is
    created and the balance of 1000 is debited to 990.  A request of a user
    that does not exist and a request above the balance are rejected with
    the same reason. *)
Lemma intake_accepts_unknown_direction :
  let st := Sample.state Sample.emptyDb 100 in
  (∃ order u',
     (postOrder 0 (Sample.body 10 "sideways") st).1 = Status201 order ∧
     direction order = "sideways"%string ∧
     orders (db (postOrder 0 (Sample.body 10 "sideways") st).2) = [order] ∧
     users (db (postOrder 0 (Sample.body 10 "sideways") st).2) !! 1%nat =
       Some u' ∧
     balance u' == 990) ∧
  users (db st) !! 7%nat = None ∧
  (postOrder 0
     (mkBody 7 1 (Some "BTCUSDT"%string) (Some 10) (Some "up"%string) 100
        (Some 60)) st).1 = Status400 "Insufficient balance" ∧
  (postOrder 0 (Sample.body 5000 "up") st).1 =
    Status400 "Insufficient balance".
Proof.
  cbv zeta. split; [|split; [|split]].
  - eexists _, _. split; [vm_compute; reflexivity|].
    split; [reflexivity|].
    split; [vm_compute; reflexivity|].
    split; [vm_compute; reflexivity|]. reflexivity.
  - reflexivity.
  - vm_compute. reflexivity.
  - vm_compute. reflexivity.
Qed.

(** The first test lets a negative amount through, and so does the balance
    test: a stake of -5 is accepted and the balance of 1000 becomes 1005. *)
Lemma negative_stake_accepted :
  let st := Sample.state Sample.emptyDb 100 in
  ∃ order u',
    (postOrder 0 (Sample.body (-5) "up") st).1 = Status201 order ∧
    amount order = -5 ∧
    users (db (postOrder 0 (Sample.body (-5) "up") st).2) !! 1%nat =
      Some u' ∧
    balance u' == 1005.
Proof.
  cbv zeta. eexists _, _. split; [vm_compute; reflexivity|].
  split; [reflexivity|]. split; [vm_compute; reflexivity|]. reflexivity.
Qed.

End IntakeFacts.

(** ** Runs of the process *)

Module RunFacts.
Import Store Server.

Lemma outcomeWrites_app oid j1 j2 :
  outcomeWrites oid (j1 ++ j2) =
    (outcomeWrites oid j1 + outcomeWrites oid j2)%nat.
Proof. unfold outcomeWrites. by rewrite List.filter_app, length_app. Qed.

Lemma credits_app uid j1 j2 :
  credits uid (j1 ++ j2) = (credits uid j1 + credits uid j2)%nat.
Proof. unfold credits. by rewrite List.filter_app, length_app. Qed.

Lemma outcomeWrites_settlement oid k p :
  outcomeWrites oid (settlementWrites k p) =
    if Nat.eqb (id (c_order k)) oid then 1%nat else 0%nat.
Proof.
  unfold outcomeWrites, settlementWrites. cbn [List.filter isOutcomeWrite].
  destruct (Nat.eqb _ _); by destruct (isWin _ _ _).
Qed.

Lemma armedFor_app oid ts1 ts2 :
  armedFor oid (ts1 ++ ts2) = (armedFor oid ts1 + armedFor oid ts2)%nat.
Proof. unfold armedFor. by rewrite List.filter_app, length_app. Qed.

Lemma armedFor_delete oid (ts : list Timer) n t :
  ts !! n = Some t →
  armedFor oid ts =
    (armedFor oid (delete n ts) + if settles oid t then 1 else 0)%nat.
Proof.
  revert n. induction ts as [|t' ts IH]; intros [|n] H; simplify_eq/=.
  - unfold armedFor. simpl. destruct (settles oid t); simpl; lia.
  - specialize (IH n H). unfold armedFor in *. simpl.
    destruct (settles oid t'); simpl; lia.
Qed.

(** One invocation of the callback writes nothing, or the two writes of
    the settlement transaction. *)
Lemma settle_journal k st :
  journal (db (settle k st)) = journal (db st) ∨
  ∃ p, finalPrice k st = Some p ∧
       journal (db (settle k st)) = journal (db st) ++ settlementWrites k p.
Proof.
  unfold settle. destruct (finalPrice k st) as [p|] eqn:Ep; [|by left].
  simpl. destruct (ResolveFacts.resolveTrade_journal k p (db st)) as [H|H].
  - by left.
  - right. by exists p.
Qed.

Lemma settle_frame k st :
  timers (settle k st) = timers st ∧
  manipulatedPrices (settle k st) = manipulatedPrices st ∧
  priceCache (settle k st) = priceCache st ∧
  length (orders (db (settle k st))) = length (orders (db st)).
Proof.
  unfold settle. destruct (finalPrice k st) as [p|]; [|done].
  simpl. by rewrite ResolveFacts.resolveTrade_length.
Qed.

Lemma settle_no_price k st :
  readPrice st (c_symbol k) = None → settle k st = st.
Proof.
  intros H. unfold settle. by rewrite SettleFacts.finalPrice_none.
Qed.

(** The publishing interval writes no outcome and arms no timer. *)
Lemma publish_frame symbol st oid :
  outcomeWrites oid (journal (db (publish symbol st))) =
    outcomeWrites oid (journal (db st)) ∧
  orders (db (publish symbol st)) = orders (db st) ∧
  timers (publish symbol st) = timers st.
Proof.
  unfold publish, PriceHandlerFeed.adjustPrice.
  destruct (symbols (db st) !! symbol) as [sd|] eqn:Es; [|done].
  destruct (Feed.getCurrentPrice _ _) as [cp|].
  2: { by destruct (sym_manipulatedPrice sd) as [mp|];
         [destruct (Js.truthy mp)|]. }
  destruct (PriceHandler.manipulatedPrice _ _ _) as [p|]; [|done].
  simpl. rewrite Es. simpl.
  destruct (Js.truthy p); simpl;
    by rewrite outcomeWrites_app, Nat.add_0_r.
Qed.

Lemma onceInv_start d : onceInv d (start d).
Proof.
  split; [done|]. intros oid. simpl. unfold armedFor. simpl. lia.
Qed.

Lemma onceInv_step d0 st ev : onceInv d0 st → onceInv d0 (step st ev).
Proof.
  intros [Hlen Hinv]. destruct ev as [now b|symbol|data|n]; simpl.
  - destruct (invalidInput b) eqn:Einv.
    { by rewrite IntakeFacts.postOrder_invalid. }
    destruct (IntakeFacts.valid_fields b Einv)
      as (symbol & amount & direction & duration & Hs & Ha & Hd & Ht & _).
    destruct (users (db st) !! b_userId b) as [u|] eqn:Eu.
    2: { by rewrite IntakeFacts.postOrder_unknown_user. }
    destruct (Qlt_le_dec (balance u) amount) as [Hlt|Hle].
    { by rewrite (IntakeFacts.postOrder_insufficient now b st u amount). }
    rewrite (IntakeFacts.postOrder_accepts now b st symbol amount direction
               duration u) by done.
    unfold accepted. split; simpl.
    + rewrite length_app. simpl. lia.
    + intros oid. specialize (Hinv oid).
      rewrite armedFor_app, outcomeWrites_app.
      unfold newIn in *. simpl. rewrite length_app. simpl.
      unfold armedFor at 2. unfold outcomeWrites at 2. simpl.
      unfold settles. simpl.
      destruct (Nat.eqb_spec (length (orders (db st))) oid);
        repeat case_bool_decide; simpl; lia.
  - destruct (publish_frame symbol st 0) as (_ & Ho & Ht).
    split; [by rewrite Ho|]. intros oid. specialize (Hinv oid).
    destruct (publish_frame symbol st oid) as (Hw & _ & _).
    unfold newIn in *. by rewrite Ht, Hw, Ho.
  - split; [done|]. intros oid. apply Hinv.
  - destruct (timers st !! n) as [t|] eqn:Et; [|done].
    set (st1 := withTimers st (delete n (timers st))).
    destruct (settle_frame (callback t) st1) as (Htm & _ & _ & Hl).
    split; [by rewrite Hl|]. intros oid. specialize (Hinv oid).
    rewrite (armedFor_delete oid _ n t Et) in Hinv.
    unfold newIn in *. rewrite Htm, Hl. simpl.
    destruct (settle_journal (callback t) st1) as [Hj|(p & _ & Hj)];
      rewrite Hj; simpl.
    + destruct (settles oid t); lia.
    + rewrite outcomeWrites_app, outcomeWrites_settlement.
      unfold settles in Hinv.
      destruct (Nat.eqb _ oid); lia.
Qed.

Lemma onceInv_run d0 evs st : onceInv d0 st → onceInv d0 (run evs st).
Proof.
  revert st. induction evs as [|ev evs IH]; intros st H; [done|].
  simpl. apply IH. by apply onceInv_step.
Qed.

Lemma run_once d evs oid :
  (outcomeWrites oid (journal (db (run evs (start d))))
   ≤ outcomeWrites oid (journal d) + 1)%nat.
Proof.
  destruct (onceInv_run d evs (start d) (onceInv_start d)) as [_ H].
  specialize (H oid). unfold newIn in H. case_bool_decide; lia.
Qed.

Lemma credits_settlement k p :
  credits (c_userId k) (settlementWrites k p) =
    if isWin (c_direction k) p (manipulatedEntryPrice (c_order k))
    then 1%nat else 0%nat.
Proof.
  unfold credits, settlementWrites. cbn [List.filter isCredit].
  destruct (isWin _ _ _); simpl; [|done]. by rewrite Nat.eqb_refl.
Qed.

Lemma finalPrice_inv k st p :
  finalPrice k st = Some p → ∃ p0, readPrice st (c_symbol k) = Some p0.
Proof.
  unfold finalPrice. destruct (readPrice st (c_symbol k)) as [p0|]; [|done].
  intros _. by exists p0.
Qed.

(** After a settlement that committed, the same callback finds a price, the
    order and the user again: nothing in the store or in the callback
    stops it. *)
Lemma settle_again k st p o u :
  finalPrice k st = Some p →
  orders (db st) !! id (c_order k) = Some o →
  users (db st) !! c_userId k = Some u →
  db (settle k st) = resolveTrade k p (db st) ∧
  (∃ p', finalPrice k (settle k st) = Some p') ∧
  is_Some (orders (db (settle k st)) !! id (c_order k)) ∧
  is_Some (users (db (settle k st)) !! c_userId k).
Proof.
  intros Hp Ho Hu.
  assert (Hdb : db (settle k st) = resolveTrade k p (db st))
    by (unfold settle; by rewrite Hp).
  destruct (ResolveFacts.resolveTrade_commits k p (db st) o u Ho Hu)
    as (Hos & Hus & _).
  split; [done|]. split; [|split].
  - destruct (finalPrice_inv k st p Hp) as (p0 & Hr).
    eexists. apply SettleFacts.finalPrice_read.
    unfold readPrice in *.
    destruct (settle_frame k st) as (_ & -> & -> & _). exact Hr.
  - rewrite Hdb, Hos. apply lookup_lt_is_Some. rewrite length_insert.
    by eapply lookup_lt_Some.
  - rewrite Hdb, Hus. destruct (isWin _ _ _); [|by eexists].
    rewrite lookup_insert_eq. by eexists.
Qed.

Lemma settle_commits_journal k st p o u :
  finalPrice k st = Some p →
  orders (db st) !! id (c_order k) = Some o →
  users (db st) !! c_userId k = Some u →
  journal (db (settle k st)) = journal (db st) ++ settlementWrites k p.
Proof.
  intros Hp Ho Hu. unfold settle. rewrite Hp. simpl.
  by apply (ResolveFacts.resolveTrade_commits k p (db st) o u).
Qed.

(** C1, as the code has it.  The settlement transaction does not test that
    the outcome is still pending.  In a run of one process every order
    still gets at most one outcome write, because a request arms one timer
    for its order and a timer fires once.  One invocation of the callback
    writes nothing or one outcome and, on a win, one credit.  A second
    invocation for the same order is not a no-op: whenever the first one
    committed, the second one commits too, whatever outcome the order
    has, so that the order has two more outcome writes and the user one
    credit for each of the two that found a win.  The earlier revisions of
    the callback do the same. *)
Theorem settlement_once_per_timer (d : Db) (evs : list Event) (oid : nat)
  (k : Closure) (st : State) :
  (outcomeWrites oid (journal (db (run evs (start d))))
   ≤ outcomeWrites oid (journal d) + 1)%nat ∧
  (journal (db (settle k st)) = journal (db st) ∨
   ∃ p, finalPrice k st = Some p ∧
        journal (db (settle k st)) =
          journal (db st) ++ settlementWrites k p) ∧
  (∀ p o u,
     finalPrice k st = Some p →
     orders (db st) !! id (c_order k) = Some o →
     users (db st) !! c_userId k = Some u →
     ∃ p',
       finalPrice k (settle k st) = Some p' ∧
       journal (db (settle k (settle k st))) =
         journal (db st) ++ settlementWrites k p ++ settlementWrites k p' ∧
       outcomeWrites (id (c_order k))
         (journal (db (settle k (settle k st)))) =
         (outcomeWrites (id (c_order k)) (journal (db st)) + 2)%nat ∧
       credits (c_userId k) (journal (db (settle k (settle k st)))) =
         (credits (c_userId k) (journal (db st)) +
          (if isWin (c_direction k) p (manipulatedEntryPrice (c_order k))
           then 1 else 0) +
          (if isWin (c_direction k) p' (manipulatedEntryPrice (c_order k))
           then 1 else 0))%nat) ∧
  (∀ p o u,
     manipulatedPrices st !! c_symbol k = Some p → Js.truthy p = true →
     orders (db st) !! id (c_order k) = Some o →
     users (db st) !! c_userId k = Some u →
     journal (db (ServerLive.settle k (ServerLive.settle k st))) =
       journal (db st) ++ settlementWrites k p ++ settlementWrites k p).
Proof.
  split; [apply run_once|]. split; [apply settle_journal|]. split.
  - intros p o u Hp Ho Hu.
    destruct (settle_again k st p o u Hp Ho Hu)
      as (Hdb & (p' & Hp') & (o' & Ho') & (u' & Hu')).
    exists p'. split; [done|].
    assert (Hj : journal (db (settle k (settle k st))) =
                 journal (db st) ++
                 settlementWrites k p ++ settlementWrites k p').
    { rewrite (settle_commits_journal k _ p' o' u' Hp' Ho' Hu').
      rewrite (settle_commits_journal k st p o u Hp Ho Hu).
      by rewrite <- (assoc_L (++)). }
    split; [done|]. rewrite Hj. split.
    + rewrite !outcomeWrites_app, !outcomeWrites_settlement.
      rewrite Nat.eqb_refl. lia.
    + rewrite !credits_app, !credits_settlement. lia.
  - intros p o u Hm Ht Ho Hu.
    destruct (ResolveFacts.resolveTrade_commits k p (db st) o u Ho Hu)
      as (Hos & Hus & _ & Hj).
    assert (H1 : ServerLive.settle k st =
                 withDb st (resolveTrade k p (db st))).
    { unfold ServerLive.settle. by rewrite Hm, Ht. }
    rewrite H1. unfold ServerLive.settle at 1. simpl. rewrite Hm, Ht. simpl.
    assert (Ho' : is_Some (orders (resolveTrade k p (db st))
                             !! id (c_order k))).
    { rewrite Hos. apply lookup_lt_is_Some. rewrite length_insert.
      by eapply lookup_lt_Some. }
    assert (Hu' : is_Some (users (resolveTrade k p (db st)) !! c_userId k)).
    { rewrite Hus. destruct (isWin _ _ _); [|by eexists].
      rewrite lookup_insert_eq. by eexists. }
    destruct Ho' as [o' Ho'], Hu' as [u' Hu'].
    destruct (ResolveFacts.resolveTrade_commits k p _ o' u' Ho' Hu')
      as (_ & _ & _ & ->).
    by rewrite Hj, <- (assoc_L (++)).
Qed.

Lemma settlement_once_per_timer_witness :
  let k := Sample.closure (Sample.openOrder 1 "down" 30) in
  let st := Sample.state Sample.upDb 100 in
  finalPrice k st = Some (100 * 0.998) ∧
  orders (db st) !! 1%nat = Some (Sample.openOrder 1 "down" 30) ∧
  users (db st) !! 1%nat = Some (mkUser 1000) ∧
  outcomeWrites 1 (journal (db (settle k (settle k st)))) = 2%nat.
Proof.
  cbv zeta.
  set (k := Sample.closure (Sample.openOrder 1 "down" 30)).
  set (st := Sample.state Sample.upDb 100).
  assert (Hp : finalPrice k st = Some (100 * 0.998))
    by (vm_compute; reflexivity).
  assert (Ho : orders (db st) !! id (c_order k) =
               Some (Sample.openOrder 1 "down" 30)) by reflexivity.
  assert (Hu : users (db st) !! c_userId k = Some (mkUser 1000))
    by reflexivity.
  split; [exact Hp|]. split; [exact Ho|]. split; [exact Hu|].
  destruct (settlement_once_per_timer Sample.emptyDb [] 0 k st)
    as (_ & _ & Htwice & _).
  destruct (Htwice _ _ _ Hp Ho Hu) as (p' & _ & _ & Hw & _).
  exact Hw.
Defined.

(** The callback of one order invoked twice, with a raw price of 100, 70
    staked up and 30 down, for the order of 30 on down entered at 100: both
    invocations write the outcome win and both credit 54, so that the
    balance of 1000 becomes 1108; the second invocation is not a no-op. *)
Lemma double_settlement_double_credit :
  let k := Sample.closure (Sample.openOrder 1 "down" 30) in
  let st := Sample.state Sample.upDb 100 in
  let once := settle k st in
  let twice := settle k once in
  outcomeWrites 1 (journal (db once)) = 1%nat ∧
  credits 1 (journal (db once)) = 1%nat ∧
  (∃ o, orders (db once) !! 1%nat = Some o ∧ outcome o = Some "win"%string) ∧
  outcomeWrites 1 (journal (db twice)) = 2%nat ∧
  credits 1 (journal (db twice)) = 2%nat ∧
  (∃ u1 u2,
     users (db once) !! 1%nat = Some u1 ∧
     users (db twice) !! 1%nat = Some u2 ∧
     balance u1 == 1054 ∧ balance u2 == 1108 ∧
     ¬ balance u2 == balance u1) ∧
  twice ≠ once.
Proof.
  cbv zeta.
  split; [vm_compute; reflexivity|]. split; [vm_compute; reflexivity|].
  split; [eexists; split; vm_compute; reflexivity|].
  split; [vm_compute; reflexivity|]. split; [vm_compute; reflexivity|].
  split.
  { eexists _, _. split; [vm_compute; reflexivity|].
    split; [vm_compute; reflexivity|].
    split; [reflexivity|]. split; [reflexivity|]. vm_compute. discriminate. }
  intros Heq.
  apply (f_equal (λ s, length (journal (db s)))) in Heq.
  vm_compute in Heq. discriminate.
Qed.

Lemma readPrice_withTimers st ts symbol :
  readPrice (withTimers st ts) symbol = readPrice st symbol.
Proof. done. Qed.

(** C7, as the code has it.  At expiry the callback reads the last
    published price of the symbol and, when there is none (or it is zero),
    the raw price of the feed cache; it fetches nothing.  When neither
    yields a price it returns at once: nothing is written, the order keeps
    the outcome it had, and the timer that fired is gone with no other
    armed in its place, so there is no retry and no unresolved mark.  The
    earlier revisions read the published price only and return in the same
    way. *)
Theorem expiry_price_sources (k : Closure) (st : State) :
  (∀ p, manipulatedPrices st !! c_symbol k = Some p → Js.truthy p = true →
        readPrice st (c_symbol k) = Some p) ∧
  (Js.truthy_opt Js.truthy (manipulatedPrices st !! c_symbol k) = false →
   readPrice st (c_symbol k) =
     Feed.getCurrentPrice (priceCache st) (c_symbol k)) ∧
  (readPrice st (c_symbol k) = None → settle k st = st) ∧
  (∀ n t, timers st !! n = Some t → callback t = k →
          readPrice st (c_symbol k) = None →
          step st (Expire n) = withTimers st (delete n (timers st))) ∧
  (Js.truthy_opt Js.truthy (manipulatedPrices st !! c_symbol k) = false →
   ServerLive.settle k st = st).
Proof.
  split; [|split; [|split; [|split]]].
  - intros p Hm Ht. unfold readPrice, Js.or. rewrite Hm. simpl. by rewrite Ht.
  - intros Hf. unfold readPrice, Js.or. by rewrite Hf.
  - apply settle_no_price.
  - intros n t Ht <- Hr. simpl. rewrite Ht.
    apply settle_no_price. by rewrite readPrice_withTimers.
  - intros Hf. unfold ServerLive.settle.
    destruct (manipulatedPrices st !! c_symbol k) as [p|]; [|done].
    simpl in Hf. by rewrite Hf.
Qed.

Lemma expiry_price_sources_witness :
  let order := Sample.openOrder 0 "up" 10 in
  let k := Sample.closure order in
  let st := withTimers (start (withOrders Sample.emptyDb [order]))
              [mkTimer k 60000] in
  timers st !! 0%nat = Some (mkTimer k 60000) ∧
  readPrice st (c_symbol k) = None ∧
  step st (Expire 0) = withTimers st [].
Proof.
  cbv zeta.
  set (order := Sample.openOrder 0 "up" 10).
  set (k := Sample.closure order).
  set (st := withTimers (start (withOrders Sample.emptyDb [order]))
               [mkTimer k 60000]).
  assert (Ht : timers st !! 0%nat = Some (mkTimer k 60000)) by reflexivity.
  assert (Hr : readPrice st (c_symbol k) = None) by reflexivity.
  split; [exact Ht|]. split; [exact Hr|].
  destruct (expiry_price_sources k st) as (_ & _ & _ & Hexp & _).
  exact (Hexp 0%nat (mkTimer k 60000) Ht eq_refl Hr).
Defined.

(** A request for 10 on up is accepted, the balance of 1000 is debited to
    990, and the timer fires before any price has been published or cached:
    no timer is left, the order has no outcome, unresolved or other, and
    nothing was written for it. *)
Lemma stake_left_pending :
  let st := run [Post 0 (Sample.body 10 "up"); Expire 0]
              (start Sample.emptyDb) in
  timers st = [] ∧
  (∃ o, orders (db st) = [o] ∧ outcome o = None) ∧
  (∃ u, users (db st) !! 1%nat = Some u ∧ balance u == 990) ∧
  outcomeWrites 0 (journal (db st)) = 0%nat ∧
  (∀ n, step st (Expire n) = st).
Proof.
  cbv zeta.
  split; [vm_compute; reflexivity|].
  split; [eexists; split; vm_compute; reflexivity|].
  split; [eexists; split; [vm_compute; reflexivity|reflexivity]|].
  split; [vm_compute; reflexivity|].
  intros n. simpl.
  assert (Ht : timers (run [Post 0 (Sample.body 10 "up"); Expire 0]
                         (start Sample.emptyDb)) = [])
    by (vm_compute; reflexivity).
  unfold run in Ht. simpl in Ht. simpl. rewrite Ht. by destruct n.
Qed.

End RunFacts.

(** ** What [getOrderTotals] returns *)

Module TotalsFacts.
Import Store PriceHandler.

Lemma sumAmount_app os1 os2 :
  sumAmount (os1 ++ os2) == sumAmount os1 + sumAmount os2.
Proof.
  induction os1 as [|o os1 IH]; simpl.
  - lra.
  - rewrite IH. lra.
Qed.

Lemma sumAmount_nonneg os :
  (∀ o, In o os → 0 <= amount o) → 0 <= sumAmount os.
Proof.
  induction os as [|o os IH]; simpl; intros H.
  - lra.
  - assert (0 <= amount o) by (apply H; by left).
    assert (0 <= sumAmount os) by (apply IH; intros; apply H; by right).
    lra.
Qed.

(** [find] on the groups: the group of a direction, if it occurs. *)
Lemma find_group (F : string → Q) side (ds : list string) :
  List.find (λ g : string * Q, String.eqb g.1 side)
    ((λ d, (d, F d)) <$> ds) =
  if bool_decide (side ∈ ds) then Some (side, F side) else None.
Proof.
  induction ds as [|d ds IH]; [done|].
  rewrite fmap_cons. cbn [List.find fst].
  destruct (String.eqb_spec d side) as [->|Hne].
  - rewrite bool_decide_eq_true_2; [done|by left].
  - rewrite IH.
    destruct (bool_decide (side ∈ ds)) eqn:E1.
    + apply bool_decide_eq_true in E1.
      rewrite bool_decide_eq_true_2; [done|by right].
    + apply bool_decide_eq_false in E1.
      rewrite bool_decide_eq_false_2; [done|].
      intros [?|?]%elem_of_cons; congruence.
Qed.

Lemma filter_absent side (os : list Order) :
  side ∉ direction <$> os →
  List.filter (λ o, String.eqb (direction o) side) os = [].
Proof.
  induction os as [|o os IH]; simpl; [done|].
  intros Hn. destruct (String.eqb_spec (direction o) side) as [He|_].
  - destruct Hn. rewrite <- He. left.
  - apply IH. intros Hin. apply Hn. by right.
Qed.

(** The [find] over the groups of [groupBy] is the sum over the orders of
    that direction; a direction without a group, or with a sum of zero,
    gives 0. *)
Lemma sumOf_groupBy side (os : list Order) :
  sumOf side (groupByDirection os) ==
  sumAmount (List.filter (λ o, String.eqb (direction o) side) os).
Proof.
  unfold sumOf, groupByDirection.
  rewrite (find_group
             (λ d, sumAmount
                     (List.filter (λ o, String.eqb (direction o) d) os))).
  destruct (bool_decide (side ∈ remove_dups (direction <$> os))) eqn:E.
  - simpl. destruct (Js.truthy _) eqn:Et; [reflexivity|].
    apply JsFacts.truthy_false in Et. by rewrite Et.
  - apply bool_decide_eq_false in E. rewrite elem_of_remove_dups in E.
    by rewrite filter_absent.
Qed.

Lemma filter_filter_onSide sid side (os : list Order) :
  List.filter (λ o, String.eqb (direction o) side)
    (List.filter (isOpen sid) os) =
  List.filter (Exposure.onSide sid side) os.
Proof.
  unfold Exposure.onSide.
  induction os as [|o os IH]; simpl; [done|].
  destruct (isOpen sid o); simpl; [|exact IH].
  destruct (String.eqb (direction o) side); by rewrite IH.
Qed.

Lemma getOrderTotals_staked sid (d : Db) :
  upValue (getOrderTotals sid d) == Exposure.staked sid "up" (orders d) ∧
  downValue (getOrderTotals sid d) == Exposure.staked sid "down" (orders d).
Proof.
  unfold getOrderTotals, Exposure.staked. simpl.
  by rewrite !sumOf_groupBy, !filter_filter_onSide.
Qed.

Lemma staked_nonneg sid side (os : list Order) :
  (∀ o, In o os → 0 <= amount o) → 0 <= Exposure.staked sid side os.
Proof.
  intros H. apply sumAmount_nonneg. intros o Ho.
  apply List.filter_In in Ho as [Ho _]. by apply H.
Qed.

(** X1.  [getOrderTotals] returns, for each of the two sides, the sum of
    the amounts of the orders of the symbol that have no outcome yet and
    whose direction is exactly that side, 0 when there is none; an order of
    another symbol, with an outcome, or with another direction counts on
    neither side.  When no stake in the table is negative neither total
    is. *)
Theorem totals_are_open_stakes (sid : nat) (d : Db) :
  upValue (getOrderTotals sid d) == Exposure.staked sid "up" (orders d) ∧
  downValue (getOrderTotals sid d) == Exposure.staked sid "down" (orders d) ∧
  ((∀ o, In o (orders d) → 0 <= amount o) →
   0 <= upValue (getOrderTotals sid d) ∧
   0 <= downValue (getOrderTotals sid d)).
Proof.
  destruct (getOrderTotals_staked sid d) as [Hu Hd].
  split; [done|]. split; [done|].
  intros Hpos. rewrite Hu, Hd. split; by apply staked_nonneg.
Qed.

Lemma totals_are_open_stakes_witness :
  (∀ o, In o (orders Sample.upDb) → 0 <= amount o) ∧
  0 <= upValue (getOrderTotals 1 Sample.upDb) ∧
  0 <= downValue (getOrderTotals 1 Sample.upDb).
Proof.
  assert (H : ∀ o, In o (orders Sample.upDb) → 0 <= amount o).
  { intros o [<-|[<-|[]]]; vm_compute; discriminate. }
  split; [exact H|].
  exact (proj2 (proj2 (totals_are_open_stakes 1 Sample.upDb)) H).
Defined.

End TotalsFacts.

(** ** Accepted requests and the exposure *)

Module ExposureFacts.
Import Store Server PriceHandler.

(** A 201 answer is the answer of an accepted request. *)
Lemma postOrder_201_inv now b st order st' :
  postOrder now b st = (Status201 order, st') →
  ∃ symbol amount direction duration u,
    invalidInput b = false ∧
    b_symbol b = Some symbol ∧ b_amount b = Some amount ∧
    b_direction b = Some direction ∧ b_duration b = Some duration ∧
    users (db st) !! b_userId b = Some u ∧ amount <= balance u ∧
    (order, st') = accepted now b st symbol amount direction duration u.
Proof.
  destruct (invalidInput b) eqn:Einv.
  { by rewrite IntakeFacts.postOrder_invalid. }
  destruct (IntakeFacts.valid_fields b Einv)
    as (symbol & amount & direction & duration & Hs & Ha & Hd & Ht & _).
  destruct (users (db st) !! b_userId b) as [u|] eqn:Eu.
  2: { by rewrite IntakeFacts.postOrder_unknown_user. }
  destruct (Qlt_le_dec (balance u) amount) as [Hlt|Hle].
  { by rewrite (IntakeFacts.postOrder_insufficient now b st u amount). }
  rewrite (IntakeFacts.postOrder_accepts now b st symbol amount direction
             duration u) by done.
  intros H. exists symbol, amount, direction, duration, u.
  repeat (split; [done|]).
  destruct (accepted now b st symbol amount direction duration u).
  by simplify_eq/=.
Qed.

Lemma staked_app sid side os1 os2 :
  Exposure.staked sid side (os1 ++ os2) ==
  Exposure.staked sid side os1 + Exposure.staked sid side os2.
Proof.
  unfold Exposure.staked. rewrite List.filter_app.
  apply TotalsFacts.sumAmount_app.
Qed.

Lemma staked_one sid side o :
  Exposure.staked sid side [o] ==
  (if Exposure.onSide sid side o then amount o else 0).
Proof.
  unfold Exposure.staked. simpl.
  destruct (Exposure.onSide sid side o); simpl; lra.
Qed.

(** Replacing a row by one that is not on the side takes the stake of
    the old row off the side. *)
Lemma staked_insert sid side (os : list Order) i o o' :
  os !! i = Some o → Exposure.onSide sid side o' = false →
  Exposure.staked sid side (<[i := o']> os) ==
  Exposure.staked sid side os -
  (if Exposure.onSide sid side o then amount o else 0).
Proof.
  revert i. induction os as [|x os IH]; intros [|i] Hi Ho'; simplify_eq/=.
  - unfold Exposure.staked. simpl. rewrite Ho'.
    destruct (Exposure.onSide sid side o); simpl; lra.
  - specialize (IH i Hi Ho'). unfold Exposure.staked in *. simpl.
    destruct (Exposure.onSide sid side x); simpl; lra.
Qed.

Lemma onSide_settled sid side o exit mexit out pl :
  Exposure.onSide sid side (settled o exit mexit out pl) = false.
Proof.
  unfold Exposure.onSide, isOpen. simpl. by rewrite andb_false_r.
Qed.

(** X2.  An accepted request adds its amount to the exposure of its own
    symbol and direction and to no other: after the answer 201 the total of
    a side of a symbol is what it was plus the amount of the new order when
    the order is of that symbol and that side. *)
Theorem intake_opens_exposure (now : Q) (b : Body) (st st' : State)
  (order : Order) (sid : nat) :
  postOrder now b st = (Status201 order, st') →
  upValue (getOrderTotals sid (db st')) ==
    upValue (getOrderTotals sid (db st)) +
    (if Nat.eqb (symbolId order) sid && String.eqb (direction order) "up"
     then amount order else 0) ∧
  downValue (getOrderTotals sid (db st')) ==
    downValue (getOrderTotals sid (db st)) +
    (if Nat.eqb (symbolId order) sid && String.eqb (direction order) "down"
     then amount order else 0).
Proof.
  intros Hpost.
  destruct (postOrder_201_inv _ _ _ _ _ Hpost)
    as (symbol & amount & direction & duration & u & _ & _ & _ & _ & _ & _
        & _ & Hacc).
  unfold accepted in Hacc.
  assert (Hos : orders (db st') = orders (db st) ++ [order])
    by (by simplify_eq).
  assert (Hout : outcome order = None) by (by simplify_eq).
  clear Hacc.
  destruct (TotalsFacts.getOrderTotals_staked sid (db st)) as [Hu Hd].
  destruct (TotalsFacts.getOrderTotals_staked sid (db st')) as [Hu' Hd'].
  rewrite Hu', Hd', Hu, Hd, Hos.
  rewrite !staked_app, !staked_one.
  unfold Exposure.onSide, isOpen. rewrite Hout, !andb_true_r.
  split; reflexivity.
Qed.

Lemma intake_opens_exposure_witness :
  let st := Sample.state Sample.upDb 100 in
  ∃ order st',
    postOrder 0 (Sample.body 10 "up") st = (Status201 order, st') ∧
    upValue (getOrderTotals 1 (db st')) ==
      upValue (getOrderTotals 1 (db st)) + 10.
Proof.
  cbv zeta.
  destruct (postOrder 0 (Sample.body 10 "up") (Sample.state Sample.upDb 100))
    as [r st'] eqn:E.
  assert (Hr : r = Status201 (Sample.openOrder 2 "up" 10)).
  { apply (f_equal fst) in E. simpl in E. rewrite <- E.
    vm_compute. reflexivity. }
  subst r. eexists _, st'. split; [reflexivity|].
  exact (proj1 (intake_opens_exposure 0 _ _ _ _ 1%nat E)).
Defined.

(** X3.  A settlement that commits takes the order out of the exposure:
    the total of the side and symbol on which the stored order was open
    drops by its amount, and every other total is left as it was. *)
Theorem settlement_closes_exposure (k : Closure) (st : State) (p : Q)
  (o : Order) (u : User) (sid : nat) :
  finalPrice k st = Some p →
  orders (db st) !! id (c_order k) = Some o →
  users (db st) !! c_userId k = Some u →
  upValue (getOrderTotals sid (db (settle k st))) ==
    upValue (getOrderTotals sid (db st)) -
    (if Exposure.onSide sid "up" o then amount o else 0) ∧
  downValue (getOrderTotals sid (db (settle k st))) ==
    downValue (getOrderTotals sid (db st)) -
    (if Exposure.onSide sid "down" o then amount o else 0).
Proof.
  intros Hp Ho Hu.
  destruct (TotalsFacts.getOrderTotals_staked sid (db st)) as [Hup Hdn].
  destruct (TotalsFacts.getOrderTotals_staked sid (db (settle k st)))
    as [Hup' Hdn'].
  rewrite Hup', Hdn', Hup, Hdn.
  unfold settle. rewrite Hp. cbn [db withDb].
  destruct (ResolveFacts.resolveTrade_commits k p (db st) o u Ho Hu)
    as (-> & _).
  split; apply staked_insert; try done; apply onSide_settled.
Qed.

Lemma settlement_closes_exposure_witness :
  let k := Sample.closure (Sample.openOrder 1 "down" 30) in
  let st := Sample.state Sample.upDb 100 in
  finalPrice k st = Some (100 * 0.998) ∧
  downValue (getOrderTotals 1 (db (settle k st))) ==
    downValue (getOrderTotals 1 (db st)) - 30.
Proof.
  cbv zeta.
  set (k := Sample.closure (Sample.openOrder 1 "down" 30)).
  set (st := Sample.state Sample.upDb 100).
  assert (Hp : finalPrice k st = Some (100 * 0.998))
    by (vm_compute; reflexivity).
  assert (Ho : orders (db st) !! id (c_order k) =
               Some (Sample.openOrder 1 "down" 30)) by reflexivity.
  assert (Hu : users (db st) !! c_userId k = Some (mkUser 1000))
    by reflexivity.
  split; [exact Hp|].
  exact (proj2 (settlement_closes_exposure k st _ _ _ 1%nat Hp Ho Hu)).
Defined.

End ExposureFacts.

(** ** What the two manipulations do to a bet *)

Module BiasFacts.
Import Store Server PriceHandler.





End BiasFacts.

(** ** Publishing, and the price that is stored *)

Module PublishFacts.
Import Store Server PriceHandler.

Lemma manipulatedPrice_nonzero c up down p :
  Js.truthy c = true → manipulatedPrice c up down = Some p →
  Js.truthy p = true.
Proof.
  intros Hc Hp. apply JsFacts.truthy_spec in Hc. apply JsFacts.truthy_spec.
  destruct (Qlt_le_dec 0 (up + down)) as [Ht|Ht].
  - rewrite PriceHandlerFacts.manipulatedPrice_guarded in Hp by done.
    repeat case_match; simplify_eq; lra.
  - rewrite PriceHandlerFacts.manipulatedPrice_unguarded in Hp by done.
    by simplify_eq.
Qed.

Lemma getOrderTotals_orders sid (d d' : Db) :
  orders d = orders d' → getOrderTotals sid d = getOrderTotals sid d'.
Proof. intros H. unfold getOrderTotals. by rewrite H. Qed.

(** What the interval callback leaves when the feed has a price. *)
Lemma publish_priced symbol st sd c p :
  symbols (db st) !! symbol = Some sd →
  Feed.getCurrentPrice (priceCache st) symbol = Some c →
  manipulatedPrice c
    (upValue (getOrderTotals (sym_id sd) (db st)))
    (downValue (getOrderTotals (sym_id sd) (db st))) = Some p →
  publish symbol st =
    {| db :=
         {| users := users (db st); orders := orders (db st);
            symbols :=
              <[symbol := mkSymbol (sym_id sd) (Some p) (Some c)]>
                (symbols (db st));
            journal := journal (db st) ++ [SymbolUpdate symbol p (Some c)] |};
       manipulatedPrices := <[symbol := p]> (manipulatedPrices st);
       priceCache := priceCache st;
       timers := timers st |}.
Proof.
  intros Hs Hc Hp.
  pose proof (AdjustPriceFacts.getCurrentPrice_truthy _ _ _ Hc) as Hct.
  pose proof (manipulatedPrice_nonzero _ _ _ _ Hct Hp) as Hpt.
  unfold publish, PriceHandlerFeed.adjustPrice. rewrite Hs, Hc, Hp.
  simpl. rewrite Hs. simpl. by rewrite Hpt.
Qed.

(** X7.  Publishing and then settling.  When the symbol is known and the
    feed cache holds a price for it, the interval callback stores the
    manipulated price and the raw price in the row of the symbol, leaves
    users and orders as they are, and puts the manipulated price in the map
    that settlement reads first: a callback that fires next for an order of
    that symbol settles at the published price manipulated once more, not
    at the raw price. *)
Theorem published_price_settles (symbol : string) (st : State)
  (sd : Symbol) (c : Q) :
  symbols (db st) !! symbol = Some sd →
  Feed.getCurrentPrice (priceCache st) symbol = Some c →
  let up := upValue (getOrderTotals (sym_id sd) (db st)) in
  let down := downValue (getOrderTotals (sym_id sd) (db st)) in
  ∃ p,
    manipulatedPrice c up down = Some p ∧
    symbols (db (publish symbol st)) !! symbol =
      Some (mkSymbol (sym_id sd) (Some p) (Some c)) ∧
    users (db (publish symbol st)) = users (db st) ∧
    orders (db (publish symbol st)) = orders (db st) ∧
    readPrice (publish symbol st) symbol = Some p ∧
    ∀ k, c_symbol k = symbol → c_symbolId k = sym_id sd →
         finalPrice k (publish symbol st) = Some (lastSecond p up down).
Proof.
  intros Hs Hc up down.
  destruct (PriceHandlerFacts.manipulatedPrice_total c up down) as [p Hp].
  pose proof (AdjustPriceFacts.getCurrentPrice_truthy _ _ _ Hc) as Hct.
  pose proof (manipulatedPrice_nonzero _ _ _ _ Hct Hp) as Hpt.
  exists p. rewrite (publish_priced symbol st sd c p Hs Hc Hp). cbn [db].
  split; [done|]. split; [cbn; by rewrite lookup_insert_eq|].
  split; [done|]. split; [done|].
  assert (Hr : ∀ st', manipulatedPrices st' !! symbol = Some p →
                      readPrice st' symbol = Some p).
  { intros st' Hm. unfold readPrice, Js.or. rewrite Hm. simpl.
    by rewrite Hpt. }
  split.
  - apply Hr. cbn. by rewrite lookup_insert_eq.
  - intros k Hk Hid. rewrite (SettleFacts.finalPrice_read k _ p).
    + rewrite Hid. done.
    + rewrite Hk. apply Hr. cbn. by rewrite lookup_insert_eq.
Qed.

Lemma published_price_settles_witness :
  let st := Sample.state Sample.upDb 100 in
  let k := Sample.closure (Sample.openOrder 0 "up" 70) in
  symbols (db st) !! "BTCUSDT"%string = Some Sample.btc ∧
  Feed.getCurrentPrice (priceCache st) "BTCUSDT" = Some 100 ∧
  ∃ q, finalPrice k (publish "BTCUSDT" st) = Some q ∧
       q == 100 * 0.998 * 0.998.
Proof.
  cbv zeta.
  set (st := Sample.state Sample.upDb 100).
  set (k := Sample.closure (Sample.openOrder 0 "up" 70)).
  assert (Hs : symbols (db st) !! "BTCUSDT"%string = Some Sample.btc)
    by reflexivity.
  assert (Hc : Feed.getCurrentPrice (priceCache st) "BTCUSDT" = Some 100)
    by reflexivity.
  split; [exact Hs|]. split; [exact Hc|].
  destruct (published_price_settles "BTCUSDT" st Sample.btc 100 Hs Hc)
    as (p & Hp & _ & _ & _ & _ & Hfin).
  eexists. split; [exact (Hfin k eq_refl eq_refl)|].
  assert (p = 100 * 0.998) as -> by (vm_compute in Hp; by injection Hp).
  reflexivity.
Defined.

(** X8.  Without a price in the feed cache, as in a process that has just
    started, the interval callback serves the price last stored in the row
    of the symbol: it writes nothing to the store and, when that price is
    not missing or zero, puts it in the map of published prices, where
    settlement reads it.  For a symbol that is not in the store it changes
    nothing. *)
Theorem publish_serves_stored_price (symbol : string) (st : State) :
  (symbols (db st) !! symbol = None → publish symbol st = st) ∧
  (∀ sd, symbols (db st) !! symbol = Some sd →
         Feed.getCurrentPrice (priceCache st) symbol = None →
         db (publish symbol st) = db st ∧
         timers (publish symbol st) = timers st ∧
         (∀ m, sym_manipulatedPrice sd = Some m → Js.truthy m = true →
               manipulatedPrices (publish symbol st) =
                 <[symbol := m]> (manipulatedPrices st) ∧
               readPrice (publish symbol st) symbol = Some m) ∧
         (Js.truthy_opt Js.truthy (sym_manipulatedPrice sd) = false →
          publish symbol st = st)).
Proof.
  split.
  - intros Hs. unfold publish, PriceHandlerFeed.adjustPrice. rewrite Hs.
    by destruct st.
  - intros sd Hs Hc.
    unfold publish, PriceHandlerFeed.adjustPrice. rewrite Hs, Hc.
    destruct (sym_manipulatedPrice sd) as [m|] eqn:Em.
    + destruct (Js.truthy m) eqn:Et.
      * split; [done|]. split; [done|]. split.
        2: { intros Hf. simpl in Hf. congruence. }
        intros m' Hm' _. simplify_eq. split; [done|].
        unfold readPrice, Js.or. cbn. rewrite lookup_insert_eq. simpl.
        by rewrite Et.
      * split; [done|]. split; [done|]. split.
        { intros m' Hm' Ht'. simplify_eq. congruence. }
        intros _. by destruct st.
    + split; [done|]. split; [done|]. split; [done|].
      intros _. by destruct st.
Qed.

Lemma publish_serves_stored_price_witness :
  let d := withSymbols Sample.emptyDb
             {[ "BTCUSDT"%string := mkSymbol 1 (Some 99.8) (Some 100) ]} in
  symbols d !! "BTCUSDT"%string = Some (mkSymbol 1 (Some 99.8) (Some 100)) ∧
  readPrice (publish "BTCUSDT" (start d)) "BTCUSDT" = Some 99.8.
Proof.
  cbv zeta.
  set (d := withSymbols Sample.emptyDb
              {[ "BTCUSDT"%string := mkSymbol 1 (Some 99.8) (Some 100) ]}).
  assert (Hs : symbols (db (start d)) !! "BTCUSDT"%string =
               Some (mkSymbol 1 (Some 99.8) (Some 100))) by reflexivity.
  split; [exact Hs|].
  destruct (publish_serves_stored_price "BTCUSDT" (start d)) as [_ H].
  destruct (H _ Hs eq_refl) as (_ & _ & Hm & _).
  exact (proj2 (Hm 99.8 eq_refl eq_refl)).
Defined.

(** X9.  The fallback of the revision that fetches with retries.  A call
    that fetched a non-zero price for a known symbol stores the
    manipulated price; a later call whose fetch failed or gave zero returns
    that stored price and writes nothing. *)
Theorem stored_price_is_the_fallback (symbol : string) (bp : Q) (d : Db)
  (sd : Symbol) :
  symbols d !! symbol = Some sd → Js.truthy bp = true →
  ∃ p d',
    PriceHandlerRetry.adjustPrice symbol (Some bp) d = (Some p, d') ∧
    manipulatedPrice bp
      (upValue (getOrderTotals (sym_id sd) d))
      (downValue (getOrderTotals (sym_id sd) d)) = Some p ∧
    symbols d' !! symbol = Some (mkSymbol (sym_id sd) (Some p) (Some bp)) ∧
    ∀ failed, Js.truthy_opt Js.truthy failed = false →
              PriceHandlerRetry.adjustPrice symbol failed d' = (Some p, d').
Proof.
  intros Hs Hb.
  set (t := getOrderTotals (sym_id sd) d).
  destruct (PriceHandlerFacts.manipulatedPrice_total bp (upValue t)
              (downValue t)) as [p Hp].
  exists p. eexists. split; [|split; [exact Hp|]].
  - unfold PriceHandlerRetry.adjustPrice. rewrite Hs.
    cbn [Js.truthy_opt]. rewrite Hb. cbn [negb mbind option_bind].
    fold t. rewrite Hp. simpl. rewrite Hs. simpl. reflexivity.
  - split; [simpl; by rewrite lookup_insert_eq|].
    intros failed Hf. unfold PriceHandlerRetry.adjustPrice. simpl.
    rewrite lookup_insert_eq, Hf. reflexivity.
Qed.

Lemma stored_price_is_the_fallback_witness :
  symbols Sample.upDb !! "BTCUSDT"%string = Some Sample.btc ∧
  Js.truthy 100 = true ∧
  ∃ p d',
    PriceHandlerRetry.adjustPrice "BTCUSDT" (Some 100) Sample.upDb =
      (Some p, d') ∧
    PriceHandlerRetry.adjustPrice "BTCUSDT" None d' = (Some p, d').
Proof.
  assert (Hs : symbols Sample.upDb !! "BTCUSDT"%string = Some Sample.btc)
    by reflexivity.
  assert (Hb : Js.truthy 100 = true) by reflexivity.
  split; [exact Hs|]. split; [exact Hb|].
  destruct (stored_price_is_the_fallback "BTCUSDT" 100 Sample.upDb
              Sample.btc Hs Hb) as (p & d' & H1 & _ & _ & H2).
  exists p, d'. split; [exact H1|]. exact (H2 None eq_refl).
Defined.

End PublishFacts.

(** ** What a run keeps *)

Module InvariantFacts.
Import Store Server Invariants.

Lemma sameTerms_refl o : sameTerms o o.
Proof. by repeat split. Qed.

Lemma sameTerms_trans o1 o2 o3 :
  sameTerms o1 o2 → sameTerms o2 o3 → sameTerms o1 o3.
Proof.
  unfold sameTerms. intros H1 H2.
  destruct H1 as (?&?&?&?&?&?&?&?&?&?), H2 as (?&?&?&?&?&?&?&?&?&?).
  repeat split; congruence.
Qed.

Lemma sameTerms_settled o exit mexit out pl :
  sameTerms o (settled o exit mexit out pl).
Proof. by repeat split. Qed.

Lemma keepsOrders_refl st : keepsOrders st st.
Proof.
  intros i o H. exists o. split; [done|].
  split; [apply sameTerms_refl|done].
Qed.

Lemma keepsOrders_db st st' : db st' = db st → keepsOrders st st'.
Proof.
  intros Hdb i o H. exists o. rewrite Hdb.
  split; [done|]. split; [apply sameTerms_refl|done].
Qed.

Lemma sameUsers_db st st' : db st' = db st → sameUsers st st'.
Proof. intros Hdb uid. by rewrite Hdb. Qed.

Lemma keepsOrders_trans st1 st2 st3 :
  keepsOrders st1 st2 → keepsOrders st2 st3 → keepsOrders st1 st3.
Proof.
  intros H12 H23 i o Ho.
  destruct (H12 i o Ho) as (o2 & Ho2 & Ht2 & Hout2).
  destruct (H23 i o2 Ho2) as (o3 & Ho3 & Ht3 & Hout3).
  exists o3. split; [done|]. split; [by eapply sameTerms_trans|auto].
Qed.

Lemma sameUsers_refl st : sameUsers st st.
Proof. by intros uid. Qed.

Lemma sameUsers_trans st1 st2 st3 :
  sameUsers st1 st2 → sameUsers st2 st3 → sameUsers st1 st3.
Proof. intros H12 H23 uid. etrans; [apply H23|apply H12]. Qed.

(** The callback either leaves the store as it is or commits its
    transaction on an order and a user that are there. *)
Lemma settle_effect k st :
  db (settle k st) = db st ∨
  ∃ p o u,
    finalPrice k st = Some p ∧
    orders (db st) !! id (c_order k) = Some o ∧
    users (db st) !! c_userId k = Some u ∧
    orders (db (settle k st)) =
      <[id (c_order k) :=
          settled o p p
            (if isWin (c_direction k) p (manipulatedEntryPrice (c_order k))
             then "win" else "loss")
            (profitLoss
               (isWin (c_direction k) p (manipulatedEntryPrice (c_order k)))
               (c_amount k))]> (orders (db st)) ∧
    users (db (settle k st)) =
      (if isWin (c_direction k) p (manipulatedEntryPrice (c_order k))
       then <[c_userId k :=
                mkUser (balance u +
                        (c_amount k +
                         profitLoss
                           (isWin (c_direction k) p
                              (manipulatedEntryPrice (c_order k)))
                           (c_amount k)))]> (users (db st))
       else users (db st)) ∧
    journal (db (settle k st)) = journal (db st) ++ settlementWrites k p.
Proof.
  unfold settle. destruct (finalPrice k st) as [p|] eqn:Ep; [|by left].
  cbn [db withDb].
  destruct (orders (db st) !! id (c_order k)) as [o|] eqn:Ho;
    [|left; by rewrite ResolveFacts.resolveTrade_throws by auto].
  destruct (users (db st) !! c_userId k) as [u|] eqn:Hu;
    [|left; by rewrite ResolveFacts.resolveTrade_throws by auto].
  right. exists p, o, u.
  destruct (ResolveFacts.resolveTrade_commits k p (db st) o u Ho Hu)
    as (Hos & Hus & _ & Hj).
  by repeat (split; [done|]).
Qed.

Lemma settle_keepsOrders k st : keepsOrders st (settle k st).
Proof.
  destruct (settle_effect k st) as [Hdb|(p & o & u & _ & Ho & _ & Hos & _)].
  - intros i x Hx. exists x. rewrite Hdb.
    split; [done|]. split; [apply sameTerms_refl|done].
  - intros i x Hx. rewrite Hos.
    destruct (decide (i = id (c_order k))) as [->|Hne].
    + rewrite list_lookup_insert_eq by (by eapply lookup_lt_Some).
      simplify_eq. eexists. split; [done|].
      split; [apply sameTerms_settled|]. intros _. by eexists.
    + rewrite list_lookup_insert_ne by done.
      exists x. split; [done|]. split; [apply sameTerms_refl|done].
Qed.

Lemma settle_sameUsers k st : sameUsers st (settle k st).
Proof.
  destruct (settle_effect k st) as [Hdb|(p & o & u & _ & _ & Hu & _ & Hus & _)].
  - intros uid. by rewrite Hdb.
  - intros uid. rewrite Hus. destruct (isWin _ _ _); [|done].
    destruct (decide (uid = c_userId k)) as [->|Hne].
    + rewrite lookup_insert_eq, Hu. split; intros _; by eexists.
    + by rewrite lookup_insert_ne.
Qed.

Lemma publish_store symbol st :
  users (db (publish symbol st)) = users (db st) ∧
  orders (db (publish symbol st)) = orders (db st) ∧
  timers (publish symbol st) = timers st ∧
  priceCache (publish symbol st) = priceCache st.
Proof.
  unfold publish, PriceHandlerFeed.adjustPrice.
  destruct (symbols (db st) !! symbol) as [sd|] eqn:Es; [|done].
  destruct (Feed.getCurrentPrice _ _) as [cp|].
  2: { by destruct (sym_manipulatedPrice sd) as [mp|];
         [destruct (Js.truthy mp)|]. }
  destruct (PriceHandler.manipulatedPrice _ _ _) as [p|]; [|done].
  simpl. rewrite Es. simpl. by destruct (Js.truthy p).
Qed.

(** One event, case by case: a request that is not accepted changes
    nothing; the others are told apart by what they touch. *)
Lemma postOrder_cases now b st :
  (postOrder now b st).2 = st ∨
  ∃ symbol amount direction duration u,
    b_amount b = Some amount ∧
    users (db st) !! b_userId b = Some u ∧ amount <= balance u ∧
    (postOrder now b st).2 =
      (accepted now b st symbol amount direction duration u).2.
Proof.
  destruct (postOrder now b st) as [[order|e|e] st'] eqn:E.
  - right.
    destruct (ExposureFacts.postOrder_201_inv _ _ _ _ _ E)
      as (symbol & amount & direction & duration & u & _ & _ & Ha & _ & _
          & Hu & Hle & Hacc).
    exists symbol, amount, direction, duration, u.
    repeat (split; [done|]). by rewrite <- Hacc.
  - left.
    destruct (invalidInput b) eqn:Einv.
    { rewrite IntakeFacts.postOrder_invalid in E by done. by simplify_eq. }
    destruct (IntakeFacts.valid_fields b Einv)
      as (symbol & amount & direction & duration & Hs & Ha & Hd & Ht & _).
    destruct (users (db st) !! b_userId b) as [u|] eqn:Eu.
    2: { rewrite IntakeFacts.postOrder_unknown_user in E by done.
         by simplify_eq. }
    destruct (Qlt_le_dec (balance u) amount) as [Hlt|Hle].
    { rewrite (IntakeFacts.postOrder_insufficient now b st u amount) in E
        by done. by simplify_eq. }
    rewrite (IntakeFacts.postOrder_accepts now b st symbol amount direction
               duration u) in E by done. done.
  - left.
    destruct (invalidInput b) eqn:Einv.
    { rewrite IntakeFacts.postOrder_invalid in E by done. by simplify_eq. }
    destruct (IntakeFacts.valid_fields b Einv)
      as (symbol & amount & direction & duration & Hs & Ha & Hd & Ht & _).
    destruct (users (db st) !! b_userId b) as [u|] eqn:Eu.
    2: { rewrite IntakeFacts.postOrder_unknown_user in E by done.
         by simplify_eq. }
    destruct (Qlt_le_dec (balance u) amount) as [Hlt|Hle].
    { rewrite (IntakeFacts.postOrder_insufficient now b st u amount) in E
        by done. by simplify_eq. }
    rewrite (IntakeFacts.postOrder_accepts now b st symbol amount direction
               duration u) in E by done. done.
Qed.

Lemma step_keepsOrders st ev : keepsOrders st (step st ev).
Proof.
  destruct ev as [now b|symbol|data|n]; simpl.
  - destruct (postOrder_cases now b st)
      as [->|(symbol & amount & direction & duration & u & _ & _ & _ & ->)].
    + apply keepsOrders_refl.
    + intros i o Ho. exists o. unfold accepted. cbn [snd db orders].
      rewrite lookup_app_l by (by eapply lookup_lt_Some).
      split; [done|]. split; [apply sameTerms_refl|done].
  - destruct (publish_store symbol st) as (_ & Ho & _).
    intros i o Hi. exists o. rewrite Ho.
    split; [done|]. split; [apply sameTerms_refl|done].
  - by apply keepsOrders_db.
  - destruct (timers st !! n) as [t|]; [|apply keepsOrders_refl].
    apply (settle_keepsOrders (callback t)
             (withTimers st (delete n (timers st)))).
Qed.

Lemma step_sameUsers st ev : sameUsers st (step st ev).
Proof.
  destruct ev as [now b|symbol|data|n]; simpl.
  - destruct (postOrder_cases now b st)
      as [->|(symbol & amount & direction & duration & u & _ & Hu & _ & ->)].
    + apply sameUsers_refl.
    + intros uid. unfold accepted. cbn [snd db users].
      destruct (decide (uid = b_userId b)) as [->|Hne].
      * rewrite lookup_insert_eq, Hu. split; intros _; by eexists.
      * by rewrite lookup_insert_ne.
  - destruct (publish_store symbol st) as (Hu & _).
    intros uid. by rewrite Hu.
  - by apply sameUsers_db.
  - destruct (timers st !! n) as [t|]; [|apply sameUsers_refl].
    apply (settle_sameUsers (callback t)
             (withTimers st (delete n (timers st)))).
Qed.

Lemma run_keepsOrders evs st : keepsOrders st (run evs st).
Proof.
  revert st. induction evs as [|ev evs IH]; intros st.
  - apply keepsOrders_refl.
  - simpl. eapply keepsOrders_trans; [apply step_keepsOrders|apply IH].
Qed.

Lemma run_sameUsers evs st : sameUsers st (run evs st).
Proof.
  revert st. induction evs as [|ev evs IH]; intros st.
  - apply sameUsers_refl.
  - simpl. eapply sameUsers_trans; [apply step_sameUsers|apply IH].
Qed.

(** X10.  No event deletes an order or changes its terms.  After any
    events every order that was stored is still stored at the same
    position with the same id, user, symbol, amount, direction, entry
    prices, duration, expiry and payout ratio, and an order that had an
    outcome still has one; the table never gets shorter. *)
Theorem orders_keep_their_terms (evs : list Event) (st : State) :
  keepsOrders st (run evs st) ∧
  (length (orders (db st)) ≤ length (orders (db (run evs st))))%nat.
Proof.
  split; [apply run_keepsOrders|].
  destruct (orders (db st)) as [|o os] eqn:E using rev_ind; [simpl; lia|].
  clear IHos.
  destruct (run_keepsOrders evs st (length os) o) as (o' & Ho' & _).
  { rewrite E. by apply list_lookup_middle. }
  apply lookup_lt_Some in Ho'. rewrite length_app. simpl. lia.
Qed.

(** X11.  No event adds or removes a user, and only an accepted request
    and a settlement touch a balance: the publishing interval and the
    frames of the feed leave every user as it is. *)
Theorem users_are_kept (evs : list Event) (st : State) :
  sameUsers st (run evs st) ∧
  (∀ symbol, users (db (step st (Interval symbol))) = users (db st)) ∧
  (∀ data, users (db (step st (Frame data))) = users (db st)).
Proof.
  split; [apply run_sameUsers|]. split.
  - intros symbol. simpl. by destruct (publish_store symbol st) as (-> & _).
  - done.
Qed.

Lemma armedWell_mono st st' t :
  keepsOrders st st' → sameUsers st st' → armedWell st t → armedWell st' t.
Proof.
  intros Hk Hu (o & Ho & Hterms & Ha & Hd & Hi & Hs & Hp & Hex).
  destruct (Hk _ _ Ho) as (o' & Ho' & Hterms' & _).
  exists o'. split; [done|].
  split; [by eapply sameTerms_trans|].
  destruct Hterms' as (?&?&?&?&?&?&?&?&?&?).
  repeat split; try congruence. by apply Hu.
Qed.

Lemma step_consistent st ev : consistent st → consistent (step st ev).
Proof.
  intros Hc.
  assert (Hold : Forall (armedWell (step st ev)) (timers st)).
  { eapply Forall_impl; [exact Hc|]. intros t.
    apply armedWell_mono; [apply step_keepsOrders|apply step_sameUsers]. }
  unfold consistent.
  destruct ev as [now b|symbol|data|n]; simpl in *.
  - destruct (postOrder_cases now b st)
      as [Heq|(symbol & amount & direction & duration & u & _ & Hu & _ & Heq)];
      rewrite Heq in *; [done|].
    unfold accepted in *. cbn [snd timers] in *.
    apply Forall_app. split; [done|]. apply Forall_singleton.
    eexists. cbn [callback c_order db orders id newOrder].
    split; [by apply list_lookup_middle|].
    split; [apply sameTerms_refl|].
    do 5 (split; [done|]).
    cbn [c_userId users]. rewrite lookup_insert_eq. by eexists.
  - by destruct (publish_store symbol st) as (_ & _ & -> & _).
  - done.
  - destruct (timers st !! n) as [t|] eqn:Et; [|done].
    destruct (RunFacts.settle_frame (callback t)
                (withTimers st (delete n (timers st)))) as (-> & _).
    cbn [timers withTimers]. by apply Forall_delete.
Qed.

Lemma run_consistent evs st : consistent st → consistent (run evs st).
Proof.
  revert st. induction evs as [|ev evs IH]; intros st H; [done|].
  simpl. apply IH. by apply step_consistent.
Qed.

(** X12.  In a process that started with no timer armed, every armed
    timer agrees with the store: the order it settles is stored under its
    id with the amount, direction, user and symbol of the closure and a
    payout ratio of 0.8, and its user exists.  So when such a timer expires
    and a price is at hand the settlement transaction does not throw: the
    outcome of the order is written. *)
Theorem armed_timers_commit (d : Db) (evs : list Event) (n : nat)
  (t : Timer) (p : Q) :
  timers (run evs (start d)) !! n = Some t →
  finalPrice (callback t) (run evs (start d)) = Some p →
  armedWell (run evs (start d)) t ∧
  journal (db (step (run evs (start d)) (Expire n))) =
    journal (db (run evs (start d))) ++ settlementWrites (callback t) p ∧
  ∃ o', orders (db (step (run evs (start d)) (Expire n)))
          !! id (c_order (callback t)) = Some o' ∧
        is_Some (outcome o').
Proof.
  intros Ht Hp. set (st := run evs (start d)) in *.
  assert (Hc : consistent st).
  { apply run_consistent. unfold consistent. simpl. by apply Forall_nil. }
  assert (Hw : armedWell st t).
  { unfold consistent in Hc. rewrite Forall_lookup in Hc. by eapply Hc. }
  split; [done|].
  destruct Hw as (o & Ho & _ & _ & _ & _ & _ & _ & (u & Hu)).
  simpl. rewrite Ht.
  set (st1 := withTimers st (delete n (timers st))).
  change (finalPrice (callback t) st1 = Some p) in Hp.
  change (orders (db st1) !! id (c_order (callback t)) = Some o) in Ho.
  change (users (db st1) !! c_userId (callback t) = Some u) in Hu.
  split.
  - by apply (RunFacts.settle_commits_journal (callback t) st1 p o u).
  - unfold settle. rewrite Hp. cbn [db withDb].
    destruct (ResolveFacts.resolveTrade_commits _ p _ o u Ho Hu) as (-> & _).
    rewrite list_lookup_insert_eq by (by eapply lookup_lt_Some).
    eexists. split; [done|]. by eexists.
Qed.

Lemma armed_timers_commit_witness :
  let evs := [Frame (Some (Sample.ticker 1 100));
              Post 0 (Sample.body 10 "up")] in
  let k := Sample.closure (Sample.openOrder 0 "up" 10) in
  timers (run evs (start Sample.emptyDb)) !! 0%nat =
    Some (mkTimer k (60 * 1000)) ∧
  finalPrice k (run evs (start Sample.emptyDb)) = Some (100 * 0.998) ∧
  ∃ o', orders (db (step (run evs (start Sample.emptyDb)) (Expire 0)))
          !! 0%nat = Some o' ∧
        is_Some (outcome o').
Proof.
  cbv zeta.
  set (evs := [Frame (Some (Sample.ticker 1 100));
               Post 0 (Sample.body 10 "up")]).
  set (k := Sample.closure (Sample.openOrder 0 "up" 10)).
  assert (Ht : timers (run evs (start Sample.emptyDb)) !! 0%nat =
               Some (mkTimer k (60 * 1000))) by (vm_compute; reflexivity).
  assert (Hp : finalPrice (callback (mkTimer k (60 * 1000)))
                 (run evs (start Sample.emptyDb)) = Some (100 * 0.998))
    by (vm_compute; reflexivity).
  split; [exact Ht|]. split; [exact Hp|].
  exact (proj2 (proj2 (armed_timers_commit Sample.emptyDb evs 0 _ _ Ht Hp))).
Defined.

Lemma step_solvent st ev :
  solvent st → stakesNonNegative ev → solvent (step st ev).
Proof.
  intros [Hb Ht] Hev. destruct ev as [now b|symbol|data|n]; simpl in *.
  - destruct (postOrder_cases now b st)
      as [->|(symbol & amount & direction & duration & u & Ha & Hu & Hle
              & ->)]; [done|].
    rewrite Ha in Hev. unfold accepted. cbn [snd]. split; cbn.
    + intros uid x. destruct (decide (uid = b_userId b)) as [->|Hne].
      * rewrite lookup_insert_eq. intros ?. simplify_eq. simpl. lra.
      * rewrite lookup_insert_ne by done. apply Hb.
    + apply Forall_app. split; [done|]. by apply Forall_singleton.
  - destruct (publish_store symbol st) as (Hu & _ & Htm & _).
    split; [by rewrite Hu|by rewrite Htm].
  - done.
  - destruct (timers st !! n) as [t|] eqn:Et; [|done].
    set (st1 := withTimers st (delete n (timers st))).
    destruct (RunFacts.settle_frame (callback t) st1) as (Htm & _).
    split; [|rewrite Htm; by apply Forall_delete].
    assert (Hamt : 0 <= c_amount (callback t)).
    { rewrite Forall_lookup in Ht. by apply (Ht n t). }
    destruct (settle_effect (callback t) st1)
      as [->|(p & o & u & _ & _ & Hu & _ & -> & _)]; [done|].
    destruct (isWin _ _ _); [|done].
    intros uid x. destruct (decide (uid = c_userId (callback t))) as [->|Hne].
    + rewrite lookup_insert_eq. intros ?. simplify_eq. simpl.
      assert (0 <= balance u) by (by apply (Hb _ _ Hu)). lra.
    + rewrite lookup_insert_ne by done. apply Hb.
Qed.

(** With each handler run to its end before the next, no balance becomes
    negative as long as no request stakes a negative amount: the debit
    does not exceed the balance that was tested, and a credit is 1.8 times
    a stake that is not negative. *)
Lemma run_solvent (evs : list Event) (st : State) :
  solvent st → Forall stakesNonNegative evs → solvent (run evs st).
Proof.
  revert st. induction evs as [|ev evs IH]; intros st Hs Hevs; [done|].
  apply Forall_cons in Hevs as [Hev Hevs].
  simpl. apply IH; [|done]. by apply step_solvent.
Qed.

(** The condition on the stakes is needed: a stake of -5 is accepted from
    a user with a balance of 0, and when that order wins the credit of -9
    leaves the balance at -4. *)
Lemma negative_stake_overdraws :
  let d := withUsers Sample.emptyDb {[ 1%nat := mkUser 0 ]} in
  let evs := [Frame (Some (Sample.ticker 1 100));
              Post 0 (Sample.body (-5) "down"); Expire 0] in
  ∃ u, users (db (run evs (start d))) !! 1%nat = Some u ∧ balance u == -4.
Proof.
  cbv zeta. eexists. split; [vm_compute; reflexivity|]. reflexivity.
Qed.

End InvariantFacts.

(** ** The life of an order *)

Module LifecycleFacts.
Import Store Server PriceHandler.



End LifecycleFacts.

(** ** Two requests at once *)

Module InterleavingFacts.
Import Store Server Invariants.

Local Abbreviation findUser := Interleaved.findUser.
Local Abbreviation transact := Interleaved.transact.
Local Abbreviation mkSuspended := Interleaved.mkSuspended.
Local Abbreviation idle := Interleaved.idle.
Local Abbreviation serial := Interleaved.serial.
Local Abbreviation Arrive := Interleaved.Arrive.
Local Abbreviation Resume := Interleaved.Resume.

(** The handler that is not interrupted is [postOrder]. *)
Lemma postOrder_uninterrupted now b st :
  postOrder now b st =
    match findUser now b (idle st) with
    | (Some response, _) => (response, st)
    | (None, _) => transact (mkSuspended now b) st
    end.
Proof.
  unfold postOrder, Interleaved.findUser, Interleaved.transact.
  cbn [Interleaved.server Interleaved.idle Interleaved.s_body
       Interleaved.s_now].
  destruct (invalidInput b) eqn:Hv; [done|].
  destruct (IntakeFacts.valid_fields b Hv)
    as (symbol & amount & direction & duration & -> & -> & -> & -> & _).
  destruct (users (db st) !! b_userId b) as [u|]; [|done].
  by destruct (Js.lt (balance u) amount).
Qed.

Lemma findUser_passes now b h u amount :
  invalidInput b = false → b_amount b = Some amount →
  users (db (Interleaved.server h)) !! b_userId b = Some u →
  amount <= balance u →
  findUser now b h =
    (None,
     Interleaved.mkState (Interleaved.server h)
       (Interleaved.suspended h ++ [mkSuspended now b])).
Proof.
  intros Hv Ha Hu Hle. unfold Interleaved.findUser.
  rewrite Hv, Ha, Hu. apply JsFacts.lt_false in Hle. by rewrite Hle.
Qed.

(** The transaction does not test the balance: it commits whenever the
    user exists. *)
Lemma transact_accepts now b st symbol amount direction duration u :
  b_symbol b = Some symbol → b_amount b = Some amount →
  b_direction b = Some direction → b_duration b = Some duration →
  users (db st) !! b_userId b = Some u →
  transact (mkSuspended now b) st =
    (Status201 (accepted now b st symbol amount direction duration u).1,
     (accepted now b st symbol amount direction duration u).2).
Proof.
  intros Hs Ha Hd Ht Hu. unfold Interleaved.transact.
  cbn [Interleaved.s_body Interleaved.s_now].
  rewrite Hs, Ha, Hd, Ht.
  cbn [transaction write]. simpl. rewrite Hu. simpl.
  unfold accepted, withTimers, withDb, logged, withUsers, withOrders. simpl.
  by rewrite <- !(assoc_L (++)).
Qed.

Lemma run_serial evs st :
  Interleaved.run (serial evs) (idle st) = idle (run evs st).
Proof.
  revert st. induction evs as [|ev evs IH]; intros st; [done|].
  change (serial (ev :: evs)) with
    (match ev with
     | Post now b => [Arrive now b; Resume 0]
     | _ => [Interleaved.Other ev]
     end ++ serial evs).
  unfold Interleaved.run. rewrite foldl_app.
  change (foldl Interleaved.step ?h (serial evs))
    with (Interleaved.run (serial evs) h).
  change (run (ev :: evs) st) with (run evs (step st ev)).
  rewrite <- IH. f_equal.
  destruct ev as [now b|symbol|data|n]; try done.
  cbn [foldl Interleaved.step step].
  rewrite (postOrder_uninterrupted now b st).
  unfold Interleaved.findUser.
  cbn [Interleaved.server Interleaved.suspended Interleaved.idle].
  destruct (invalidInput b); [done|].
  destruct (b_amount b) as [amount|]; [|done].
  destruct (users (db st) !! b_userId b) as [u|]; [|done].
  by destruct (Js.lt (balance u) amount).
Qed.

(** X13.  The balance test guards the debit only while nothing comes
    between the two.  When the handler of each request runs to its end
    before anything else happens, and no request stakes a negative amount,
    no balance becomes negative.  But the handler awaits between the test
    and the transaction, and the transaction does not read the balance
    again: when two requests of one user have both passed the test before
    the transaction of either is applied, both orders are created and both
    amounts are debited, and the balance ends at what it was minus the two
    amounts, below zero when together they exceed it. *)
Theorem test_does_not_guard_debit (evs : list Event) (st : State)
  (now1 now2 : Q) (b1 b2 : Body) (a1 a2 : Q) (u : User) :
  (solvent st → Forall stakesNonNegative evs →
   solvent (Interleaved.server (Interleaved.run (serial evs) (idle st)))) ∧
  (invalidInput b1 = false → invalidInput b2 = false →
   b_amount b1 = Some a1 → b_amount b2 = Some a2 →
   b_userId b2 = b_userId b1 →
   users (db st) !! b_userId b1 = Some u →
   a1 <= balance u → a2 <= balance u →
   let raced :=
     Interleaved.run [Arrive now1 b1; Arrive now2 b2; Resume 0; Resume 0]
       (idle st) in
   Interleaved.suspended raced = [] ∧
   length (orders (db (Interleaved.server raced))) =
     S (S (length (orders (db st)))) ∧
   ∃ u', users (db (Interleaved.server raced)) !! b_userId b1 = Some u' ∧
         balance u' == balance u - a1 - a2 ∧
         (balance u < a1 + a2 → balance u' < 0)).
Proof.
  split.
  { intros Hs Hevs. rewrite run_serial. by apply InvariantFacts.run_solvent. }
  intros Hv1 Hv2 Ha1 Ha2 Hid Hu Hle1 Hle2 raced.
  destruct (IntakeFacts.valid_fields b1 Hv1)
    as (s1 & a1' & d1 & t1 & Hs1 & Ha1' & Hd1 & Ht1 & _).
  destruct (IntakeFacts.valid_fields b2 Hv2)
    as (s2 & a2' & d2 & t2 & Hs2 & Ha2' & Hd2 & Ht2 & _).
  assert (a1' = a1) as -> by congruence.
  assert (a2' = a2) as -> by congruence.
  subst raced. unfold Interleaved.run. cbn [foldl Interleaved.step].
  rewrite (findUser_passes now1 b1 (idle st) u a1) by done.
  cbn [snd Interleaved.server Interleaved.suspended Interleaved.idle app].
  rewrite (findUser_passes now2 b2 _ u a2) by (by rewrite ?Hid).
  cbn [snd Interleaved.server Interleaved.suspended app lookup
       list_lookup delete list_delete].
  rewrite (transact_accepts now1 b1 st s1 a1 d1 t1 u) by done.
  set (st1 := (accepted now1 b1 st s1 a1 d1 t1 u).2).
  assert (Hu1 : users (db st1) !! b_userId b2 =
                Some (mkUser (balance u - a1))).
  { unfold st1, accepted. cbn [snd db users].
    by rewrite Hid, lookup_insert_eq. }
  cbn [snd]. fold st1.
  rewrite (transact_accepts now2 b2 st1 s2 a2 d2 t2 _) by done.
  cbn [snd Interleaved.server Interleaved.suspended].
  split; [done|]. split.
  { unfold st1, accepted. cbn [snd db orders]. rewrite !length_app.
    simpl. lia. }
  unfold accepted at 1. cbn [snd db users].
  rewrite <- Hid, lookup_insert_eq. eexists. split; [done|].
  cbn [balance]. split; [lra|]. intros Hlt. lra.
Qed.

Lemma test_does_not_guard_debit_witness :
  let evs := [Frame (Some (Sample.ticker 1 100));
              Post 0 (Sample.body 1000 "down"); Expire 0] in
  let b := Sample.body 600 "up" in
  solvent (start Sample.emptyDb) ∧ Forall stakesNonNegative evs ∧
  solvent
    (Interleaved.server
       (Interleaved.run (serial evs) (idle (start Sample.emptyDb)))) ∧
  ∃ u', users
          (db (Interleaved.server
                 (Interleaved.run
                    [Arrive 0 b; Arrive 1 b; Resume 0; Resume 0]
                    (idle (start Sample.emptyDb))))) !! 1%nat = Some u' ∧
        balance u' == -200.
Proof.
  cbv zeta.
  set (evs := [Frame (Some (Sample.ticker 1 100));
               Post 0 (Sample.body 1000 "down"); Expire 0]).
  set (b := Sample.body 600 "up").
  assert (Hs : solvent (start Sample.emptyDb)).
  { split; [|by apply Forall_nil]. intros uid u Hu.
    destruct (decide (uid = 1%nat)) as [->|Hne].
    - vm_compute in Hu. injection Hu as <-. vm_compute. discriminate.
    - simpl in Hu. by rewrite lookup_singleton_ne in Hu. }
  assert (Hevs : Forall stakesNonNegative evs).
  { repeat constructor. vm_compute. discriminate. }
  assert (Hv : invalidInput b = false) by reflexivity.
  assert (Ha : b_amount b = Some 600) by reflexivity.
  assert (Hu : users (db (start Sample.emptyDb)) !! b_userId b =
               Some (mkUser 1000)) by reflexivity.
  assert (Hle : 600 <= balance (mkUser 1000)) by (vm_compute; discriminate).
  destruct (test_does_not_guard_debit evs (start Sample.emptyDb) 0 1 b b
              600 600 (mkUser 1000)) as [Hserial Hrace].
  split; [exact Hs|]. split; [exact Hevs|].
  split; [exact (Hserial Hs Hevs)|].
  destruct (Hrace Hv Hv Ha Ha eq_refl Hu Hle Hle)
    as (_ & _ & u' & Hu' & Hb & _).
  exists u'. split; [exact Hu'|]. rewrite Hb. reflexivity.
Defined.

End InterleavingFacts.

(** ** Fetching with retries *)

Module FetchFacts.
Import Fetch.

(** The recursion of the source: a failed attempt below [MAX_RETRIES] waits
    and tries again with the next count. *)
Lemma fetchBinancePrice_unfold axios retryCount :
  fetchBinancePrice axios retryCount =
    match axios retryCount with
    | Some price => (Some price, 0%N)
    | None =>
        if Nat.ltb retryCount MAX_RETRIES
        then (let '(price, waited) :=
                fetchBinancePrice axios (S retryCount) in
              (price, (RETRY_DELAY + waited)%N))
        else (None, 0%N)
    end.
Proof.
  unfold fetchBinancePrice.
  destruct (Nat.ltb_spec retryCount MAX_RETRIES) as [Hlt|Hge].
  - replace (MAX_RETRIES - retryCount)%nat
      with (S (MAX_RETRIES - S retryCount)) by lia.
    done.
  - replace (MAX_RETRIES - retryCount)%nat with 0%nat by lia.
    simpl. by destruct (axios retryCount).
Qed.

Lemma attempt_success left axios rc i p :
  (i ≤ left)%nat → axios (rc + i)%nat = Some p →
  (∀ j, (j < i)%nat → axios (rc + j)%nat = None) →
  attempt left axios rc = (Some p, (RETRY_DELAY * N.of_nat i)%N).
Proof.
  revert left rc. induction i as [|i IH]; intros left rc Hle Hp Hnone.
  - rewrite Nat.add_0_r in Hp. destruct left; simpl; by rewrite Hp.
  - destruct left as [|left]; [lia|]. simpl.
    rewrite <- (Nat.add_0_r rc) at 1. rewrite (Hnone 0%nat) by lia.
    rewrite (IH left (S rc)).
    + f_equal. unfold RETRY_DELAY. lia.
    + lia.
    + by replace (S rc + i)%nat with (rc + S i)%nat by lia.
    + intros j Hj. replace (S rc + j)%nat with (rc + S j)%nat by lia.
      apply Hnone. lia.
Qed.

Lemma attempt_failure left axios rc :
  (∀ j, (j ≤ left)%nat → axios (rc + j)%nat = None) →
  attempt left axios rc = (None, (RETRY_DELAY * N.of_nat left)%N).
Proof.
  revert rc. induction left as [|left IH]; intros rc Hnone; simpl.
  - rewrite <- (Nat.add_0_r rc) at 1. by rewrite (Hnone 0%nat).
  - rewrite <- (Nat.add_0_r rc) at 1. rewrite (Hnone 0%nat) by lia.
    rewrite IH.
    + f_equal. unfold RETRY_DELAY. lia.
    + intros j Hj. replace (S rc + j)%nat with (rc + S j)%nat by lia.
      apply Hnone. lia.
Qed.

Lemma attempt_ext left axios axios' rc :
  (∀ j, (j ≤ left)%nat → axios (rc + j)%nat = axios' (rc + j)%nat) →
  attempt left axios rc = attempt left axios' rc.
Proof.
  revert rc. induction left as [|left IH]; intros rc Heq; simpl;
    pose proof (Heq 0%nat ltac:(lia)) as H0; rewrite Nat.add_0_r in H0;
    rewrite H0.
  - done.
  - rewrite (IH (S rc)); [done|].
    intros j Hj. replace (S rc + j)%nat with (rc + S j)%nat by lia.
    apply Heq. lia.
Qed.

(** X14.  [fetchBinancePrice(symbol)] makes at most four requests.  It
    returns the price of the first request that succeeds, after a wait of
    one second for each request that failed before it; when all four fail
    it returns null after three seconds of waiting; what a fifth request
    would give has no influence.  [adjustPrice] then answers with the price
    stored in the row of the symbol and writes nothing. *)
Theorem fetch_gives_first_success (axios : nat → option Q) :
  (∀ i p, (i ≤ 3)%nat → axios i = Some p →
          (∀ j, (j < i)%nat → axios j = None) →
          fetchBinancePrice axios 0 = (Some p, (1000 * N.of_nat i)%N)) ∧
  ((∀ j, (j ≤ 3)%nat → axios j = None) →
   fetchBinancePrice axios 0 = (None, 3000%N) ∧
   ∀ symbol (d : Store.Db) sd,
     Store.symbols d !! symbol = Some sd →
     PriceHandlerRetry.adjustPrice symbol (fetchBinancePrice axios 0).1 d =
       (Store.sym_manipulatedPrice sd, d)) ∧
  (∀ axios', (∀ j, (j ≤ 3)%nat → axios j = axios' j) →
             fetchBinancePrice axios 0 = fetchBinancePrice axios' 0).
Proof.
  unfold fetchBinancePrice. cbn [MAX_RETRIES Nat.sub].
  split; [|split].
  - intros i p Hi Hp Hnone. by apply (attempt_success 3 axios 0 i p).
  - intros Hnone.
    assert (Hf : attempt 3 axios 0 = (None, 3000%N))
      by (by rewrite (attempt_failure 3 axios 0)).
    split; [done|]. intros symbol d sd Hs. rewrite Hf.
    unfold PriceHandlerRetry.adjustPrice. by rewrite Hs.
  - intros axios' Heq. by apply attempt_ext.
Qed.

Lemma fetch_gives_first_success_witness :
  let axios := λ n : nat, if Nat.eqb n 2 then Some 42 else None in
  axios 2%nat = Some 42 ∧
  fetchBinancePrice axios 0 = (Some 42, 2000%N).
Proof.
  cbv zeta. split; [reflexivity|].
  apply (proj1 (fetch_gives_first_success
                  (λ n : nat, if Nat.eqb n 2 then Some 42 else None))
           2%nat 42); [lia|reflexivity|].
  intros [|[|j]] Hj; [reflexivity|reflexivity|lia].
Defined.

End FetchFacts.

(** ** Reconnection and subscription *)

Module FeedConnectionFacts.
Import FeedConnection.

(** The delay before reconnection attempt [i]. *)
Local Abbreviation backoff i := (RECONNECT_DELAY * 2 ^ N.of_nat i)%N.

Lemma handleReconnect_below c :
  (reconnectAttempts c < MAX_RECONNECT_ATTEMPTS)%nat →
  scheduled (handleReconnect c) =
    scheduled c ++ [backoff (reconnectAttempts c)] ∧
  reconnectAttempts (handleReconnect c) = S (reconnectAttempts c).
Proof.
  intros H. unfold handleReconnect.
  destruct (Nat.leb_spec MAX_RECONNECT_ATTEMPTS (reconnectAttempts c));
    [lia|done].
Qed.

Lemma handleReconnect_exhausted c :
  (MAX_RECONNECT_ATTEMPTS ≤ reconnectAttempts c)%nat →
  handleReconnect c = c.
Proof.
  intros H. unfold handleReconnect.
  destruct (Nat.leb_spec MAX_RECONNECT_ATTEMPTS (reconnectAttempts c));
    [done|lia].
Qed.

Lemma step_not_closed c ev :
  isOpened ev = false → isClosed ev = false →
  scheduled (step c ev) = scheduled c ∧
  reconnectAttempts (step c ev) = reconnectAttempts c.
Proof.
  destruct ev as [now| | |data| |symbol now]; try done; intros _ _; simpl.
  unfold subscribeToSymbol. by case_bool_decide.
Qed.

Lemma step_closed c :
  scheduled (step c Closed) =
    scheduled c ++
    (if Nat.ltb (reconnectAttempts c) MAX_RECONNECT_ATTEMPTS
     then [backoff (reconnectAttempts c)] else []) ∧
  reconnectAttempts (step c Closed) =
    Nat.min (S (reconnectAttempts c))
      (Nat.max (reconnectAttempts c) MAX_RECONNECT_ATTEMPTS).
Proof.
  cbn [step]. unfold onClose.
  destruct (Nat.ltb_spec (reconnectAttempts c) MAX_RECONNECT_ATTEMPTS)
    as [Hlt|Hge].
  - destruct (handleReconnect_below
                {| isOpen := false; reconnectAttempts := reconnectAttempts c;
                   activeSymbols := activeSymbols c; pinging := false;
                   priceCache := priceCache c; sent := sent c;
                   scheduled := scheduled c |} Hlt) as [-> ->].
    cbn [scheduled reconnectAttempts]. split; [done|].
    unfold MAX_RECONNECT_ATTEMPTS in *. lia.
  - rewrite handleReconnect_exhausted by done.
    cbn [scheduled reconnectAttempts].
    split; [by rewrite app_nil_r|]. unfold MAX_RECONNECT_ATTEMPTS in *. lia.
Qed.

(** The schedule of a run without an [open], from any value of the
    counter up to the maximum. *)
Lemma schedule_without_open evs c :
  (reconnectAttempts c ≤ MAX_RECONNECT_ATTEMPTS)%nat →
  forallb (λ ev, negb (isOpened ev)) evs = true →
  let closes := length (List.filter isClosed evs) in
  let last := Nat.min (reconnectAttempts c + closes) MAX_RECONNECT_ATTEMPTS in
  scheduled (run evs c) =
    scheduled c ++
    ((λ i, backoff i) <$> seq (reconnectAttempts c)
                            (last - reconnectAttempts c)) ∧
  reconnectAttempts (run evs c) = last.
Proof.
  unfold MAX_RECONNECT_ATTEMPTS.
  revert c. induction evs as [|ev evs IH]; intros c Ha Hno; cbn zeta.
  - cbn [run foldl List.filter length].
    replace (Nat.min (reconnectAttempts c + 0) 5 - reconnectAttempts c)%nat
      with 0%nat by lia.
    cbn [seq]. rewrite fmap_nil, app_nil_r. split; [done|lia].
  - cbn [forallb] in Hno. apply andb_true_iff in Hno as [Hev Hno].
    apply negb_true_iff in Hev.
    change (run (ev :: evs) c) with (run evs (step c ev)).
    specialize (IH (step c ev)). cbn zeta in IH.
    cbn [List.filter].
    destruct (isClosed ev) eqn:Ec.
    + assert (ev = Closed) as -> by (by destruct ev).
      cbn [length].
      destruct (step_closed c) as [Hs Hr].
      unfold MAX_RECONNECT_ATTEMPTS in Hs, Hr.
      destruct IH as [IHs IHr]; [rewrite Hr; lia|done|].
      rewrite IHs, IHr, Hs, Hr. clear IHs IHr Hs Hr.
      set (k := length (List.filter isClosed evs)).
      set (a := reconnectAttempts c) in *.
      destruct (Nat.ltb_spec a 5) as [Hlt|Hge].
      * replace (Nat.min (S a) (Nat.max a 5)) with (S a) by lia.
        replace (Nat.min (a + S k) 5 - a)%nat
          with (S (Nat.min (S a + k) 5 - S a)) by lia.
        rewrite <- cons_seq, fmap_cons, <- (assoc_L (++)).
        split; [done|lia].
      * replace (Nat.min (S a) (Nat.max a 5)) with 5%nat by lia.
        replace (Nat.min (a + S k) 5 - a)%nat with 0%nat by lia.
        replace (Nat.min (5 + k) 5 - 5)%nat with 0%nat by lia.
        cbn [seq]. rewrite !fmap_nil, !app_nil_r. split; [done|lia].
    + destruct (step_not_closed c ev Hev Ec) as [Hs Hr].
      destruct IH as [IHs IHr]; [by rewrite Hr|done|].
      by rewrite IHs, IHr, Hs, Hr.
Qed.

(** X15.  Exponential backoff.  After the socket has opened, and as long
    as it does not open again, the [k]-th close schedules the reconnection
    after 5000 times 2 to the power [k - 1] milliseconds, for the first
    five closes: 5, 10, 20, 40 and 80 seconds.  From the sixth close on
    nothing is scheduled, whatever else happens: the feed stays
    disconnected. *)
Theorem backoff_schedule (evs : list Event) (c : Conn) :
  reconnectAttempts c = 0%nat →
  forallb (λ ev, negb (isOpened ev)) evs = true →
  let closes := length (List.filter isClosed evs) in
  scheduled (run evs c) =
    scheduled c ++
    ((λ i, (5000 * 2 ^ N.of_nat i)%N) <$> seq 0 (Nat.min closes 5)) ∧
  reconnectAttempts (run evs c) = Nat.min closes 5 ∧
  ((5 ≤ closes)%nat →
   ∀ more, forallb (λ ev, negb (isOpened ev)) more = true →
           scheduled (run more (run evs c)) = scheduled (run evs c)).
Proof.
  intros Ha Hno. cbn zeta.
  destruct (schedule_without_open evs c) as [Hs Hr];
    [rewrite Ha; unfold MAX_RECONNECT_ATTEMPTS; lia|done|].
  cbn zeta in Hs, Hr. rewrite Ha in Hs, Hr. simpl in Hs, Hr.
  rewrite Nat.sub_0_r in Hs.
  split; [done|]. split; [done|].
  intros Hfive more Hmore.
  destruct (schedule_without_open more (run evs c)) as [Hs' _];
    [rewrite Hr; unfold MAX_RECONNECT_ATTEMPTS; lia|done|].
  cbn zeta in Hs'. rewrite Hs', Hr. unfold MAX_RECONNECT_ATTEMPTS.
  replace (Nat.min (Nat.min _ 5 + _) 5 - Nat.min _ 5)%nat with 0%nat by lia.
  simpl. by rewrite app_nil_r.
Qed.

Lemma backoff_schedule_witness :
  let evs := [Closed; Reconnect; Errored; Closed; Reconnect; Closed] in
  reconnectAttempts (onOpen 0 loaded) = 0%nat ∧
  scheduled (run evs (onOpen 0 loaded)) = [5000; 10000; 20000]%N.
Proof.
  cbv zeta.
  assert (Ha : reconnectAttempts (onOpen 0 loaded) = 0%nat) by reflexivity.
  split; [exact Ha|].
  exact (proj1 (backoff_schedule
                  [Closed; Reconnect; Errored; Closed; Reconnect; Closed]
                  (onOpen 0 loaded) Ha eq_refl)).
Defined.

Lemma backoff_bounds i :
  (i < 5)%nat → (5000 ≤ backoff i ∧ backoff i ≤ 80000)%N.
Proof.
  intros H. assert (i = 0 ∨ i = 1 ∨ i = 2 ∨ i = 3 ∨ i = 4)%nat
    as [->|[->|[->|[->| ->]]]] by lia; vm_compute; split; discriminate.
Qed.

Lemma step_schedule c ev :
  (reconnectAttempts c ≤ 5)%nat →
  (reconnectAttempts (step c ev) ≤ 5)%nat ∧
  ∃ new, scheduled (step c ev) = scheduled c ++ new ∧
         Forall (λ d, 5000 ≤ d ∧ d ≤ 80000)%N new.
Proof.
  intros Ha. destruct (isClosed ev) eqn:Ec.
  - assert (ev = Closed) as -> by (by destruct ev).
    destruct (step_closed c) as [-> ->]. unfold MAX_RECONNECT_ATTEMPTS.
    split; [lia|]. eexists. split; [done|].
    destruct (Nat.ltb_spec (reconnectAttempts c) 5); [|by apply Forall_nil].
    apply Forall_singleton. by apply backoff_bounds.
  - destruct (isOpened ev) eqn:Eo.
    + destruct ev; try done. simpl. split; [lia|].
      exists []. by rewrite app_nil_r.
    + destruct (step_not_closed c ev Eo Ec) as [-> ->].
      split; [done|]. exists []. by rewrite app_nil_r.
Qed.

(** X16.  Whatever reaches the module, the counter of attempts never
    exceeds five and every reconnection is scheduled between 5 and 80
    seconds ahead.  An [open] resets the counter: the close that follows it
    waits 5 seconds again, whatever the counter was. *)
Theorem reconnect_delays_bounded (evs : list Event) (c : Conn) :
  (reconnectAttempts c ≤ 5)%nat →
  (reconnectAttempts (run evs c) ≤ 5)%nat ∧
  (∃ new, scheduled (run evs c) = scheduled c ++ new ∧
          Forall (λ d, 5000 ≤ d ∧ d ≤ 80000)%N new) ∧
  (∀ now, scheduled (run [Opened now; Closed] (run evs c)) =
            scheduled (run evs c) ++ [5000%N]).
Proof.
  intros Ha.
  assert (H : (reconnectAttempts (run evs c) ≤ 5)%nat ∧
              ∃ new, scheduled (run evs c) = scheduled c ++ new ∧
                     Forall (λ d, 5000 ≤ d ∧ d ≤ 80000)%N new).
  { revert c Ha. induction evs as [|ev evs IH]; intros c Ha.
    - split; [done|]. exists []. by rewrite app_nil_r.
    - change (run (ev :: evs) c) with (run evs (step c ev)).
      destruct (step_schedule c ev Ha) as (Ha' & new1 & Hs1 & Hb1).
      destruct (IH _ Ha') as (Ha'' & new2 & Hs2 & Hb2).
      split; [done|]. exists (new1 ++ new2).
      split; [by rewrite Hs2, Hs1, (assoc_L (++))|by apply Forall_app]. }
  destruct H as [H1 H2]. split; [done|]. split; [done|].
  intros now. reflexivity.
Qed.

Lemma reconnect_delays_bounded_witness :
  (reconnectAttempts loaded ≤ 5)%nat ∧
  scheduled (run [Opened 7; Closed] (run [Closed; Closed] loaded)) =
    scheduled (run [Closed; Closed] loaded) ++ [5000%N].
Proof.
  assert (Ha : (reconnectAttempts loaded ≤ 5)%nat) by (simpl; lia).
  split; [exact Ha|].
  exact (proj2 (proj2 (reconnect_delays_bounded [Closed; Closed] loaded Ha))
           7%N).
Defined.

Lemma subscribe_known symbol now c :
  symbol ∈ activeSymbols c → subscribeToSymbol symbol now c = c.
Proof.
  intros H. unfold subscribeToSymbol. by rewrite bool_decide_eq_true_2.
Qed.

Lemma subscribe_new symbol now c :
  symbol ∉ activeSymbols c →
  activeSymbols (subscribeToSymbol symbol now c) =
    activeSymbols c ++ [symbol] ∧
  sent (subscribeToSymbol symbol now c) =
    (if isOpen c then sent c ++ [mkSubscribe [stream symbol] now]
     else sent c).
Proof.
  intros H. unfold subscribeToSymbol. by rewrite bool_decide_eq_false_2.
Qed.

(** X17.  [subscribeToSymbol] is idempotent and sends at most one frame.
    A symbol that is already subscribed changes nothing and sends nothing;
    a new symbol is added, and a SUBSCRIBE frame for its lower-case ticker
    stream is sent if and only if the socket is open; calling it again for
    the same symbol, at any time, leaves the state as the first call made
    it. *)
Theorem subscribe_is_idempotent (symbol : string) (now now' : N)
  (c : Conn) :
  let c1 := subscribeToSymbol symbol now c in
  subscribeToSymbol symbol now' c1 = c1 ∧
  symbol ∈ activeSymbols c1 ∧
  (symbol ∈ activeSymbols c → c1 = c) ∧
  (symbol ∉ activeSymbols c →
   activeSymbols c1 = activeSymbols c ++ [symbol] ∧
   sent c1 =
     (if isOpen c then sent c ++ [mkSubscribe [stream symbol] now]
      else sent c)) ∧
  (NoDup (activeSymbols c) → NoDup (activeSymbols c1)).
Proof.
  cbn zeta.
  destruct (decide (symbol ∈ activeSymbols c)) as [Hin|Hnin].
  - rewrite !subscribe_known by (by rewrite ?subscribe_known).
    by repeat split.
  - destruct (subscribe_new symbol now c Hnin) as [Ha Hs].
    assert (Hin1 : symbol ∈ activeSymbols (subscribeToSymbol symbol now c)).
    { rewrite Ha. apply elem_of_app. right. by left. }
    split; [by apply subscribe_known|]. split; [done|].
    split; [done|]. split; [done|].
    intros Hnd. rewrite Ha. apply NoDup_app. split; [done|].
    split; [|apply NoDup_singleton].
    intros x Hx ->%list_elem_of_singleton. done.
Qed.

Lemma subscribe_is_idempotent_witness :
  let c := onOpen 0 loaded in
  ("BTCUSDT"%string ∉ activeSymbols c) ∧
  sent (subscribeToSymbol "BTCUSDT" 5 c) =
    [mkSubscribe ["btcusdt@ticker"%string] 5] ∧
  subscribeToSymbol "BTCUSDT" 9 (subscribeToSymbol "BTCUSDT" 5 c) =
    subscribeToSymbol "BTCUSDT" 5 c.
Proof.
  cbv zeta.
  assert (Hn : "BTCUSDT"%string ∉ activeSymbols (onOpen 0 loaded))
    by (simpl; apply not_elem_of_nil).
  destruct (subscribe_is_idempotent "BTCUSDT" 5 9 (onOpen 0 loaded))
    as (Hidem & _ & _ & Hnew & _).
  split; [exact Hn|]. split; [|exact Hidem].
  exact (proj2 (Hnew Hn)).
Defined.

Lemma subscribe_adds symbol now c :
  symbol ∈ activeSymbols (subscribeToSymbol symbol now c).
Proof.
  destruct (decide (symbol ∈ activeSymbols c)) as [Hin|Hnin].
  - by rewrite subscribe_known.
  - destruct (subscribe_new symbol now c Hnin) as [-> _].
    apply elem_of_app. right. by left.
Qed.

Lemma step_keeps_symbols c ev symbol :
  symbol ∈ activeSymbols c → symbol ∈ activeSymbols (step c ev).
Proof.
  intros H. destruct ev as [now| | |data| |symbol' now]; simpl; try done.
  { unfold onClose, handleReconnect. by case_match. }
  destruct (decide (symbol' ∈ activeSymbols c)) as [Hin|Hnin].
  - by rewrite subscribe_known.
  - destruct (subscribe_new symbol' now c Hnin) as [-> _].
    apply elem_of_app. by left.
Qed.

Lemma run_keeps_symbols evs c symbol :
  symbol ∈ activeSymbols c → symbol ∈ activeSymbols (run evs c).
Proof.
  revert c. induction evs as [|ev evs IH]; intros c H; [done|].
  apply IH. by apply step_keeps_symbols.
Qed.

Lemma run_subscribed evs c symbol now :
  SubscribeTo symbol now ∈ evs → symbol ∈ activeSymbols (run evs c).
Proof.
  revert c. induction evs as [|ev evs IH]; intros c Hin.
  - by apply elem_of_nil in Hin.
  - apply elem_of_cons in Hin as [<-|Hin].
    + change (symbol ∈ activeSymbols
                (run evs (subscribeToSymbol symbol now c))).
      apply run_keeps_symbols. apply subscribe_adds.
    + by apply IH.
Qed.

(** X18.  No subscription is lost over a reconnection.  A symbol that was
    passed to [subscribeToSymbol] at any time, with the socket open or not,
    stays in the set of active symbols, and when the socket opens one
    SUBSCRIBE frame is sent that lists the ticker stream of every active
    symbol, that one among them; the counter of attempts is back at 0 and
    the ping interval runs. *)
Theorem reopen_resubscribes (evs : list Event) (c : Conn)
  (symbol : string) (n now : N) :
  SubscribeTo symbol n ∈ evs →
  symbol ∈ activeSymbols (run evs c) ∧
  sent (onOpen now (run evs c)) =
    sent (run evs c) ++
    [mkSubscribe (stream <$> activeSymbols (run evs c)) now] ∧
  stream symbol ∈ stream <$> activeSymbols (run evs c) ∧
  reconnectAttempts (onOpen now (run evs c)) = 0%nat ∧
  pinging (onOpen now (run evs c)) = true.
Proof.
  intros Hin. pose proof (run_subscribed evs c symbol n Hin) as Hs.
  split; [done|]. split; [|split; [by apply list_elem_of_fmap_2|done]].
  unfold onOpen. cbn [sent].
  destruct (activeSymbols (run evs c)) as [|x l]; [|done].
  by apply elem_of_nil in Hs.
Qed.

Lemma reopen_resubscribes_witness :
  let evs := [SubscribeTo "BTCUSDT" 1; Closed; SubscribeTo "ETHUSDT" 2;
              Reconnect] in
  SubscribeTo "ETHUSDT" 2 ∈ evs ∧
  sent (onOpen 9 (run evs (onOpen 0 loaded))) =
    [mkSubscribe ["btcusdt@ticker"%string] 1;
     mkSubscribe ["btcusdt@ticker"%string; "ethusdt@ticker"%string] 9].
Proof.
  cbv zeta.
  assert (Hin : SubscribeTo "ETHUSDT" 2 ∈
                [SubscribeTo "BTCUSDT" 1; Closed; SubscribeTo "ETHUSDT" 2;
                 Reconnect]) by (do 2 right; left).
  split; [exact Hin|].
  exact (proj1 (proj2 (reopen_resubscribes _ (onOpen 0 loaded) _ _ 9%N Hin))).
Defined.

End FeedConnectionFacts.

(** ** Clients and intervals *)

Module HubFacts.
Import Hub.

Lemma clearInterval_fresh n (running : list (nat * string)) :
  (∀ i, i ∈ running → (i.1 < n)%nat) → clearInterval n running = running.
Proof.
  induction running as [|i l IH]; intros H; [done|].
  unfold clearInterval in *. simpl.
  assert (Hi : (i.1 < n)%nat) by (apply H; by left).
  destruct (Nat.eqb_spec i.1 n); [lia|]. simpl.
  rewrite IH; [done|]. intros j Hj. apply H. by right.
Qed.

Lemma clearInterval_app n l1 l2 :
  clearInterval n (l1 ++ l2) = clearInterval n l1 ++ clearInterval n l2.
Proof. unfold clearInterval. apply List.filter_app. Qed.

(** A connection that names a symbol. *)
Lemma onConnection_named ws s h :
  Js.truthy_str (FeedConnection.toUpperCase s) = true →
  onConnection ws (Some s) h =
    {| server := server h;
       clients :=
         <[FeedConnection.toUpperCase s :=
             setAdd ws
               (default [] (clients h !! FeedConnection.toUpperCase s))]>
           (clients h);
       listeners :=
         <[ws := (FeedConnection.toUpperCase s, nextInterval h)]>
           (listeners h);
       intervals :=
         intervals h ++ [(nextInterval h, FeedConnection.toUpperCase s)];
       nextInterval := S (nextInterval h);
       opened := opened h ++ [ws];
       closedByServer := closedByServer h;
       outbox := outbox h |}.
Proof. intros H. unfold onConnection. simpl. by rewrite H. Qed.

(** The close of a socket that has the handler. *)
Lemma onSocketClose_listening ws h symbol iid set :
  listeners h !! ws = Some (symbol, iid) →
  clients h !! symbol = Some set →
  onSocketClose ws h =
    {| server := server h;
       clients := <[symbol := setDelete ws set]> (clients h);
       listeners := delete ws (listeners h);
       intervals :=
         (if Nat.eqb (length (setDelete ws set)) 0
          then clearInterval iid (intervals h) else intervals h);
       nextInterval := nextInterval h;
       opened := setDelete ws (opened h);
       closedByServer := closedByServer h;
       outbox := outbox h |}.
Proof.
  intros Hl Hc. unfold onSocketClose. rewrite Hl, Hc.
  by rewrite lookup_insert_eq.
Qed.

Lemma setDelete_self ws : setDelete ws [ws] = [].
Proof. unfold setDelete. simpl. by rewrite Nat.eqb_refl. Qed.

Lemma setDelete_pair_l a b : a ≠ b → setDelete a [a; b] = [b].
Proof.
  intros H. unfold setDelete. simpl. rewrite Nat.eqb_refl. simpl.
  destruct (Nat.eqb_spec b a); [congruence|done].
Qed.

Lemma setDelete_pair_r a b : a ≠ b → setDelete b [a; b] = [a].
Proof.
  intros H. unfold setDelete. simpl. rewrite Nat.eqb_refl. simpl.
  destruct (Nat.eqb_spec a b); [congruence|done].
Qed.

(** X19.  One client and back.  When a socket connects for a symbol that
    has no client and then closes, the interval it started is cleared and
    the running intervals are the ones there were before; the set of the
    symbol stays in the map, empty. *)
Theorem last_client_stops_interval (h : State) (a : nat) (s : string) :
  let symbol := FeedConnection.toUpperCase s in
  Js.truthy_str symbol = true →
  default [] (clients h !! symbol) = [] →
  (∀ i, i ∈ intervals h → (i.1 < nextInterval h)%nat) →
  let h1 := run [Connect a (Some s)] h in
  let h2 := run [Connect a (Some s); Disconnect a] h in
  clients h1 !! symbol = Some [a] ∧
  intervals h1 = intervals h ++ [(nextInterval h, symbol)] ∧
  intervals h2 = intervals h ∧
  clients h2 !! symbol = Some [] ∧
  listeners h2 !! a = None.
Proof.
  intros symbol Ht Hnone Hfresh h1 h2. subst h1 h2.
  unfold run. cbn [foldl step].
  rewrite (onConnection_named a s h Ht). fold symbol. rewrite Hnone.
  unfold setAdd. rewrite bool_decide_eq_false_2 by apply not_elem_of_nil.
  cbn [app clients intervals].
  split; [by rewrite lookup_insert_eq|]. split; [done|].
  erewrite onSocketClose_listening;
    [|cbn; by rewrite lookup_insert_eq|cbn; by rewrite lookup_insert_eq].
  cbn [intervals clients listeners]. rewrite setDelete_self.
  cbn [length Nat.eqb].
  rewrite clearInterval_app, clearInterval_fresh by done.
  unfold clearInterval. cbn [List.filter fst]. rewrite Nat.eqb_refl.
  cbn [negb]. rewrite app_nil_r.
  split; [done|]. split; [by rewrite lookup_insert_eq|].
  by rewrite lookup_delete_eq.
Qed.

Lemma last_client_stops_interval_witness :
  let h := listening (Sample.state Sample.upDb 100) in
  Js.truthy_str (FeedConnection.toUpperCase "btcusdt") = true ∧
  intervals (run [Connect 4 (Some "btcusdt"%string)] h) =
    [(0%nat, "BTCUSDT"%string)] ∧
  intervals (run [Connect 4 (Some "btcusdt"%string); Disconnect 4] h) = [].
Proof.
  cbv zeta.
  assert (Ht : Js.truthy_str (FeedConnection.toUpperCase "btcusdt") = true)
    by reflexivity.
  split; [exact Ht|].
  destruct (last_client_stops_interval
              (listening (Sample.state Sample.upDb 100)) 4 "btcusdt" Ht
              eq_refl) as (_ & H1 & H2 & _).
  { intros i Hi. by apply elem_of_nil in Hi. }
  split; [exact H1|exact H2].
Defined.

Lemma find_new_interval (running : list (nat * string)) n symbol :
  (∀ i, i ∈ running → (i.1 < n)%nat) →
  List.find (λ i : nat * string, Nat.eqb i.1 n) (running ++ [(n, symbol)]) =
    Some (n, symbol).
Proof.
  induction running as [|i l IH]; intros Hfresh; simpl.
  - by rewrite Nat.eqb_refl.
  - assert ((i.1 < n)%nat) by (apply Hfresh; by left).
    destruct (Nat.eqb_spec i.1 n); [lia|].
    apply IH. intros j Hj. apply Hfresh. by right.
Qed.

(** The state after two sockets connected for one symbol without
    clients. *)
Lemma two_clients h a b s :
  Js.truthy_str (FeedConnection.toUpperCase s) = true →
  a ≠ b →
  default [] (clients h !! FeedConnection.toUpperCase s) = [] →
  run [Connect a (Some s); Connect b (Some s)] h =
    {| server := server h;
       clients := <[FeedConnection.toUpperCase s := [a; b]]> (clients h);
       listeners :=
         <[b := (FeedConnection.toUpperCase s, S (nextInterval h))]>
           (<[a := (FeedConnection.toUpperCase s, nextInterval h)]>
              (listeners h));
       intervals :=
         intervals h ++
         [(nextInterval h, FeedConnection.toUpperCase s);
          (S (nextInterval h), FeedConnection.toUpperCase s)];
       nextInterval := S (S (nextInterval h));
       opened := opened h ++ [a; b];
       closedByServer := closedByServer h;
       outbox := outbox h |}.
Proof.
  intros Ht Hab Hnone. unfold run. cbn [foldl step].
  rewrite (onConnection_named a s h Ht), Hnone.
  unfold setAdd at 1.
  rewrite bool_decide_eq_false_2 by apply not_elem_of_nil. cbn [app].
  rewrite (onConnection_named b s _ Ht).
  cbn [clients listeners intervals nextInterval opened closedByServer
       outbox server].
  rewrite lookup_insert_eq. cbn [default].
  unfold setAdd. rewrite bool_decide_eq_false_2.
  2: { intros Hin%list_elem_of_singleton. congruence. }
  cbn [app]. rewrite insert_insert_eq, <- !(assoc_L (++)). done.
Qed.

(** X20.  The first of two clients to leave leaves its interval running.
    When two sockets connect for a symbol that had no client and then both
    close, in either order, only the interval of the one that closed last
    is cleared: the other interval keeps running with no client left, and
    each of its ticks still adjusts and publishes the price and sends it to
    nobody. *)
Theorem first_to_leave_leaks (h : State) (a b : nat) (s : string) :
  let symbol := FeedConnection.toUpperCase s in
  Js.truthy_str symbol = true →
  a ≠ b →
  default [] (clients h !! symbol) = [] →
  (∀ i, i ∈ intervals h → (i.1 < nextInterval h)%nat) →
  let both := [Connect a (Some s); Connect b (Some s)] in
  let ab := run (both ++ [Disconnect a; Disconnect b]) h in
  let ba := run (both ++ [Disconnect b; Disconnect a]) h in
  intervals ab = intervals h ++ [(nextInterval h, symbol)] ∧
  clients ab !! symbol = Some [] ∧
  intervals ba = intervals h ++ [(S (nextInterval h), symbol)] ∧
  clients ba !! symbol = Some [] ∧
  server (step ab (Tick (nextInterval h))) =
    Server.publish symbol (server h) ∧
  outbox (step ab (Tick (nextInterval h))) = outbox h.
Proof.
  intros symbol Ht Hab Hnone Hfresh both ab ba.
  assert (Hfresh' : ∀ n, (nextInterval h ≤ n)%nat →
                         clearInterval n (intervals h) = intervals h).
  { intros n Hn. apply clearInterval_fresh. intros i Hi.
    specialize (Hfresh i Hi). lia. }
  assert (Hab' : intervals ab = intervals h ++ [(nextInterval h, symbol)] ∧
                 clients ab !! symbol = Some [] ∧
                 server ab = server h ∧ outbox ab = outbox h).
  { subst ab both. unfold run. rewrite foldl_app.
    fold (run [Connect a (Some s); Connect b (Some s)] h).
    rewrite (two_clients h a b s Ht Hab Hnone). fold symbol.
    cbn [foldl step].
    erewrite (onSocketClose_listening a);
      [|cbn; rewrite lookup_insert_ne by done; by rewrite lookup_insert_eq
       |cbn; by rewrite lookup_insert_eq].
    rewrite setDelete_pair_l by done. cbn [length Nat.eqb].
    erewrite (onSocketClose_listening b);
      [|cbn; rewrite lookup_delete_ne by done; by rewrite lookup_insert_eq
       |cbn; by rewrite lookup_insert_eq].
    rewrite setDelete_self. cbn [length Nat.eqb intervals clients].
    rewrite clearInterval_app, Hfresh' by lia.
    unfold clearInterval. cbn [List.filter fst].
    rewrite Nat.eqb_refl. cbn [negb].
    destruct (Nat.eqb_spec (nextInterval h) (S (nextInterval h))); [lia|].
    cbn [negb]. split; [done|]. split; [by rewrite lookup_insert_eq|done]. }
  destruct Hab' as (Hi & Hc & Hsrv & Hout).
  split; [done|]. split; [done|]. split; [|split; [|split]].
  - subst ba both. unfold run. rewrite foldl_app.
    fold (run [Connect a (Some s); Connect b (Some s)] h).
    rewrite (two_clients h a b s Ht Hab Hnone). fold symbol.
    cbn [foldl step].
    erewrite (onSocketClose_listening b);
      [|cbn; by rewrite lookup_insert_eq|cbn; by rewrite lookup_insert_eq].
    rewrite setDelete_pair_r by done. cbn [length Nat.eqb].
    erewrite (onSocketClose_listening a);
      [|cbn; rewrite lookup_delete_ne by done;
        rewrite lookup_insert_ne by done; by rewrite lookup_insert_eq
       |cbn; by rewrite lookup_insert_eq].
    rewrite setDelete_self. cbn [length Nat.eqb intervals].
    rewrite clearInterval_app, Hfresh' by lia.
    unfold clearInterval. cbn [List.filter fst].
    rewrite Nat.eqb_refl. cbn [negb].
    destruct (Nat.eqb_spec (S (nextInterval h)) (nextInterval h)); [lia|].
    done.
  - subst ba both. unfold run. rewrite foldl_app.
    fold (run [Connect a (Some s); Connect b (Some s)] h).
    rewrite (two_clients h a b s Ht Hab Hnone). fold symbol.
    cbn [foldl step].
    erewrite (onSocketClose_listening b);
      [|cbn; by rewrite lookup_insert_eq|cbn; by rewrite lookup_insert_eq].
    rewrite setDelete_pair_r by done.
    erewrite (onSocketClose_listening a);
      [|cbn; rewrite lookup_delete_ne by done;
        rewrite lookup_insert_ne by done; by rewrite lookup_insert_eq
       |cbn; by rewrite lookup_insert_eq].
    cbn [clients]. by rewrite lookup_insert_eq, setDelete_self.
  - cbn [step]. rewrite Hi, (find_new_interval _ _ _ Hfresh).
    unfold onInterval.
    destruct (PriceHandlerFeed.adjustPrice _ _ _) as [p d]. cbn [server].
    by rewrite Hsrv.
  - cbn [step]. rewrite Hi, (find_new_interval _ _ _ Hfresh).
    unfold onInterval.
    destruct (PriceHandlerFeed.adjustPrice _ _ _) as [p d]. cbn [outbox].
    rewrite Hc, Hout. simpl.
    by repeat case_match; rewrite ?app_nil_r.
Qed.

Lemma first_to_leave_leaks_witness :
  let h := listening (Sample.state Sample.upDb 100) in
  Js.truthy_str (FeedConnection.toUpperCase "btcusdt") = true ∧
  4%nat ≠ 7%nat ∧
  intervals (run ([Connect 4 (Some "btcusdt"%string);
                   Connect 7 (Some "btcusdt"%string)] ++
                  [Disconnect 4; Disconnect 7]) h) =
    [(0%nat, "BTCUSDT"%string)].
Proof.
  cbv zeta.
  assert (Ht : Js.truthy_str (FeedConnection.toUpperCase "btcusdt") = true)
    by reflexivity.
  assert (Hne : 4%nat ≠ 7%nat) by lia.
  split; [exact Ht|]. split; [exact Hne|].
  destruct (first_to_leave_leaks
              (listening (Sample.state Sample.upDb 100)) 4 7 "btcusdt" Ht
              Hne eq_refl) as (H1 & _).
  { intros i Hi. by apply elem_of_nil in Hi. }
  exact H1.
Defined.

(** A socket asked for a symbol in the events [all]. *)
Local Abbreviation asked all ws symbol :=
  (∃ s, Connect ws (Some s) ∈ all ∧ FeedConnection.toUpperCase s = symbol).

Lemma setAdd_elem x ws set : x ∈ setAdd ws set → x = ws ∨ x ∈ set.
Proof.
  unfold setAdd. case_bool_decide; [by right|].
  intros [?|?%list_elem_of_singleton]%elem_of_app; auto.
Qed.

Lemma setDelete_elem x ws set : x ∈ setDelete ws set → x ∈ set.
Proof.
  unfold setDelete. rewrite !list_elem_of_In. intros H.
  by apply List.filter_In in H as [? _].
Qed.

Lemma step_asked (all : list Event) h ev :
  ev ∈ all →
  (∀ symbol ws, ws ∈ default [] (clients h !! symbol) → asked all ws symbol) →
  (∀ u, u ∈ outbox h → asked all (to u) (u_symbol u)) →
  (∀ symbol ws, ws ∈ default [] (clients (step h ev) !! symbol) →
                asked all ws symbol) ∧
  (∀ u, u ∈ outbox (step h ev) → asked all (to u) (u_symbol u)).
Proof.
  intros Hev Hc Ho. destruct ev as [ws param|ws|iid]; cbn [step].
  - destruct param as [s|]; [|done].
    destruct (Js.truthy_str (FeedConnection.toUpperCase s)) eqn:Et.
    2: { unfold onConnection. simpl. by rewrite Et. }
    rewrite (onConnection_named ws s h Et). cbn [clients outbox].
    split; [|done]. intros symbol x.
    destruct (decide (symbol = FeedConnection.toUpperCase s)) as [->|Hne].
    + rewrite lookup_insert_eq. cbn.
      intros [->|Hin]%setAdd_elem; [by exists s|by apply Hc].
    + rewrite lookup_insert_ne by done. apply Hc.
  - unfold onSocketClose.
    destruct (listeners h !! ws) as [[symbol iid]|]; [|done].
    cbn [clients outbox]. split; [|done]. intros symbol' x.
    destruct (clients h !! symbol) as [set|] eqn:Es; [|apply Hc].
    destruct (decide (symbol' = symbol)) as [->|Hne].
    + rewrite lookup_insert_eq. cbn. intros Hin%setDelete_elem.
      apply Hc. by rewrite Es.
    + rewrite lookup_insert_ne by done. apply Hc.
  - destruct (List.find _ _) as [[? symbol]|]; [|done].
    unfold onInterval.
    destruct (PriceHandlerFeed.adjustPrice _ _ _) as [p d].
    cbn [clients outbox]. split; [done|].
    destruct p as [mp|]; [|done]. destruct (Js.truthy mp); [|done].
    intros u [Hu|Hu]%elem_of_app; [by apply Ho|].
    apply list_elem_of_fmap in Hu as (client & -> & Hin). cbn.
    apply Hc. rewrite list_elem_of_In in Hin.
    apply List.filter_In in Hin as [Hin _]. by rewrite list_elem_of_In.
Qed.

Lemma run_asked (all evs : list Event) h :
  (∀ ev, ev ∈ evs → ev ∈ all) →
  (∀ symbol ws, ws ∈ default [] (clients h !! symbol) → asked all ws symbol) →
  (∀ u, u ∈ outbox h → asked all (to u) (u_symbol u)) →
  ∀ u, u ∈ outbox (run evs h) → asked all (to u) (u_symbol u).
Proof.
  revert h. induction evs as [|ev evs IH]; intros h Hsub Hc Ho; [done|].
  change (run (ev :: evs) h) with (run evs (step h ev)).
  destruct (step_asked all h ev) as [Hc' Ho']; [apply Hsub; by left|done..|].
  apply IH; [|done..]. intros ev' Hev'. apply Hsub. by right.
Qed.

(** X21.  A socket only receives the prices of a symbol it asked for.
    Whatever connections, closes and ticks the server has seen since it
    started, every update that was sent went to a socket that connected
    with that symbol in its URL, in any letter case; a socket that named no
    symbol is sent nothing. *)
Theorem updates_reach_subscribers_only (evs : list Event)
  (st : Server.State) (u : Update) :
  u ∈ outbox (run evs (listening st)) →
  ∃ s, Connect (to u) (Some s) ∈ evs ∧
       FeedConnection.toUpperCase s = u_symbol u.
Proof.
  apply (run_asked evs evs (listening st)).
  - done.
  - intros symbol ws. cbn. rewrite lookup_empty. cbn.
    intros H. by apply elem_of_nil in H.
  - intros u' H. by apply elem_of_nil in H.
Qed.

Lemma updates_reach_subscribers_only_witness :
  let evs := [Connect 4 (Some "btcusdt"%string); Connect 5 None; Tick 0] in
  let st := Sample.state Sample.upDb 100 in
  outbox (run evs (listening st)) = [mkUpdate 4 "BTCUSDT" (100 * 0.998)] ∧
  ∃ s, Connect 4 (Some s) ∈ evs ∧
       FeedConnection.toUpperCase s = "BTCUSDT"%string.
Proof.
  cbv zeta.
  assert (Ho : outbox (run [Connect 4 (Some "btcusdt"%string);
                            Connect 5 None; Tick 0]
                         (listening (Sample.state Sample.upDb 100))) =
               [mkUpdate 4 "BTCUSDT" (100 * 0.998)])
    by (vm_compute; reflexivity).
  split; [exact Ho|].
  apply (updates_reach_subscribers_only _
           (Sample.state Sample.upDb 100)
           (mkUpdate 4 "BTCUSDT" (100 * 0.998))).
  rewrite Ho. by left.
Defined.

End HubFacts.

(** ** A settled order is final *)

Module FinalityFacts.
Import Store Server Invariants.

Lemma delete_other_key {A} (f : A → nat) (l : list A) n x y :
  NoDup (f <$> l) → l !! n = Some x → y ∈ delete n l → f y ≠ f x.
Proof.
  intros Hnd Hn Hy. rewrite delete_take_drop in Hy.
  rewrite <- (take_drop_middle l n x Hn) in Hnd.
  rewrite fmap_app, fmap_cons in Hnd.
  apply NoDup_app in Hnd as (_ & Hl & Hr).
  apply NoDup_cons in Hr as [Hr _].
  apply elem_of_app in Hy as [Hy|Hy].
  - intros Heq. apply (Hl (f y)).
    + by apply list_elem_of_fmap_2.
    + rewrite Heq. by left.
  - intros Heq. apply Hr. rewrite <- Heq. by apply list_elem_of_fmap_2.
Qed.

Lemma step_armedOnce st ev : armedOnce st → armedOnce (step st ev).
Proof.
  intros [Hnd Hall]. destruct ev as [now b|symbol|data|n]; cbn [step].
  - destruct (InvariantFacts.postOrder_cases now b st)
      as [->|(symbol & amount & direction & duration & u & _ & _ & _ & ->)];
      [done|].
    unfold accepted, armedOnce. cbn [snd timers db orders].
    rewrite fmap_app, length_app. cbn [fmap list_fmap length].
    split.
    + apply NoDup_app. split; [done|]. split; [|apply NoDup_singleton].
      intros x Hx ->%list_elem_of_singleton.
      apply list_elem_of_fmap in Hx as (t & Ht & Hin).
      destruct (Hall t Hin) as [Hlt _]. unfold settledBy in *.
      cbn in Ht. lia.
    + intros t [Hin|Hin%list_elem_of_singleton]%elem_of_app; [|subst t].
      * destruct (Hall t Hin) as [Hlt Hout]. split; [lia|].
        intros o. rewrite lookup_app_l by done. apply Hout.
      * unfold settledBy. cbn. split; [lia|].
        intros o. rewrite list_lookup_middle by done. by intros [= <-].
  - destruct (InvariantFacts.publish_store symbol st) as (_ & Ho & Ht & _).
    unfold armedOnce. by rewrite Ho, Ht.
  - done.
  - destruct (timers st !! n) as [t|] eqn:Et; [|done].
    set (st1 := withTimers st (delete n (timers st))).
    destruct (RunFacts.settle_frame (callback t) st1) as (Htm & _ & _ & Hlen).
    unfold armedOnce. rewrite Htm, Hlen. cbn [timers withTimers st1 db].
    split.
    + rewrite list_fmap_delete.
      eapply sublist_NoDup; [exact Hnd|apply sublist_delete].
    + intros t' Hin'.
      pose proof (delete_other_key settledBy _ _ _ _ Hnd Et Hin') as Hne.
      apply list_elem_of_delete_inv in Hin'.
      destruct (Hall t' Hin') as [Hlt Hout]. split; [done|].
      destruct (InvariantFacts.settle_effect (callback t) st1)
        as [->|(p & o & u & _ & _ & _ & -> & _)]; [done|].
      intros o'. rewrite list_lookup_insert_ne by (by unfold settledBy in Hne).
      apply Hout.
Qed.

Lemma step_final st ev i o :
  armedOnce st →
  orders (db st) !! i = Some o → is_Some (outcome o) →
  orders (db (step st ev)) !! i = Some o.
Proof.
  intros [_ Hall] Ho Hout. destruct ev as [now b|symbol|data|n]; cbn [step].
  - destruct (InvariantFacts.postOrder_cases now b st)
      as [->|(symbol & amount & direction & duration & u & _ & _ & _ & ->)];
      [done|].
    unfold accepted. cbn [snd db orders].
    by rewrite lookup_app_l by (by eapply lookup_lt_Some).
  - by destruct (InvariantFacts.publish_store symbol st) as (_ & -> & _).
  - done.
  - destruct (timers st !! n) as [t|] eqn:Et; [|done].
    set (st1 := withTimers st (delete n (timers st))).
    destruct (InvariantFacts.settle_effect (callback t) st1)
      as [->|(p & o' & u & _ & _ & _ & -> & _)]; [done|].
    destruct (decide (i = id (c_order (callback t)))) as [->|Hne].
    + destruct (Hall t) as [_ Hnone]; [by eapply list_elem_of_lookup_2|].
      specialize (Hnone o Ho). rewrite Hnone in Hout. by destruct Hout.
    + by rewrite list_lookup_insert_ne.
Qed.

Lemma run_armedOnce evs st : armedOnce st → armedOnce (run evs st).
Proof.
  revert st. induction evs as [|ev evs IH]; intros st H; [done|].
  apply IH. by apply step_armedOnce.
Qed.

Lemma run_final evs st i o :
  armedOnce st →
  orders (db st) !! i = Some o → is_Some (outcome o) →
  orders (db (run evs st)) !! i = Some o.
Proof.
  revert st. induction evs as [|ev evs IH]; intros st Ha Ho Hout; [done|].
  apply IH; [by apply step_armedOnce|by apply step_final|done].
Qed.

(** X22.  A settled order is final.  In a process that started with no
    timer armed, an order that has an outcome is never written again: after
    any further events its row is exactly the same, outcome, exit price and
    profit/loss included.  No two armed timers ever settle the same order,
    and an order with an armed timer has no outcome yet. *)
Theorem settled_orders_are_final (d : Db) (before after : list Event)
  (i : nat) (o : Order) :
  orders (db (run before (start d))) !! i = Some o →
  is_Some (outcome o) →
  orders (db (run after (run before (start d)))) !! i = Some o ∧
  armedOnce (run before (start d)).
Proof.
  intros Ho Hout.
  assert (Ha : armedOnce (run before (start d))).
  { apply run_armedOnce. split; [apply NoDup_nil_2|].
    intros t Ht. by apply elem_of_nil in Ht. }
  split; [by apply run_final|done].
Qed.

Lemma settled_orders_are_final_witness :
  let before := [Frame (Some (Sample.ticker 1 100));
                 Post 0 (Sample.body 10 "up"); Expire 0] in
  let after := [Frame (Some (Sample.ticker 2 120));
                Post 5 (Sample.body 20 "down"); Expire 0; Expire 0] in
  ∃ o, orders (db (run before (start Sample.emptyDb))) !! 0%nat = Some o ∧
       outcome o = Some "loss"%string ∧
       orders (db (run after (run before (start Sample.emptyDb)))) !! 0%nat =
         Some o.
Proof.
  cbv zeta. eexists.
  assert (Ho : orders (db (run [Frame (Some (Sample.ticker 1 100));
                                Post 0 (Sample.body 10 "up"); Expire 0]
                             (start Sample.emptyDb))) !! 0%nat =
               Some (settled (Sample.openOrder 0 "up" 10) (100 * 0.998)
                       (100 * 0.998) "loss" (- 10)))
    by (vm_compute; reflexivity).
  split; [exact Ho|]. split; [reflexivity|].
  apply (settled_orders_are_final Sample.emptyDb _ _ 0 _ Ho).
  by eexists.
Defined.

End FinalityFacts.

(** ** Reading the feed cache *)

Module CacheFacts.
Import Store Feed.

(** X23.  What is read back from the feed cache.  A frame that does not
    parse or whose event type is not "24hrTicker" changes no cached price.
    After a ticker frame [getCurrentPrice] returns the price of the frame
    for its symbol, except that a price of 0 reads as no price at all, and
    returns what it returned before for every other symbol.  With a price
    of 0 cached, [adjustPrice] of the revision with the random factor
    answers null and writes nothing. *)
Theorem cache_read_back (m : Message) (priceCache : gmap string Q) :
  onMessage None priceCache = priceCache ∧
  (e m ≠ "24hrTicker"%string → onMessage (Some m) priceCache = priceCache) ∧
  (e m = "24hrTicker"%string →
   getCurrentPrice (onMessage (Some m) priceCache) (s m) =
     (if Js.truthy (c m) then Some (c m) else None) ∧
   (∀ other, other ≠ s m →
             getCurrentPrice (onMessage (Some m) priceCache) other =
               getCurrentPrice priceCache other) ∧
   (c m == 0 →
    ∀ random (d : Db),
      PriceHandlerJitter.adjustPrice random (onMessage (Some m) priceCache)
        (s m) d = (None, d))).
Proof.
  split; [done|]. split.
  - intros Hne. unfold onMessage.
    destruct (String.eqb_spec (e m) "24hrTicker"); [contradiction|done].
  - intros He. rewrite (FeedFacts.onMessage_ticker m priceCache He).
    assert (Hget : getCurrentPrice (<[s m := c m]> priceCache) (s m) =
                   (if Js.truthy (c m) then Some (c m) else None)).
    { unfold getCurrentPrice, Js.or. rewrite lookup_insert_eq. simpl.
      by destruct (Js.truthy (c m)). }
    split; [done|]. split.
    + intros other Hne. unfold getCurrentPrice.
      by rewrite lookup_insert_ne.
    + intros Hz random d. unfold PriceHandlerJitter.adjustPrice.
      rewrite Hget. apply JsFacts.truthy_false in Hz. by rewrite Hz.
Qed.

Lemma cache_read_back_witness :
  getCurrentPrice (onMessage (Some (Sample.ticker 1 0)) ∅) "BTCUSDT" = None ∧
  getCurrentPrice (onMessage (Some (Sample.ticker 1 100)) ∅) "BTCUSDT" =
    Some 100.
Proof.
  split.
  - exact (proj1 (proj2 (proj2 (cache_read_back (Sample.ticker 1 0) ∅))
                    eq_refl)).
  - exact (proj1 (proj2 (proj2 (cache_read_back (Sample.ticker 1 100) ∅))
                    eq_refl)).
Defined.

End CacheFacts.

(** ** The settlement transaction is all or nothing *)

Module AtomicFacts.
Import Store Server.

(** X24.  The callback never writes half of a settlement.  When the order
    or the user of the closure is not in the store, the transaction is
    rolled back and the callback leaves the whole state as it was: the
    outcome of the order is not written without its user, and no user is
    credited for an order that is not stored.  Otherwise, with a price at
    hand, both writes are committed. *)
Theorem settlement_all_or_nothing (k : Closure) (st : State) :
  (orders (db st) !! id (c_order k) = None ∨
   users (db st) !! c_userId k = None → settle k st = st) ∧
  (∀ p, finalPrice k st = Some p →
        is_Some (orders (db st) !! id (c_order k)) →
        is_Some (users (db st) !! c_userId k) →
        journal (db (settle k st)) =
          journal (db st) ++ settlementWrites k p ∧
        ∃ o', orders (db (settle k st)) !! id (c_order k) = Some o' ∧
              exitPrice o' = Some p ∧ is_Some (outcome o')).
Proof.
  split.
  - intros Hmiss. unfold settle.
    destruct (finalPrice k st) as [p|]; [|done].
    rewrite ResolveFacts.resolveTrade_throws by done. by destruct st.
  - intros p Hp [o Ho] [u Hu].
    split; [by apply (RunFacts.settle_commits_journal k st p o u)|].
    unfold settle. rewrite Hp. cbn [db withDb].
    destruct (ResolveFacts.resolveTrade_commits k p _ o u Ho Hu) as (-> & _).
    rewrite list_lookup_insert_eq by (by eapply lookup_lt_Some).
    eexists. split; [done|]. split; [done|]. by eexists.
Qed.

Lemma settlement_all_or_nothing_witness :
  let k := Sample.closure (Sample.openOrder 1 "down" 30) in
  let st := Sample.state (withUsers Sample.upDb ∅) 100 in
  users (db st) !! c_userId k = None ∧
  is_Some (orders (db st) !! id (c_order k)) ∧
  settle k st = st.
Proof.
  cbv zeta.
  set (k := Sample.closure (Sample.openOrder 1 "down" 30)).
  set (st := Sample.state (withUsers Sample.upDb ∅) 100).
  assert (Hu : users (db st) !! c_userId k = None) by reflexivity.
  split; [exact Hu|]. split; [by eexists|].
  exact (proj1 (settlement_all_or_nothing k st) (or_intror Hu)).
Defined.

End AtomicFacts.
